(** * Pokemon battle simulation: a shallow embedding of [pokemon_base.py],
      [poke_team.py] and [battle.py], and the properties of the battle
      resolution engine.

    Numbers.  A Python number, [int] or [float], is embedded as the
    rational [Q] it denotes; [math.ceil] is [Qceiling]; Python's numeric
    [==], [<] are [Qeq], [Qlt].  Counters and levels are integers.  The
    stats of a Pokemon are integers, multiplied by 1.5 at an evolution,
    and what [defend], [level_up] and the base of an attack compute from
    them is exact in binary floating point.  The completion ratios are
    not: [len(pokedex) / 15], its rounding to two decimals, the quotient
    of two ratios and the products of the damage are [float] operations
    whose results are rounded, and each is embedded with its rounding
    [rnd] to the nearest double.

    Objects.  A Pokemon is a mutable object that is shared between the
    team container, [PokeTeam.team_memory] and the local variables of a
    round, so Pokemon live in a store indexed by references and containers
    hold references.

    Exceptions.  Fallible code returns [result]; a raised exception leaves
    the whole operation and no later statement runs.

    The two trainers of a battle are two objects, and so are their teams. *)

From Stdlib Require Import QArith Qround Qpower Qabs ZArith List String Bool.
From Stdlib Require Import Arith Lia Lqa.
From Stdlib Require Import Permutation.
Import ListNotations.

Open Scope Q_scope.

(* ------------------------------------------------------------------ *)
(** ** Exceptions *)

Inductive exn : Type :=
| ValueError
| TypeError
| AttributeError
| IndexError
| ZeroDivisionError
| EmptyContainer  (* the plain [Exception] of a pop or serve on an empty container *).

Inductive result (A : Type) : Type :=
| Ok (a : A)
| Raise (e : exn).
Arguments Ok {A} a.
Arguments Raise {A} e.

Definition bind {A B : Type} (m : result A) (k : A -> result B) : result B :=
  match m with
  | Ok a => k a
  | Raise e => Raise e
  end.

Declare Scope py_scope.
Delimit Scope py_scope with py.
Notation "'do' x <- m ; k" := (bind m (fun x => k))
  (at level 10, x pattern, m at level 100, k at level 200) : py_scope.
Open Scope py_scope.

(* ------------------------------------------------------------------ *)
(** ** Numeric helpers *)

Definition Qltb (x y : Q) : bool :=
  match x ?= y with Lt => true | _ => false end.

(** [math.ceil] returns an [int]; where the code keeps computing with it
    the integer is read back as a number. *)
Definition ceil (x : Q) : Z := Qceiling x.

(** The integer nearest to [x], the even one of the two when [x] lies
    half way: the rounding of [round] and of the floating-point unit. *)
Definition round_half_even (x : Q) : Z :=
  let n := Qfloor x in
  match Qcompare (x - inject_Z n) (1 # 2) with
  | Lt => n
  | Gt => (n + 1)%Z
  | Eq => if Z.even n then n else (n + 1)%Z
  end.

(** The exponent [e] with [2^e <= |x| < 2^(e+1)], for [x] other than 0:
    the difference of the bit lengths of numerator and denominator, or
    one less. *)
Definition binade (x : Q) : Z :=
  let e := (Z.log2 (Z.abs (Qnum x)) - Z.log2 (Z.pos (Qden x)))%Z in
  if Qle_bool (2 ^ e) (Qabs x) then e else (e - 1)%Z.

(** The [float] (IEEE 754 double, 53 significant bits) nearest to [x],
    ties to the even significand: what a [float] operation returns for
    the exact result [x].  The doubles between [2^e] and [2^(e+1)] are the
    multiples of [2^(e-52)].  The range of the exponent is not modelled:
    no overflow to infinity above about 1.8e308 and no loss of bits below
    2.2e-308, which is far from every number of a battle. *)
Definition rnd (x : Q) : Q :=
  if Qeq_bool x 0 then 0
  else let ulp := 2 ^ (binade x - 52) in
       inject_Z (round_half_even (x / ulp)) * ulp.

(** The bound [2^-53] on the relative error of one rounding. *)
Definition eps : Q := 1 # 9007199254740992.

(* ------------------------------------------------------------------ *)
(** ** pokemon_base.py *)

Inductive PokeType : Type :=
| FIRE | WATER | GRASS | BUG | DRAGON | ELECTRIC | FIGHTING | FLYING
| GHOST | GROUND | ICE | NORMAL | POISON | PSYCHIC | ROCK.

Definition PokeType_value (t : PokeType) : nat :=
  match t with
  | FIRE => 0 | WATER => 1 | GRASS => 2 | BUG => 3 | DRAGON => 4
  | ELECTRIC => 5 | FIGHTING => 6 | FLYING => 7 | GHOST => 8 | GROUND => 9
  | ICE => 10 | NORMAL => 11 | POISON => 12 | PSYCHIC => 13 | ROCK => 14
  end%nat.

(** [len(PokeType)] *)
Definition len_PokeType : nat := 15.

(** The attributes set in [Pokemon.__init__]; [klass] is [type(self)], the
    species class the object was created from (it never changes). *)
Record Pokemon : Type := mkPokemon {
  klass : string;
  health : Q;
  level : Z;
  poketype : PokeType;
  battle_power : Q;
  evolution_line : list string;
  name : string;
  experience : Z;
  defence : Q;
  speed : Q
}.

Definition set_health (h : Q) (p : Pokemon) : Pokemon :=
  mkPokemon (klass p) h (level p) (poketype p) (battle_power p)
            (evolution_line p) (name p) (experience p) (defence p) (speed p).

Definition set_level (l : Z) (p : Pokemon) : Pokemon :=
  mkPokemon (klass p) (health p) l (poketype p) (battle_power p)
            (evolution_line p) (name p) (experience p) (defence p) (speed p).

Definition set_name (n : string) (p : Pokemon) : Pokemon :=
  mkPokemon (klass p) (health p) (level p) (poketype p) (battle_power p)
            (evolution_line p) n (experience p) (defence p) (speed p).

Definition set_evolution_line (l : list string) (p : Pokemon) : Pokemon :=
  mkPokemon (klass p) (health p) (level p) (poketype p) (battle_power p)
            l (name p) (experience p) (defence p) (speed p).

(** [list.index]: position of the first occurrence, [ValueError] when the
    element does not occur. *)
Fixpoint index (x : string) (l : list string) : result nat :=
  match l with
  | [] => Raise ValueError
  | y :: l' => if String.eqb y x then Ok O
               else do i <- index x l'; Ok (S i)
  end.

(** [l[i]] for a non-negative index. *)
Definition getitem {A : Type} (l : list A) (i : nat) : result A :=
  match nth_error l i with
  | Some a => Ok a
  | None => Raise IndexError
  end.

(** [l.pop(0)], keeping only the list that is left. *)
Definition pop0 {A : Type} (l : list A) : result (list A) :=
  match l with
  | [] => Raise IndexError
  | _ :: l' => Ok l'
  end.

(** The local variable [damage] of [Pokemon.attack], before the type
    effectiveness is applied. *)
Definition base_damage (self other_pokemon : Pokemon) : Q :=
  if Qltb (defence other_pokemon) (battle_power self / 2) then
    battle_power self - defence other_pokemon
  else if Qltb (defence other_pokemon) (battle_power self) then
    inject_Z (ceil (battle_power self * 5 / 8 - defence other_pokemon / 4))
  else
    inject_Z (ceil (battle_power self / 4)).

Section TypeChart.

(** The rows of [type_effectiveness.csv] (not among the sources), already
    parsed: the value [get_effectiveness] returns for an attacking and a
    defending type. *)
Variable EFFECT_TABLE : PokeType -> PokeType -> Q.

(** [TypeEffectiveness.get_effectiveness] *)
Definition get_effectiveness (attack_type defend_type : PokeType) : Q :=
  EFFECT_TABLE attack_type defend_type.

(** [Pokemon.attack]: the product with the [float] of the table. *)
Definition attack (self other_pokemon : Pokemon) : Q :=
  rnd (base_damage self other_pokemon
       * get_effectiveness (poketype self) (poketype other_pokemon)).

End TypeChart.

(** The local variable [effective_damage] of [Pokemon.defend]. *)
Definition effective_damage (self : Pokemon) (damage : Q) : Q :=
  if Qltb damage (defence self) then damage / 2 else damage.

(** [Pokemon.defend] *)
Definition defend (self : Pokemon) (damage : Q) : Pokemon :=
  set_health (health self - effective_damage self damage) self.

(** [Pokemon.apply_multiplier] *)
Definition apply_multiplier (multiplier : Q) (self : Pokemon) : Pokemon :=
  mkPokemon (klass self) (health self * multiplier) (level self)
            (poketype self) (battle_power self * multiplier)
            (evolution_line self) (name self) (experience self)
            (defence self * multiplier) (speed self * multiplier).

(** [Pokemon._evolve] *)
Definition _evolve (self : Pokemon) : result Pokemon :=
  do i <- index (name self) (evolution_line self);
  let new_name_index := S i in
  do n <- getitem (evolution_line self) new_name_index;
  let self := set_name n self in
  do l <- pop0 (evolution_line self);
  let self := set_evolution_line l self in
  Ok (apply_multiplier (3 # 2) self).

(** [Pokemon.level_up] *)
Definition level_up (self : Pokemon) : result Pokemon :=
  let self := set_level (level self + 1) self in
  if (0 <? List.length (evolution_line self))%nat then
    do i <- index (name self) (evolution_line self);
    if negb (i =? List.length (evolution_line self) - 1)%nat then _evolve self
    else Ok self
  else Ok self.

(** [Pokemon.is_alive] *)
Definition is_alive (self : Pokemon) : bool := Qltb 0 (health self).

(* ------------------------------------------------------------------ *)
(** ** The object store *)

(** A reference to a Pokemon object. *)
Definition ref : Type := nat.

(** The store maps every reference to the current state of its object. *)
Definition Store : Type := ref -> Pokemon.

Definition update (h : Store) (r : ref) (p : Pokemon) : Store :=
  fun r' => if (r' =? r)%nat then p else h r'.

(* ------------------------------------------------------------------ *)
(** ** data_structures: the team containers *)

(** Modelled from the spec: [ListItem] of data_structures/array_sorted_list.py
    (not among the sources), a value with its sort key. *)
Record ListItem : Type := mkListItem { value : ref; key : Q }.

(** Modelled from the spec: the containers of data_structures/ (referential
    array, stack_adt, queue_adt, array_sorted_list are not among the
    sources).  Section 4.1: KingOfHill is LIFO (take-next pops the top,
    return pushes on top), Rotation is FIFO (take-next dequeues the front,
    return enqueues at the back), Ranked is a dense array kept sorted
    ascending by key (take-next removes index 0, return inserts at the
    position found by binary search).  A stack is listed top first, a queue
    front first.  Capacities are not modelled: the spec does not say what a
    full container does, and a battle only returns what it took.  An array
    is listed by the Pokemon in its slots; the arrays a team is assembled
    from are full ([choose_manually] allocates a slot for each Pokemon,
    [choose_randomly] fills all [TEAM_LIMIT] slots). *)
Inductive Container : Type :=
| ArrayR (a : list ref)
| ArrayStack (s : list ref)
| CircularQueue (q : list ref)
| ArraySortedList (l : list ListItem).

(** [len(container)] *)
Definition len (c : Container) : nat :=
  match c with
  | ArrayR a => List.length a
  | ArrayStack s => List.length s
  | CircularQueue q => List.length q
  | ArraySortedList l => List.length l
  end.

(** The references a container holds, in container order. *)
Definition members (c : Container) : list ref :=
  match c with
  | ArrayR a => a
  | ArrayStack s => s
  | CircularQueue q => q
  | ArraySortedList l => map value l
  end.

Definition push (s : list ref) (r : ref) : list ref := r :: s.

Definition pop (s : list ref) : result (ref * list ref) :=
  match s with
  | [] => Raise EmptyContainer
  | r :: s' => Ok (r, s')
  end.

Definition append (q : list ref) (r : ref) : list ref := q ++ [r].

Definition serve (q : list ref) : result (ref * list ref) :=
  match q with
  | [] => Raise EmptyContainer
  | r :: q' => Ok (r, q')
  end.

(** Modelled from the spec: the binary search of [ArraySortedList.add]
    (section 4.1).  The probe is the middle of the current interval; the
    docstrings of [Battle._check_alive] and [PokeTeam.assign_team] say that
    the search is over at once when the key to add equals the key in the
    middle.  The interval shrinks at every step, so [fuel] of the interval's
    width is enough. *)
Fixpoint _index_to_add_loop (fuel : nat) (l : list ListItem) (k : Q)
                            (low high : Z) : Z :=
  match fuel with
  | O => low
  | S fuel' =>
    if (low <=? high)%Z then
      let mid := ((low + high) / 2)%Z in
      match nth_error l (Z.to_nat mid) with
      | None => low
      | Some it =>
        match Qcompare (key it) k with
        | Lt => _index_to_add_loop fuel' l k (mid + 1)%Z high
        | Gt => _index_to_add_loop fuel' l k low (mid - 1)%Z
        | Eq => mid
        end
      end
    else low
  end.

Definition _index_to_add (l : list ListItem) (item : ListItem) : nat :=
  Z.to_nat (_index_to_add_loop (S (List.length l)) l (key item)
                               0%Z (Z.of_nat (List.length l) - 1)%Z).

(** Modelled from the spec: [ArraySortedList.add], insertion at the
    position found by the search, the items behind it shifted right. *)
Definition add (l : list ListItem) (item : ListItem) : list ListItem :=
  let position := _index_to_add l item in
  firstn position l ++ item :: skipn position l.

(** Modelled from the spec: [ArraySortedList.delete_at_index(0)]. *)
Definition delete_at_index_0 (l : list ListItem)
  : result (ListItem * list ListItem) :=
  match l with
  | [] => Raise IndexError
  | it :: l' => Ok (it, l')
  end.

(** Modelled from the spec: [BSet], the trainer's set of encountered type
    numbers (data_structures/bset.py is not among the sources): a set of
    positive integers with [add] and [len]. *)
Definition BSet : Type := list nat.

Definition bset_add (s : BSet) (i : nat) : BSet :=
  if existsb (Nat.eqb i) s then s else i :: s.

Definition bset_len (s : BSet) : nat := List.length s.

(* ------------------------------------------------------------------ *)
(** ** battle_mode.py *)

(** Modelled from the spec: [BattleMode] (battle_mode.py is not among the
    sources), the three modes with the values the code tests. *)
Inductive BattleMode : Type := SET | ROTATE | OPTIMISE.

Definition BattleMode_value (m : BattleMode) : nat :=
  match m with SET => 0 | ROTATE => 1 | OPTIMISE => 2 end%nat.

(* ------------------------------------------------------------------ *)
(** ** poke_team.py *)

Definition TEAM_LIMIT : nat := 6.

Definition CRITERION_LIST : list string :=
  ["health"; "defence"; "battle_power"; "speed"; "level"]%string.

(** [getattr(pokemon, criterion)] for the attributes that hold a number
    (a key is negated and compared, so only these can serve as keys).  A
    string that names no attribute raises [AttributeError]; the attributes
    that hold a string or a list ([name], [poketype], [evolution_line])
    are not read as keys here, and the embedding raises for them too. *)
Definition getattr (p : Pokemon) (criterion : string) : result Q :=
  if String.eqb criterion "health" then Ok (health p)
  else if String.eqb criterion "defence" then Ok (defence p)
  else if String.eqb criterion "battle_power" then Ok (battle_power p)
  else if String.eqb criterion "speed" then Ok (speed p)
  else if String.eqb criterion "level" then Ok (inject_Z (level p))
  else if String.eqb criterion "experience" then Ok (inject_Z (experience p))
  else Raise AttributeError.

(** [team_memory] is [None] until a team is chosen; afterwards it is the
    very array object the team was chosen into.  That array is never
    written again, so its content stands for the object. *)
Record PokeTeam : Type := mkPokeTeam {
  team : Container;
  team_memory : option (list ref);
  team_count : nat;
  special_counter : nat
}.

Definition set_team (c : Container) (self : PokeTeam) : PokeTeam :=
  mkPokeTeam c (team_memory self) (team_count self) (special_counter self).

Definition incr_special_counter (self : PokeTeam) : PokeTeam :=
  mkPokeTeam (team self) (team_memory self) (team_count self)
             (special_counter self + 1).

(** [PokeTeam.__init__]; the array of [TEAM_LIMIT] unset slots holds no
    Pokemon, and choosing a team replaces or fills it. *)
Definition PokeTeam_init : PokeTeam := mkPokeTeam (ArrayR []) None 0 0.

(** [PokeTeam.choose_manually] on the answers of the user: [chosen] are
    the objects created for the names entered. *)
Definition choose_manually (chosen : list ref) (self : PokeTeam) : PokeTeam :=
  mkPokeTeam (ArrayR chosen) (Some chosen)
             (team_count self + List.length chosen) (special_counter self).

(** [PokeTeam.choose_randomly] on the outcome of the draws: [drawn i] is
    the object created at iteration [i].  [self.team] is the array of
    [__init__], which the loop fills. *)
Definition choose_randomly (drawn : nat -> ref) (self : PokeTeam) : PokeTeam :=
  let a := map drawn (seq 0 TEAM_LIMIT) in
  mkPokeTeam (ArrayR a) (Some a) TEAM_LIMIT (special_counter self).

(** The loop of [PokeTeam.assign_team]. *)
Fixpoint assign_team_loop (h : Store) (criterion : option string)
    (a : list ref) (optimise_assemble_team : list ListItem)
  : result (list ListItem) :=
  match a with
  | [] => Ok optimise_assemble_team
  | pokemon :: a' =>
    do k <- match criterion with
            | Some c => if existsb (String.eqb c) CRITERION_LIST
                        then getattr (h pokemon) c
                        else Raise ValueError
            | None => Raise ValueError
            end;
    assign_team_loop h criterion a'
                     (add optimise_assemble_team (mkListItem pokemon k))
  end.

(** [PokeTeam.assign_team] *)
Definition assign_team (h : Store) (criterion : option string)
    (self : PokeTeam) : result PokeTeam :=
  match team self with
  | ArrayR a =>
    do l <- assign_team_loop h criterion a [];
    Ok (set_team (ArraySortedList l) self)
  | _ => Raise TypeError
  end.

(** [PokeTeam.assemble_team] *)
Definition assemble_team (h : Store) (battle_mode : BattleMode)
    (criterion : option string) (self : PokeTeam) : result PokeTeam :=
  match team self with
  | ArrayR a =>
    match battle_mode with
    | SET => Ok (set_team (ArrayStack (fold_left push a [])) self)
    | ROTATE => Ok (set_team (CircularQueue (fold_left append a [])) self)
    | OPTIMISE => assign_team h criterion self
    end
  | _ => Raise TypeError
  end.

(** [for _ in range(n): dst.push(src.pop())] *)
Fixpoint pop_push (n : nat) (src dst : list ref) : result (list ref * list ref) :=
  match n with
  | O => Ok (src, dst)
  | S n' => do (r, src') <- pop src; pop_push n' src' (push dst r)
  end.

(** [for _ in range(n): dst.append(src.serve())] *)
Fixpoint serve_append (n : nat) (src dst : list ref)
  : result (list ref * list ref) :=
  match n with
  | O => Ok (src, dst)
  | S n' => do (r, src') <- serve src; serve_append n' src' (append dst r)
  end.

(** [while len(src) > 0: dst.push(src.pop())]; also the loop that serves a
    queue onto a stack, a queue being listed front first. *)
Fixpoint drain_push (src dst : list ref) : list ref :=
  match src with
  | [] => dst
  | r :: src' => drain_push src' (push dst r)
  end.

(** [while len(src) > 0: dst.append(src.pop())]; also the loop that serves
    a queue into a queue. *)
Fixpoint drain_append (src dst : list ref) : list ref :=
  match src with
  | [] => dst
  | r :: src' => drain_append src' (append dst r)
  end.

(** The loop of the OPTIMISE branch of [PokeTeam.special]. *)
Fixpoint special_optimise_loop (n : nat) (self_team temp_asl : list ListItem)
  : result (list ListItem) :=
  match n with
  | O => Ok temp_asl
  | S n' =>
    do (update_pokemon, self_team') <- delete_at_index_0 self_team;
    let update_pokemon :=
      mkListItem (value update_pokemon) (key update_pokemon * -1) in
    special_optimise_loop n' self_team' (add temp_asl update_pokemon)
  end.

(** [PokeTeam.special].  A container of another kind than the mode's has
    none of the methods the branch calls, which shows as soon as a loop
    body runs. *)
Definition special (battle_mode : BattleMode) (self : PokeTeam)
  : result PokeTeam :=
  match battle_mode with
  | SET =>
    match team self with
    | ArrayStack s1 =>
      do (s1, s2) <- pop_push (List.length s1 / 2) s1 [];
      let s3 := drain_push s2 [] in
      let s1 := drain_push s3 s1 in
      Ok (incr_special_counter (set_team (ArrayStack s1) self))
    | other =>
      if (len other / 2 =? 0)%nat then Ok (incr_special_counter self)
      else Raise AttributeError
    end
  | ROTATE =>
    match team self with
    | CircularQueue s1 =>
      do (s1, s3) <- serve_append (List.length s1 / 2) s1 [];
      let s2 := drain_push s1 [] in
      let s3 := drain_append s2 s3 in
      let s1 := drain_append s3 [] in
      Ok (incr_special_counter (set_team (CircularQueue s1) self))
    | other =>
      if (len other =? 0)%nat then Ok (incr_special_counter self)
      else Raise AttributeError
    end
  | OPTIMISE =>
    match team self with
    | ArraySortedList l =>
      do temp_asl <- special_optimise_loop (List.length l) l [];
      Ok (incr_special_counter (set_team (ArraySortedList temp_asl) self))
    | other =>
      if (len other =? 0)%nat
      then Ok (incr_special_counter (set_team (ArraySortedList []) self))
      else Raise AttributeError
    end
  end.

Section Catalog.

(** The species catalog of pokemon.py (not among the sources):
    [POKE_LIST] holds the species classes, [POKE_HEALTH] the health each
    class starts with, in the same order. *)
Variable POKE_LIST : list string.
Variable POKE_HEALTH : list Q.

(** The first loop of [PokeTeam.regenerate_team]. *)
Fixpoint regenerate_health (h : Store) (memory : list ref) : result Store :=
  match memory with
  | [] => Ok h
  | pokemon_name :: memory' =>
    do pokemon_name_index <- index (klass (h pokemon_name)) POKE_LIST;
    do baseline <- getitem POKE_HEALTH pokemon_name_index;
    regenerate_health (update h pokemon_name (set_health baseline (h pokemon_name)))
                      memory'
  end.

(** [PokeTeam.regenerate_team] *)
Definition regenerate_team (battle_mode : BattleMode)
    (criterion : option string) (h : Store) (self : PokeTeam)
  : result (Store * PokeTeam) :=
  match team_memory self with
  | None => Raise TypeError
  | Some memory =>
    do h <- regenerate_health h memory;
    let self := set_team (ArrayR memory) self in
    do self <- assemble_team h battle_mode criterion self;
    if (special_counter self mod 2 =? 1)%nat then
      do self <- special battle_mode self; Ok (h, self)
    else Ok (h, self)
  end.

End Catalog.

Record Trainer : Type := mkTrainer {
  trainer_name : string;
  poke_team : PokeTeam;
  pokedex : BSet
}.

Definition set_poke_team (t : PokeTeam) (self : Trainer) : Trainer :=
  mkTrainer (trainer_name self) t (pokedex self).

(** [Trainer.get_team] *)
Definition get_team (self : Trainer) : PokeTeam := poke_team self.

(** [Trainer.register_pokemon] *)
Definition register_pokemon (self : Trainer) (pokemon : Pokemon) : Trainer :=
  mkTrainer (trainer_name self) (poke_team self)
            (bset_add (pokedex self) (PokeType_value (poketype pokemon) + 1)).

(** [round(x, 2)] on a [float]: the value of [x] is rounded to the
    nearest multiple of 1/100, half way to the even one, and the result
    is the [float] nearest to that decimal. *)
Definition round2 (x : Q) : Q :=
  rnd (inject_Z (round_half_even (x * 100)) / 100).

(** [Trainer.get_pokedex_completion]; [/] on two [int]s is the [float]
    nearest to the quotient. *)
Definition get_pokedex_completion (self : Trainer) : Q :=
  let completion :=
    rnd (inject_Z (Z.of_nat (bset_len (pokedex self)))
         / inject_Z (Z.of_nat len_PokeType)) in
  round2 completion.

(* ------------------------------------------------------------------ *)
(** ** battle.py *)

(** The two trainer objects of a battle; [Battle.winner_trainer] refers to
    one of them or is [None]. *)
Inductive Side : Type := Side1 | Side2.

Record Battle : Type := mkBattle {
  trainer_1 : Trainer;
  trainer_2 : Trainer;
  battle_mode : BattleMode;
  criterion : string;
  winner_trainer : option Side
}.

(** [Battle.__init__] *)
Definition Battle_init (trainer_1 trainer_2 : Trainer)
    (battle_mode : BattleMode) (criterion : string) : Battle :=
  mkBattle trainer_1 trainer_2 battle_mode criterion None.

Definition trainer (self : Battle) (s : Side) : Trainer :=
  match s with Side1 => trainer_1 self | Side2 => trainer_2 self end.

Definition set_trainer (s : Side) (t : Trainer) (self : Battle) : Battle :=
  match s with
  | Side1 => mkBattle t (trainer_2 self) (battle_mode self) (criterion self)
                      (winner_trainer self)
  | Side2 => mkBattle (trainer_1 self) t (battle_mode self) (criterion self)
                      (winner_trainer self)
  end.

Definition set_winner_trainer (w : option Side) (self : Battle) : Battle :=
  mkBattle (trainer_1 self) (trainer_2 self) (battle_mode self)
           (criterion self) w.

(** [self.trainer_s.get_team().team]: the container object that the local
    names [t1_team], [t2_team] of the battle functions refer to. *)
Definition team_of (self : Battle) (s : Side) : Container :=
  team (get_team (trainer self s)).

Definition set_team_of (s : Side) (c : Container) (self : Battle) : Battle :=
  set_trainer s (set_poke_team (set_team c (get_team (trainer self s)))
                               (trainer self s)) self.

(** What the battle functions read and write: the Pokemon objects and the
    battle with its trainers and their teams. *)
Record State : Type := mkState { store : Store; this : Battle }.

Definition set_store (h : Store) (st : State) : State := mkState h (this st).
Definition set_this (b : Battle) (st : State) : State := mkState (store st) b.

(** What [_get_next_pokemon] hands out: a Pokemon from a stack or a queue,
    a [ListItem] from a sorted list. *)
Inductive Popped : Type :=
| PPokemon (r : ref)
| PItem (it : ListItem).

(** [Battle._get_next_pokemon] *)
Definition _get_next_pokemon (trainer_team : Container)
  : result (Popped * Container) :=
  match trainer_team with
  | ArrayStack s => do (r, s') <- pop s; Ok (PPokemon r, ArrayStack s')
  | CircularQueue q => do (r, q') <- serve q; Ok (PPokemon r, CircularQueue q')
  | ArraySortedList l =>
    do (it, l') <- delete_at_index_0 l; Ok (PItem it, ArraySortedList l')
  | ArrayR _ => Raise TypeError
  end.

Section Battle.

Variable EFFECT_TABLE : PokeType -> PokeType -> Q.

(** [Battle._calculate_attack_damage]: a [float] division, a [float]
    product, and [math.ceil] of the [float]. *)
Definition _calculate_attack_damage (attacker defender : Pokemon)
    (attacker_pokedex_completion defender_pokedex_completion : Q) : result Z :=
  if Qeq_bool defender_pokedex_completion 0 then Raise ZeroDivisionError
  else Ok (ceil (rnd (attack EFFECT_TABLE attacker defender
                      * rnd (attacker_pokedex_completion
                             / defender_pokedex_completion)))).

Definition other_side (s : Side) : Side :=
  match s with Side1 => Side2 | Side2 => Side1 end.

(** [defender.defend(attack_damage)] on the object in the store. *)
Definition hit (st : State) (defender : ref) (attack_damage : Z) : State :=
  set_store (update (store st) defender
                    (defend (store st defender) (inject_Z attack_damage))) st.

(** [self.trainer_s.get_pokedex_completion()] *)
Definition completion (st : State) (s : Side) : Q :=
  get_pokedex_completion (trainer (this st) s).

(** The pair of statements every attack in [_battle_round] consists of:
    the damage of [attacker] (of the trainer on side [s]) on [defender] is
    computed from the two pokedex completions, and [defender] defends. *)
Definition strike (s : Side) (attacker defender : ref) (st : State)
  : result State :=
  do attack_damage <-
     _calculate_attack_damage (store st attacker) (store st defender)
       (completion st s) (completion st (other_side s));
  Ok (hit st defender attack_damage).

(** The key of the [ListItem] built for a Pokemon that goes back to the
    sorted list of side [s]: the criterion's attribute as it is now,
    negated when the team's [special_counter] is odd. *)
Definition return_key (b : Battle) (s : Side) (p : Pokemon) : result Q :=
  do k <- getattr p (criterion b);
  if (special_counter (get_team (trainer b s)) mod 2 =? 0)%nat
  then Ok k else Ok (k * -1).

(** The block that sends [pokemon] back to the team of side [s]: the
    [isinstance] chain is run on [dispatch] and the method is called on the
    team of [s], which only has it when it is of the same kind. *)
Definition send_back (dispatch : Container) (s : Side) (pokemon : ref)
    (st : State) : result State :=
  let b := this st in
  match dispatch with
  | ArrayStack _ =>
    match team_of b s with
    | ArrayStack stack =>
      Ok (set_this (set_team_of s (ArrayStack (push stack pokemon)) b) st)
    | _ => Raise AttributeError
    end
  | CircularQueue _ =>
    match team_of b s with
    | CircularQueue queue =>
      Ok (set_this (set_team_of s (CircularQueue (append queue pokemon)) b) st)
    | _ => Raise AttributeError
    end
  | ArraySortedList _ =>
    do k <- return_key b s (store st pokemon);
    match team_of b s with
    | ArraySortedList l =>
      Ok (set_this (set_team_of s (ArraySortedList (add l (mkListItem pokemon k))) b) st)
    | _ => Raise AttributeError
    end
  | ArrayR _ => Raise TypeError
  end.

(** [Battle._check_alive]; [s] is the side of the attacker, whose team and
    PokeTeam every call passes. *)
Definition _check_alive (s : Side) (attacker defender : ref) (st : State)
  : result State :=
  if negb (is_alive (store st defender)) then
    do p <- level_up (store st attacker);
    let st := set_store (update (store st) attacker p) st in
    send_back (team_of (this st) s) s attacker st
  else Ok st.

Definition lose_1_health (r : ref) (st : State) : State :=
  set_store (update (store st) r
                    (set_health (health (store st r) - 1) (store st r))) st.

(** [Battle._sudden_death] *)
Definition _sudden_death (t1_pokemon t2_pokemon : ref) (st : State)
  : result State :=
  let st := lose_1_health t1_pokemon st in
  let st := lose_1_health t2_pokemon st in
  let t1_team := team_of (this st) Side1 in
  if is_alive (store st t1_pokemon) && is_alive (store st t2_pokemon) then
    do st <- send_back t1_team Side1 t1_pokemon st;
    send_back t1_team Side2 t2_pokemon st
  else if is_alive (store st t1_pokemon) then
    do p <- level_up (store st t1_pokemon);
    let st := set_store (update (store st) t1_pokemon p) st in
    send_back t1_team Side1 t1_pokemon st
  else if is_alive (store st t2_pokemon) then
    do p <- level_up (store st t2_pokemon);
    let st := set_store (update (store st) t2_pokemon p) st in
    send_back t1_team Side2 t2_pokemon st
  else Ok st.

(** The test [t1_pokemon.get_health() > 0 and t2_pokemon.get_health() > 0]
    followed by the call of [_sudden_death]. *)
Definition sudden_death_if_both_alive (t1_pokemon t2_pokemon : ref)
    (st : State) : result State :=
  if Qltb 0 (health (store st t1_pokemon))
     && Qltb 0 (health (store st t2_pokemon))
  then _sudden_death t1_pokemon t2_pokemon st
  else Ok st.

(** [Battle._battle_round] *)
Definition _battle_round (t1_pokemon t2_pokemon : ref) (st : State)
  : result State :=
  match Qcompare (speed (store st t1_pokemon)) (speed (store st t2_pokemon)) with
  | Gt =>
    do st <- strike Side1 t1_pokemon t2_pokemon st;
    do st <- _check_alive Side1 t1_pokemon t2_pokemon st;
    if is_alive (store st t2_pokemon) then
      do st <- strike Side2 t2_pokemon t1_pokemon st;
      do st <- _check_alive Side2 t2_pokemon t1_pokemon st;
      sudden_death_if_both_alive t1_pokemon t2_pokemon st
    else Ok st
  | Lt =>
    do st <- strike Side2 t2_pokemon t1_pokemon st;
    do st <- _check_alive Side2 t2_pokemon t1_pokemon st;
    if is_alive (store st t1_pokemon) then
      do st <- strike Side1 t1_pokemon t2_pokemon st;
      do st <- _check_alive Side1 t1_pokemon t2_pokemon st;
      sudden_death_if_both_alive t1_pokemon t2_pokemon st
    else Ok st
  | Eq =>
    do st <- strike Side1 t1_pokemon t2_pokemon st;
    do st <- _check_alive Side1 t1_pokemon t2_pokemon st;
    do st <- strike Side2 t2_pokemon t1_pokemon st;
    do st <- _check_alive Side2 t2_pokemon t1_pokemon st;
    sudden_death_if_both_alive t1_pokemon t2_pokemon st
  end.

(** One pass through the body of the loop of [_conduct_battle] when both
    teams still hold a Pokemon: the next Pokemon of each team is taken out,
    each is registered with the other trainer, and the round is fought.
    In SET and ROTATE mode the two are used as Pokemon, in OPTIMISE mode
    as [ListItem]s; what a container of another kind hands out has not the
    attribute asked for.  The three modes are all there are, so the final
    [else] of the source is never taken. *)
Definition battle_step (battle_type : BattleMode) (st : State)
  : result State :=
  do (x1, c1) <- _get_next_pokemon (team_of (this st) Side1);
  let st := set_this (set_team_of Side1 c1 (this st)) st in
  do (x2, c2) <- _get_next_pokemon (team_of (this st) Side2);
  let st := set_this (set_team_of Side2 c2 (this st)) st in
  do (t1_pokemon, t2_pokemon) <-
     match battle_type, x1, x2 with
     | (SET | ROTATE), PPokemon r1, PPokemon r2 => Ok (r1, r2)
     | OPTIMISE, PItem i1, PItem i2 => Ok (value i1, value i2)
     | _, _, _ => Raise AttributeError
     end;
  let b := this st in
  let b := set_trainer Side1 (register_pokemon (trainer_1 b) (store st t2_pokemon)) b in
  let b := set_trainer Side2 (register_pokemon (trainer_2 b) (store st t1_pokemon)) b in
  _battle_round t1_pokemon t2_pokemon (set_this b st).

(** [Battle._conduct_battle].  The loop may run for ever; [fuel] bounds the
    number of passes and [None] says that it ran out.  The team the method
    returns is dropped by its only caller and is left out. *)
Fixpoint _conduct_battle (fuel : nat) (battle_type : BattleMode) (st : State)
  : option (result State) :=
  match fuel with
  | O => None
  | S fuel' =>
    let t1_team := team_of (this st) Side1 in
    let t2_team := team_of (this st) Side2 in
    if negb (len t1_team =? 0)%nat || negb (len t2_team =? 0)%nat then
      if (len t1_team =? 0)%nat then
        Some (Ok (set_this (set_winner_trainer (Some Side2) (this st)) st))
      else if (len t2_team =? 0)%nat then
        Some (Ok (set_this (set_winner_trainer (Some Side1) (this st)) st))
      else
        match battle_step battle_type st with
        | Ok st' => _conduct_battle fuel' battle_type st'
        | Raise e => Some (Raise e)
        end
    else Some (Ok st)
  end.

(** [Battle.commence_battle]: every value of [BattleMode] passes the test
    of the mode; the result is [self.winner_trainer]. *)
Definition commence_battle (fuel : nat) (st : State)
  : option (result (option Side * State)) :=
  match _conduct_battle fuel (battle_mode (this st)) st with
  | Some (Ok st') => Some (Ok (winner_trainer (this st'), st'))
  | Some (Raise e) => Some (Raise e)
  | None => None
  end.

End Battle.

(* ------------------------------------------------------------------ *)
(** ** The damage formula in the words of the specification *)

(** Section 4.2, step 2: with [bp] the attacker's battle power and [df]
    the defender's defence, the base is [bp - df] if [df < bp/2], else
    [ceil(bp*5/8 - df/4)] if [df < bp], else [ceil(bp/4)]. *)
Definition spec_base (bp df base : Q) : Prop :=
  (df < bp / 2 -> base == bp - df) /\
  (~ df < bp / 2 -> df < bp ->
     base == inject_Z (Qceiling (bp * 5 / 8 - df / 4))) /\
  (~ df < bp / 2 -> ~ df < bp -> base == inject_Z (Qceiling (bp / 4))).

(** The base is multiplied by the type effectiveness, then by the ratio of
    the two completion ratios, and the product is rounded up. *)
Definition spec_damage (bp df eff ac dc : Q) (d : Z) : Prop :=
  exists base, spec_base bp df base /\ d = Qceiling (base * eff * (ac / dc)).

(* ------------------------------------------------------------------ *)
(** ** Notions the statements use *)

(** The stored item with its key negated, as the OPTIMISE special does. *)
Definition negate (it : ListItem) : ListItem :=
  mkListItem (value it) (key it * -1).

(** Stored keys that ascend strictly from the head, hence pairwise
    distinct. *)
Fixpoint ascending (l : list ListItem) : Prop :=
  match l with
  | [] => True
  | x :: l' => (forall y, In y l' -> key x < key y) /\ ascending l'
  end.

(** [after] is the team of side [s] of [b] with [r], in state [p], sent
    back: pushed on the stack, appended to the queue, or added to the
    sorted list under its key. *)
Definition returned (b : Battle) (s : Side) (r : ref) (p : Pokemon)
    (after : Container) : Prop :=
  match team_of b s, after with
  | ArrayStack stack, ArrayStack stack' => stack' = push stack r
  | CircularQueue queue, CircularQueue queue' => queue' = append queue r
  | ArraySortedList l, ArraySortedList l' =>
    exists k, return_key b s p = Ok k /\ l' = add l (mkListItem r k)
  | _, _ => False
  end.

(** Two containers of the same kind, one of the three a battle uses. *)
Definition same_kind (c c' : Container) : Prop :=
  match c, c' with
  | ArrayStack _, ArrayStack _ => True
  | CircularQueue _, CircularQueue _ => True
  | ArraySortedList _, ArraySortedList _ => True
  | _, _ => False
  end.

(** The teams of a battle as [assemble_team] leaves them for one mode:
    both of the same kind, and a criterion of [CRITERION_LIST]. *)
Definition ready (b : Battle) : Prop :=
  In (criterion b) CRITERION_LIST /\
  same_kind (team_of b Side1) (team_of b Side2).

(** The name of the Pokemon is a stage of its evolution line, unless the
    line is empty. *)
Definition stage_in_line (p : Pokemon) : Prop :=
  evolution_line p = [] \/ In (name p) (evolution_line p).

(** What a round leaves alone in the battle object. *)
Definition same_frame (b b' : Battle) : Prop :=
  winner_trainer b' = winner_trainer b /\
  battle_mode b' = battle_mode b /\
  criterion b' = criterion b /\
  (forall s, special_counter (get_team (trainer b' s))
             = special_counter (get_team (trainer b s))) /\
  (forall s, pokedex (trainer b' s) = pokedex (trainer b s)).

(** How a round leaves the Pokemon [r] of side [s]: alive and back in
    its team, under its present key in a sorted list, or fainted and out
    of the team. *)
Definition settled (st st' : State) (s : Side) (r : ref) : Prop :=
  (is_alive (store st' r) = true /\
   returned (this st) s r (store st' r) (team_of (this st') s)) \/
  (is_alive (store st' r) = false /\
   team_of (this st') s = team_of (this st) s).

(** The shape of the two branches of [_battle_round] for unequal speeds:
    [a], of side [s], attacks first and [d] retaliates only if it is
    still alive. *)
Definition faster_first (EFFECT_TABLE : PokeType -> PokeType -> Q)
    (s : Side) (a d t1 t2 : ref) (st : State) : result State :=
  do st <- strike EFFECT_TABLE s a d st;
  do st <- _check_alive s a d st;
  if is_alive (store st d) then
    do st <- strike EFFECT_TABLE (other_side s) d a st;
    do st <- _check_alive (other_side s) d a st;
    sudden_death_if_both_alive t1 t2 st
  else Ok st.

(** The kind of container each mode assembles. *)
Definition kind_of_mode (battle_mode : BattleMode) (c : Container) : Prop :=
  match battle_mode, c with
  | SET, ArrayStack _ => True
  | ROTATE, CircularQueue _ => True
  | OPTIMISE, ArraySortedList _ => True
  | _, _ => False
  end.

(* ------------------------------------------------------------------ *)
(** ** Statements that the code does not satisfy *)

(** The statement of C3: whatever damage is computed, it is the value of
    the formula. *)
Definition damage_is_formula : Prop :=
  forall (EFFECT_TABLE : PokeType -> PokeType -> Q)
         (attacker defender : Pokemon) (ac dc : Q) (d : Z),
    _calculate_attack_damage EFFECT_TABLE attacker defender ac dc = Ok d ->
    spec_damage (battle_power attacker) (defence defender)
                (EFFECT_TABLE (poketype attacker) (poketype defender))
                ac dc d.

(** The statement of C8 on the dropped stage: whenever a level-up changes
    the name, the name left behind is no longer in the line. *)
Definition passed_stage_dropped : Prop :=
  forall p p', level_up p = Ok p' -> name p' <> name p ->
               ~ In (name p) (evolution_line p').

(** The statement of C9 on the order: two specials give back the list. *)
Definition special_twice_restores : Prop :=
  forall (self s1 s2 : PokeTeam) (l : list ListItem),
    team self = ArraySortedList l ->
    special OPTIMISE self = Ok s1 -> special OPTIMISE s1 = Ok s2 ->
    team s2 = team self.

(** The statement of C7 on fainted Pokemon: one that fainted and is no
    longer in the team is not in the regenerated team either. *)
Definition fainted_stay_out : Prop :=
  forall (POKE_LIST : list string) (POKE_HEALTH : list Q)
         (battle_mode : BattleMode) (criterion : option string)
         (h h' : Store) (self self' : PokeTeam) (r : ref),
    is_alive (h r) = false -> ~ In r (members (team self)) ->
    regenerate_team POKE_LIST POKE_HEALTH battle_mode criterion h self
    = Ok (h', self') ->
    ~ In r (members (team self')).

(* ------------------------------------------------------------------ *)
(** ** Concrete tables, Pokemon and teams for the examples *)

(** A type chart with the entry of the specification's scenario
    (FIRE on WATER is 0.5), one doubling, one immunity, and 1 elsewhere. *)
Definition sample_table (a d : PokeType) : Q :=
  match a, d with
  | FIRE, WATER => 1 # 2
  | WATER, FIRE => 2
  | NORMAL, GHOST => 0
  | _, _ => 1
  end.

(** The two combatants of the end-to-end scenario of the specification. *)
Definition scenario_A : Pokemon :=
  mkPokemon "A" 100 1 FIRE 50 [] "A" 0 10 20.
Definition scenario_B : Pokemon :=
  mkPokemon "B" 100 1 WATER 30 [] "B" 0 40 10.


(** A Pokemon of a middle stage of a three-stage line. *)
Definition ivysaur : Pokemon :=
  mkPokemon "Ivysaur" 15 1 GRASS 10 ["Bulbasaur"; "Ivysaur"; "Venusaur"]%string
            "Ivysaur" 0 10 8.

(** A Pokemon of the first stage of a three-stage line. *)
Definition bulbasaur : Pokemon :=
  mkPokemon "Bulbasaur" 13 1 GRASS 5 ["Bulbasaur"; "Ivysaur"; "Venusaur"]%string
            "Bulbasaur" 0 5 7.

(** Four Pokemon of level 1, chosen into a team that is then ranked by
    level. *)
Definition level_one : Pokemon :=
  mkPokemon "Rattata" 10 1 NORMAL 5 [] "Rattata" 0 5 5.

Definition level_one_store : Store := fun _ => level_one.

Definition four_chosen : PokeTeam :=
  choose_manually [0; 1; 2; 3]%nat PokeTeam_init.

(** A team ranked under three distinct keys. *)
Definition ranked3 : PokeTeam :=
  mkPokeTeam (ArraySortedList [mkListItem 1%nat 1; mkListItem 2%nat 3;
                               mkListItem 0%nat 5])
             (Some [0; 1; 2]%nat) 3 0.


(** A Pokemon without evolution line. *)
Definition fighter (k : string) (h bp df sp : Q) : Pokemon :=
  mkPokemon k h 1 FIRE bp [] k 0 df sp.

(** An attack of base 100: battle power 110 on defence 10. *)
Definition heavy : Pokemon := fighter "Arcanine" 100 110 50 30.
Definition light : Pokemon := fighter "Growlithe" 60 50 10 20.

(** A trainer who has met the first [n] types. *)
Definition collector (n : nat) : Trainer :=
  mkTrainer "Ash" PokeTeam_init (seq 1 n).

(** A trainer whose team holds the Pokemon [r] alone, chosen by hand and
    assembled into [c]; the trainer has registered its FIRE Pokemon. *)
Definition solo_trainer (n : string) (c : Container) (r : ref) : Trainer :=
  mkTrainer n (mkPokeTeam c (Some [r]) 1 0) (bset_add [] 1%nat).

(** Two Pokemon of one species, one for each trainer, each able to bring
    the other down in one attack. *)
Definition duel_store : Store :=
  fun _ => fighter "Ponyta" 10 50 10 20.

(** The two face each other in SET mode, before the round... *)
Definition duel : State :=
  mkState duel_store
    (Battle_init (solo_trainer "Ash" (ArrayStack [0%nat]) 0%nat)
                 (solo_trainer "Gary" (ArrayStack [1%nat]) 1%nat)
                 SET "health").

(** ... and once both are taken out of their stacks. *)
Definition duel_round : State :=
  mkState duel_store
    (Battle_init (solo_trainer "Ash" (ArrayStack []) 0%nat)
                 (solo_trainer "Gary" (ArrayStack []) 1%nat)
                 SET "health").

(** A strong and fast Pokemon against a weak and slow one. *)
Definition mismatch_store : Store :=
  fun r => match r with
           | O => fighter "Arcanine" 100 200 50 30
           | _ => fighter "Growlithe" 10 5 5 10
           end.

(** The catalog of the two species. *)
Definition mismatch_POKE_LIST : list string := ["Arcanine"; "Growlithe"]%string.
Definition mismatch_POKE_HEALTH : list Q := [100; 10].

(** The two in ROTATE mode, as in the battle tower. *)
Definition mismatch : State :=
  mkState mismatch_store
    (Battle_init (solo_trainer "Player" (CircularQueue [0%nat]) 0%nat)
                 (solo_trainer "Enemy" (CircularQueue [1%nat]) 1%nat)
                 ROTATE "health").

(** Two Pokemon at the start of a sudden death, with 5 and 1 health. *)
Definition tired_store : Store :=
  fun r => match r with
           | O => fighter "Ponyta" 5 50 10 20
           | _ => fighter "Vulpix" 1 50 10 20
           end.

Definition tired : State :=
  mkState tired_store
    (Battle_init (solo_trainer "Ash" (ArrayStack []) 0%nat)
                 (solo_trainer "Gary" (ArrayStack []) 1%nat)
                 SET "health").

(** What every round of the duel keeps: the battle object is the one of
    [duel], and the two Pokemon are as at the start but for their level
    and a health of at most 10. *)
Definition duel_inv (st : State) : Prop :=
  this st = this duel /\
  exists h0 h1 l0 l1,
    h0 <= 10 /\ h1 <= 10 /\
    store st 0%nat = mkPokemon "Ponyta" h0 l0 FIRE 50 [] "Ponyta" 0 10 20 /\
    store st 1%nat = mkPokemon "Ponyta" h1 l1 FIRE 50 [] "Ponyta" 0 10 20.

(** The team of side 2 of [mismatch] once its Pokemon has fainted and
    left the queue, and the store at that moment. *)
Definition spent_store : Store :=
  fun r => match r with
           | O => fighter "Arcanine" 100 200 50 30
           | _ => fighter "Growlithe" (- (185)) 5 5 10
           end.

Definition spent_team : PokeTeam :=
  mkPokeTeam (CircularQueue []) (Some [1%nat]) 1 0.

(** Two sturdy Pokemon with 2 health each and unequal speed. *)
Definition sturdy_store : Store :=
  fun r => match r with
           | O => fighter "Onix" 2 5 50 20
           | _ => fighter "Geodude" 2 5 50 10
           end.

Definition sturdy : State :=
  mkState sturdy_store
    (Battle_init (solo_trainer "Ash" (ArrayStack [0%nat]) 0%nat)
                 (solo_trainer "Gary" (ArrayStack [1%nat]) 1%nat)
                 SET "health").

(** The two on a [Battle] object that has decided an earlier battle for
    trainer 1 and is run again. *)
Definition sturdy_used : State :=
  mkState sturdy_store (set_winner_trainer (Some Side1) (this sturdy)).

(* ------------------------------------------------------------------ *)
(** ** Further definitions: repeated level-ups, team access, the tower *)

(** [n] calls of [level_up] in a row. *)
Fixpoint level_ups (n : nat) (self : Pokemon) : result Pokemon :=
  match n with
  | O => Ok self
  | S n' => do self <- level_up self; level_ups n' self
  end.

(** The factor [q] applied [n] times. *)
Fixpoint Qpow (q : Q) (n : nat) : Q :=
  match n with
  | O => 1
  | S n' => q * Qpow q n'
  end.

(** Stored keys that never descend from the head; equal keys may follow
    each other. *)
Fixpoint nondescending (l : list ListItem) : Prop :=
  match l with
  | [] => True
  | x :: l' => (forall y, In y l' -> key x <= key y) /\ nondescending l'
  end.

(** A SET team of four that was given the special once and has lost two
    of its Pokemon in a battle. *)
Definition veteran_team : PokeTeam :=
  mkPokeTeam (ArrayStack [2; 0]%nat) (Some [0; 1; 2; 3]%nat) 4 1.

(** [Trainer.__init__] *)
Definition Trainer_init (name : string) : Trainer :=
  mkTrainer name PokeTeam_init [].

(** What a battle leaves of a Pokemon: its class, its type and its
    experience, and a level that is no lower. *)
Definition grown (p p' : Pokemon) : Prop :=
  klass p' = klass p /\ poketype p' = poketype p /\
  experience p' = experience p /\ (level p <= level p')%Z.

(** What a round between [t1] and [t2] does to the store: the other
    Pokemon are as they were, and the two have at most grown. *)
Definition fought (t1 t2 : ref) (h h' : Store) : Prop :=
  (forall r, r <> t1 -> r <> t2 -> h' r = h r) /\
  (forall r, grown (h r) (h' r)).

(** What a battle leaves of the battle object: the mode, the criterion,
    and of each trainer the name, the team's memory and counters, and
    every type registered so far. *)
Definition kept (b b' : Battle) : Prop :=
  battle_mode b' = battle_mode b /\ criterion b' = criterion b /\
  forall s,
    trainer_name (trainer b' s) = trainer_name (trainer b s) /\
    team_memory (get_team (trainer b' s))
    = team_memory (get_team (trainer b s)) /\
    team_count (get_team (trainer b' s))
    = team_count (get_team (trainer b s)) /\
    special_counter (get_team (trainer b' s))
    = special_counter (get_team (trainer b s)) /\
    incl (pokedex (trainer b s)) (pokedex (trainer b' s)).

(** [ArrayStack.peek]; as [pop], it raises on an empty stack. *)
Definition peek (s : list ref) : result ref :=
  match s with
  | [] => Raise EmptyContainer
  | r :: _ => Ok r
  end.

(** How a call that works on a container ends: it returns a value, it
    raises an exception of a called method, or it reads a local variable
    that was never bound ([UnboundLocalError]). *)
Inductive Outcome (A : Type) : Type :=
| Returns (a : A)
| Raises (e : exn)
| Unbound.
Arguments Returns {A} a.
Arguments Raises {A} e.
Arguments Unbound {A}.

(** [for _ in range(n): temp_stack.push(self.team.pop())], with the two
    stacks as they are when the loop ends or a [pop] raises. *)
Fixpoint pop_onto (n : nat) (src dst : list ref)
  : list ref * list ref * option exn :=
  match n with
  | O => (src, dst, None)
  | S n' =>
    match pop src with
    | Raise e => (src, dst, Some e)
    | Ok (r, src') => pop_onto n' src' (push dst r)
    end
  end.

(** The [ArrayStack] branch of [PokeTeam.__getitem__]: the stack the team
    is left with, and how the call ends.  [range(index)] is empty for a
    negative [index]. *)
Definition getitem_ArrayStack (s : list ref) (index : Z)
  : list ref * Outcome ref :=
  let '(s, temp_stack, raised) := pop_onto (Z.to_nat index) s [] in
  match raised with
  | Some e => (s, Raises e)
  | None =>
    match peek s with
    | Raise e => (s, Raises e)
    | Ok item => (drain_push temp_stack s, Returns item)
    end
  end.

(** The loop of the [CircularQueue] branch of [PokeTeam.__getitem__] over
    the pass numbers [passes]: every pass serves a Pokemon, binds [item]
    to it if the pass number is [index], and appends it again. *)
Fixpoint serve_each (passes : list nat) (index : Z) (q : list ref)
    (item : option ref) : list ref * option ref * option exn :=
  match passes with
  | [] => (q, item, None)
  | i :: passes' =>
    match serve q with
    | Raise e => (q, item, Some e)
    | Ok (serve_item, q') =>
      let item := if (Z.of_nat i =? index)%Z then Some serve_item else item in
      serve_each passes' index (append q' serve_item) item
    end
  end.

(** The [CircularQueue] branch of [PokeTeam.__getitem__]: the queue the
    team is left with, and how the call ends. *)
Definition getitem_CircularQueue (q : list ref) (index : Z)
  : list ref * Outcome ref :=
  let '(q, item, raised) :=
    serve_each (seq 0 (List.length q)) index q None in
  match raised, item with
  | Some e, _ => (q, Raises e)
  | None, Some item => (q, Returns item)
  | None, None => (q, Unbound)
  end.

(** [PokeTeam.__len__] *)
Definition __len__ (self : PokeTeam) : nat :=
  match team self with
  | ArrayR _ => team_count self
  | other => len other
  end.

(* ------------------------------------------------------------------ *)
(** ** tower.py *)

Definition MIN_LIVES : Z := 1.
Definition MAX_LIVES : Z := 3.

(** [BattleTower]: the player with its lives and the queue of the enemies
    with theirs, front first, both [None] until they are set, and the
    count of defeated enemies.  The trainers of a tower are objects of
    their own, as [_generate_enemy_trainer] makes them; a battle changes
    the two trainers it is given, and the tower reads them afterwards. *)
Record BattleTower : Type := mkBattleTower {
  player_trainer_lives : option (Trainer * Z);
  enemy_trainer_lives : option (list (Trainer * Z));
  enemy_defeated_count : Z
}.

(** [BattleTower.__init__] *)
Definition BattleTower_init : BattleTower := mkBattleTower None None 0.

(** [BattleTower.set_my_trainer] on the outcome [lives] of the draw. *)
Definition set_my_trainer (lives : Z) (trainer : Trainer)
    (self : BattleTower) : BattleTower :=
  mkBattleTower (Some (trainer, lives)) (enemy_trainer_lives self)
                (enemy_defeated_count self).

(** [BattleTower.battles_remaining]; [and] does not look at the queue
    when the player has no life left. *)
Definition battles_remaining (self : BattleTower) : result bool :=
  match player_trainer_lives self with
  | None => Raise TypeError
  | Some (_, lives) =>
    if (0 <? lives)%Z then
      match enemy_trainer_lives self with
      | None => Raise TypeError
      | Some queue => Ok (0 <? List.length queue)%nat
      end
    else Ok false
  end.

(** [BattleTower.enemies_defeated] *)
Definition enemies_defeated (self : BattleTower) : Z :=
  enemy_defeated_count self.

(** What [next_battle] returns: the winner, the two trainers and their
    lives after the battle. *)
Record Report : Type := mkReport {
  report_winner : option Side;
  report_player : Trainer;
  report_enemy : Trainer;
  report_player_lives : Z;
  report_enemy_lives : Z
}.

Section Tower.

Variable EFFECT_TABLE : PokeType -> PokeType -> Q.
Variable POKE_LIST : list string.
Variable POKE_HEALTH : list Q.

(** [trainer.get_team().regenerate_team(BattleMode.ROTATE)] on a trainer
    of the tower. *)
Definition regenerate_trainer (h : Store) (t : Trainer)
  : result (Store * Trainer) :=
  do (h, team) <- regenerate_team POKE_LIST POKE_HEALTH ROTATE None h
                                  (get_team t);
  Ok (h, set_poke_team team t).

(** [BattleTower.next_battle].  The player is side 1 of the battle and
    the enemy side 2; [fuel] bounds the passes of the battle's loop. *)
Definition next_battle (fuel : nat) (h : Store) (self : BattleTower)
  : option (result (Store * BattleTower * Report)) :=
  match player_trainer_lives self with
  | None => Some (Raise TypeError)
  | Some (player_trainer, player_lives) =>
    match enemy_trainer_lives self with
    | None => Some (Raise AttributeError)
    | Some [] => Some (Raise EmptyContainer)
    | Some ((enemy_trainer, enemy_lives) :: queue) =>
      let tower_battle :=
        Battle_init player_trainer enemy_trainer ROTATE "health" in
      match commence_battle EFFECT_TABLE fuel (mkState h tower_battle) with
      | None => None
      | Some (Raise e) => Some (Raise e)
      | Some (Ok (winner_trainer, st)) =>
        let h := store st in
        let player_trainer := trainer_1 (this st) in
        let enemy_trainer := trainer_2 (this st) in
        let '(player_lives, enemy_lives, count) :=
          match winner_trainer with
          | None => (player_lives - 1, enemy_lives - 1,
                     enemy_defeated_count self + 1)
          | Some Side1 => (player_lives, enemy_lives - 1,
                           enemy_defeated_count self + 1)
          | Some Side2 => (player_lives - 1, enemy_lives,
                           enemy_defeated_count self)
          end%Z in
        Some (
          do (h, enemy_trainer, queue) <-
             (if (enemy_lives =? 0)%Z then Ok (h, enemy_trainer, queue)
              else
                do (h, enemy_trainer) <- regenerate_trainer h enemy_trainer;
                Ok (h, enemy_trainer,
                    queue ++ [(enemy_trainer, enemy_lives)]));
          do (h, player_trainer) <-
             (if (player_lives =? 0)%Z then Ok (h, player_trainer)
              else regenerate_trainer h player_trainer);
          Ok (h,
              mkBattleTower (Some (player_trainer, player_lives))
                            (Some queue) count,
              mkReport winner_trainer player_trainer enemy_trainer
                       player_lives enemy_lives))
      end
    end
  end.

End Tower.

(** The lives the enemies of a queue have left, all together. *)
Definition lives_left (queue : list (Trainer * Z)) : Z :=
  fold_right (fun e acc => (snd e + acc)%Z) 0%Z queue.

(** A tower in which the player, with two lives, meets one enemy with one
    life: the two trainers of [mismatch]. *)
Definition mismatch_tower : BattleTower :=
  mkBattleTower
    (Some (solo_trainer "Player" (CircularQueue [0%nat]) 0%nat, 2%Z))
    (Some [(solo_trainer "Enemy" (CircularQueue [1%nat]) 1%nat, 1%Z)])
    0.

(** How a pass of the battle loop leaves the team of side [s], whose
    fighter was [r]: the team holds what it held without [r] before the
    pass, and [r] again if and only if [r] is alive. *)
Definition conserved (rest : list ref) (st' : State) (s : Side) (r : ref)
  : Prop :=
  Permutation (members (team_of (this st') s))
              (if is_alive (store st' r) then r :: rest else rest).

(** Two Pokemon of equal speed, one much the stronger, each alone in the
    stack of its trainer. *)
Definition uneven_store : Store :=
  fun r => match r with
           | O => fighter "Ponyta" 100 50 10 20
           | _ => fighter "Vulpix" 10 5 5 20
           end.

Definition uneven : State :=
  mkState uneven_store
    (Battle_init (solo_trainer "Ash" (ArrayStack [0%nat]) 0%nat)
                 (solo_trainer "Gary" (ArrayStack [1%nat]) 1%nat)
                 SET "health").

(** ... and once both are taken out of their stacks. *)
Definition uneven_round : State :=
  mkState uneven_store
    (Battle_init (solo_trainer "Ash" (ArrayStack []) 0%nat)
                 (solo_trainer "Gary" (ArrayStack []) 1%nat)
                 SET "health").

(** A team that is a sorted list has stored keys that never descend;
    nothing is asked of a team of another kind. *)
Definition ranked (c : Container) : Prop :=
  match c with
  | ArraySortedList l => nondescending l
  | _ => True
  end.

(** An OPTIMISE battle by health: the player's two Pokemon of
    [mismatch_store], ranked, against one Pokemon of the enemy. *)
Definition ranked_pair : State :=
  mkState mismatch_store
    (Battle_init
       (mkTrainer "Player"
          (mkPokeTeam (ArraySortedList [mkListItem 2%nat 10;
                                        mkListItem 0%nat 100])
                      (Some [0; 2]%nat) 2 0)
          (bset_add [] 1%nat))
       (solo_trainer "Enemy" (ArraySortedList [mkListItem 1%nat 10]) 1%nat)
       OPTIMISE "health").
(* ================================================================== *)
(** * Properties *)

(** ** Exceptions and numbers *)

Lemma bind_Ok_inv {A B : Type} (m : result A) (k : A -> result B) (b : B) :
  bind m k = Ok b -> exists a, m = Ok a /\ k a = Ok b.
Proof.
  destruct m as [a|e]; simpl; intros H.
  - exists a; split; [reflexivity | exact H].
  - discriminate H.
Qed.

(** Splits a hypothesis [bind m k = Ok b] into its two steps. *)
Ltac inv_bind H :=
  let a := fresh "a" in
  let Ha := fresh "Ha" in
  apply bind_Ok_inv in H; destruct H as [a [Ha H]].

Lemma Qltb_lt (x y : Q) : Qltb x y = true <-> x < y.
Proof.
  unfold Qltb. rewrite Qlt_alt. destruct (x ?= y); split; congruence.
Qed.

Lemma Qltb_ge (x y : Q) : Qltb x y = false <-> y <= x.
Proof.
  split; intros H.
  - apply Qnot_lt_le. intros Hlt. apply Qltb_lt in Hlt. congruence.
  - destruct (Qltb x y) eqn:E; [|reflexivity].
    apply Qltb_lt in E. exfalso. exact (Qlt_not_le _ _ E H).
Qed.

Lemma Qltb_nlt (x y : Q) : Qltb x y = false <-> ~ x < y.
Proof.
  rewrite <- Qltb_lt. destruct (Qltb x y); split; congruence.
Qed.

Lemma ceil_pos (x : Q) : 0 < x -> (1 <= ceil x)%Z.
Proof.
  intros Hx. unfold ceil.
  assert (H : (0 < Qceiling x)%Z).
  { rewrite Zlt_Qlt. eapply Qlt_le_trans; [exact Hx | apply Qle_ceiling]. }
  lia.
Qed.

Lemma inject_Z_ge_1 (z : Z) : (1 <= z)%Z -> 1 <= inject_Z z.
Proof. intros H. change 1 with (inject_Z 1). rewrite <- Zle_Qle. exact H. Qed.

(** Evaluation of a closed term, by the virtual machine. *)
Ltac evaluate t :=
  let v := eval vm_compute in t in
  let E := fresh "E" in
  assert (E : t = v) by (vm_compute; reflexivity);
  rewrite E in *; clear E.

(** ** Rounding to the nearest double *)


Lemma round_half_even_floor (x : Q) :
  (Qfloor x <= round_half_even x <= Qfloor x + 1)%Z.
Proof.
  unfold round_half_even.
  destruct (Qcompare _ _); [destruct (Z.even _)| |]; lia.
Qed.

Lemma round_half_even_near (x : Q) :
  x - (1 # 2) <= inject_Z (round_half_even x) <= x + (1 # 2).
Proof.
  pose proof (Qfloor_le x) as Hl. pose proof (Qlt_floor x) as Hu.
  rewrite inject_Z_plus in Hu. change (inject_Z 1) with 1 in Hu.
  unfold round_half_even.
  destruct (Qcompare (x - inject_Z (Qfloor x)) (1 # 2)) eqn:E.
  - apply Qeq_alt in E. destruct (Z.even _).
    + split; lra.
    + rewrite inject_Z_plus. change (inject_Z 1) with 1. split; lra.
  - apply Qlt_alt in E. split; lra.
  - apply Qgt_alt in E. rewrite inject_Z_plus. change (inject_Z 1) with 1.
    split; lra.
Qed.

Lemma round_half_even_comp (x y : Q) :
  x == y -> round_half_even x = round_half_even y.
Proof.
  intros H. unfold round_half_even.
  rewrite (Qfloor_comp x y H).
  assert (E : x - inject_Z (Qfloor y) == y - inject_Z (Qfloor y))
    by (rewrite H; reflexivity).
  rewrite (Qcompare_comp _ _ E (1 # 2) (1 # 2) (Qeq_refl _)). reflexivity.
Qed.

Lemma pow2_pos (e : Z) : 0 < 2 ^ e.
Proof. apply Qpower_0_lt. reflexivity. Qed.

Lemma pow2_succ (e : Z) : 2 ^ (e + 1) == 2 * 2 ^ e.
Proof.
  rewrite Qpower_plus by discriminate. rewrite Qpower_1_r. ring.
Qed.

Lemma pow2_pred (e : Z) : 2 ^ (e - 1) == 2 ^ e / 2.
Proof.
  pose proof (pow2_succ (e - 1)) as H.
  replace (e - 1 + 1)%Z with e in H by lia. rewrite H. field.
Qed.

Lemma pow2_le (e e' : Z) : (e <= e')%Z -> 2 ^ e <= 2 ^ e'.
Proof. intros H. apply Qpower_le_compat_l; [exact H | discriminate]. Qed.

Lemma pow2_inject (a : Z) : (0 <= a)%Z -> 2 ^ a == inject_Z (2 ^ a).
Proof. intros H. rewrite Zpower_Qpower by exact H. reflexivity. Qed.

Lemma binade_spec (x : Q) :
  ~ x == 0 -> 2 ^ binade x <= Qabs x /\ Qabs x < 2 ^ (binade x + 1).
Proof.
  intros Hx. unfold binade.
  set (n := Z.abs (Qnum x)). set (d := Z.pos (Qden x)).
  set (a := Z.log2 n). set (b := Z.log2 d).
  assert (Hn : (0 < n)%Z).
  { unfold n. destruct x as [[|p|p] q]; cbn; try lia.
    exfalso. apply Hx. reflexivity. }
  assert (Hd : (0 < d)%Z) by (unfold d; lia).
  destruct (Z.log2_spec n Hn) as [Na Nb]. fold a in Na, Nb.
  destruct (Z.log2_spec d Hd) as [Da Db]. fold b in Da, Db.
  assert (Ha : (0 <= a)%Z) by apply Z.log2_nonneg.
  assert (Hb : (0 <= b)%Z) by apply Z.log2_nonneg.
  assert (Eabs : Qabs x == inject_Z n / inject_Z d).
  { unfold n, d. destruct x as [p q]. cbn [Qnum Qden].
    rewrite <- Zabs_Qabs. apply Qmake_Qdiv. }
  rewrite Z.pow_succ_r in Nb, Db by assumption.
  rewrite Zle_Qle in Na, Da. rewrite Zlt_Qlt in Nb, Db.
  rewrite inject_Z_mult in Nb, Db. change (inject_Z 2) with 2 in Nb, Db.
  rewrite <- pow2_inject in Na, Da, Nb, Db by assumption.
  assert (Hdq : 0 < inject_Z d) by (change 0 with (inject_Z 0); rewrite <- Zlt_Qlt; exact Hd).
  pose proof (pow2_pos a) as Pa. pose proof (pow2_pos b) as Pb.
  assert (E0 : 2 ^ (a - b) == 2 ^ a / 2 ^ b).
  { apply Qpower_minus. discriminate. }
  assert (Up : Qabs x < 2 ^ (a - b + 1)).
  { rewrite pow2_succ, E0, Eabs.
    apply Qlt_shift_div_r; [exact Hdq|].
    setoid_replace (2 * (2 ^ a / 2 ^ b) * inject_Z d)
      with (2 * 2 ^ a * (inject_Z d / 2 ^ b)) by (field; lra).
    assert (1 <= inject_Z d / 2 ^ b).
    { apply Qle_shift_div_l; [exact Pb | lra]. }
    nra. }
  assert (Lo : 2 ^ (a - b - 1) <= Qabs x).
  { rewrite pow2_pred, E0, Eabs.
    apply Qle_shift_div_l; [exact Hdq|].
    setoid_replace (2 ^ a / 2 ^ b / 2 * inject_Z d)
      with (2 ^ a * (inject_Z d / (2 * 2 ^ b))) by (field; lra).
    assert (inject_Z d / (2 * 2 ^ b) <= 1).
    { apply Qle_shift_div_r; [lra | lra]. }
    nra. }
  destruct (Qle_bool (2 ^ (a - b)) (Qabs x)) eqn:E.
  - apply Qle_bool_iff in E. split; assumption.
  - split; [exact Lo|].
    replace (a - b - 1 + 1)%Z with (a - b)%Z by lia.
    apply Qnot_le_lt. intros H. apply Qle_bool_iff in H. congruence.
Qed.

Lemma binade_unique (x : Q) (e : Z) :
  2 ^ e <= Qabs x -> Qabs x < 2 ^ (e + 1) -> binade x = e.
Proof.
  intros L U.
  assert (Hx : ~ x == 0).
  { intros H. rewrite H in L. pose proof (pow2_pos e).
    change (Qabs 0) with 0 in L. lra. }
  destruct (binade_spec x Hx) as [L' U'].
  destruct (Z.lt_trichotomy (binade x) e) as [H|[H|H]]; [|exact H|].
  - exfalso. pose proof (pow2_le (binade x + 1) e ltac:(lia)). lra.
  - exfalso. pose proof (pow2_le (e + 1) (binade x) ltac:(lia)). lra.
Qed.

Lemma binade_comp (x y : Q) : x == y -> ~ x == 0 -> binade x = binade y.
Proof.
  intros H Hx. symmetry.
  destruct (binade_spec x Hx) as [L U].
  apply binade_unique; rewrite <- H; assumption.
Qed.

Lemma rnd_comp (x y : Q) : x == y -> rnd x == rnd y.
Proof.
  intros H. unfold rnd.
  destruct (Qeq_bool x 0) eqn:Ex.
  - apply Qeq_bool_iff in Ex.
    assert (Ey : Qeq_bool y 0 = true)
      by (apply Qeq_bool_iff; rewrite <- H; exact Ex).
    rewrite Ey. reflexivity.
  - assert (Hx : ~ x == 0) by (apply Qeq_bool_neq; exact Ex).
    assert (Ey : Qeq_bool y 0 = false).
    { destruct (Qeq_bool y 0) eqn:E; [|reflexivity].
      apply Qeq_bool_iff in E. rewrite <- H in E. contradiction. }
    rewrite Ey. cbv zeta. rewrite <- (binade_comp x y H Hx).
    rewrite (round_half_even_comp (x / 2 ^ (binade x - 52))
                                  (y / 2 ^ (binade x - 52))).
    + reflexivity.
    + apply Qdiv_comp; [exact H | reflexivity].
Qed.


Lemma rnd_near (x : Q) :
  0 < x -> x * (1 - eps) <= rnd x <= x * (1 + eps).
Proof.
  intros Hx. unfold rnd.
  assert (Hne : ~ x == 0) by lra.
  destruct (Qeq_bool x 0) eqn:E; [apply Qeq_bool_iff in E; contradiction|].
  cbv zeta.
  destruct (binade_spec x Hne) as [L _].
  rewrite (Qabs_pos x) in L by lra.
  set (ulp := 2 ^ (binade x - 52)).
  assert (Hulp : 0 < ulp) by apply pow2_pos.
  assert (Eulp : 2 ^ binade x == ulp * 4503599627370496).
  { unfold ulp. rewrite Qpower_minus by discriminate.
    change (2 ^ 52) with (inject_Z 4503599627370496).
    field. }
  pose proof (round_half_even_near (x / ulp)) as [N1 N2].
  set (m := inject_Z (round_half_even (x / ulp))) in *.
  assert (Ex : x == x / ulp * ulp) by (field; lra).
  set (q := x / ulp) in *.
  assert (Hq : 4503599627370496 <= q).
  { unfold q. apply Qle_shift_div_l; [exact Hulp|]. lra. }
  unfold eps.
  split; rewrite Ex.
  - setoid_replace (q * ulp * (1 - (1 # 9007199254740992)))
      with ((q - q * (1 # 9007199254740992)) * ulp) by ring.
    apply Qmult_le_compat_r; [|lra]. lra.
  - setoid_replace (q * ulp * (1 + (1 # 9007199254740992)))
      with ((q + q * (1 # 9007199254740992)) * ulp) by ring.
    apply Qmult_le_compat_r; [|lra]. lra.
Qed.

Lemma rnd_pos (x : Q) : 0 < x -> 0 < rnd x.
Proof.
  intros Hx. destruct (rnd_near x Hx) as [L _].
  apply Qlt_le_trans with (x * (1 - eps)); [|exact L].
  apply Qmult_lt_0_compat; [exact Hx | reflexivity].
Qed.

Lemma rnd_0 (x : Q) : x == 0 -> rnd x = 0.
Proof.
  intros H. unfold rnd. apply Qeq_bool_iff in H. rewrite H. reflexivity.
Qed.

(** Reads a hypothesis on the outcome of a comparison as the order it
    states. *)
Ltac Qcompare_alt H :=
  match type of H with
  | (_ ?= _) = Eq => apply Qeq_alt in H
  | (_ ?= _) = Lt => apply Qlt_alt in H
  | (_ ?= _) = Gt => apply Qgt_alt in H
  end.

Lemma round_half_even_le (x y : Q) :
  x <= y -> (round_half_even x <= round_half_even y)%Z.
Proof.
  intros H. pose proof (Qfloor_resp_le x y H) as Hf.
  destruct (Z.eq_dec (Qfloor x) (Qfloor y)) as [E|E].
  - unfold round_half_even. rewrite E.
    destruct (Qcompare (x - inject_Z (Qfloor y)) (1 # 2)) eqn:Cx;
      destruct (Qcompare (y - inject_Z (Qfloor y)) (1 # 2)) eqn:Cy;
      try (destruct (Z.even (Qfloor y))); try lia; exfalso;
      Qcompare_alt Cx; Qcompare_alt Cy; lra.
  - pose proof (round_half_even_floor x). pose proof (round_half_even_floor y).
    lia.
Qed.

Lemma round_half_even_Z (z : Z) : round_half_even (inject_Z z) = z.
Proof.
  unfold round_half_even. rewrite Qfloor_Z.
  assert (E : Qcompare (inject_Z z - inject_Z z) (1 # 2) = Lt).
  { apply (proj1 (Qlt_alt _ _)). ring_simplify (inject_Z z - inject_Z z).
    reflexivity. }
  rewrite E. reflexivity.
Qed.

(** A rounded positive number stays within its binade, ends included. *)
Lemma rnd_binade (x : Q) :
  0 < x -> 2 ^ binade x <= rnd x <= 2 ^ (binade x + 1).
Proof.
  intros Hx. unfold rnd.
  assert (Hne : ~ x == 0) by lra.
  destruct (Qeq_bool x 0) eqn:E; [apply Qeq_bool_iff in E; contradiction|].
  cbv zeta.
  destruct (binade_spec x Hne) as [L U].
  rewrite (Qabs_pos x) in L, U by lra.
  set (ulp := 2 ^ (binade x - 52)).
  assert (Hulp : 0 < ulp) by apply pow2_pos.
  assert (E1 : 2 ^ binade x == inject_Z 4503599627370496 * ulp).
  { unfold ulp. rewrite Qpower_minus by discriminate.
    change (2 ^ 52) with (inject_Z 4503599627370496). field. }
  assert (E2 : 2 ^ (binade x + 1) == inject_Z 9007199254740992 * ulp).
  { rewrite pow2_succ, E1.
    change (inject_Z 9007199254740992) with (2 * inject_Z 4503599627370496).
    ring. }
  rewrite E1, E2.
  assert (Q1 : inject_Z 4503599627370496 <= x / ulp).
  { apply Qle_shift_div_l; [exact Hulp|]. rewrite <- E1. exact L. }
  assert (Q2 : x / ulp <= inject_Z 9007199254740992).
  { apply Qle_shift_div_r; [exact Hulp|]. rewrite <- E2. lra. }
  apply round_half_even_le in Q1, Q2. rewrite round_half_even_Z in Q1, Q2.
  split; (apply Qmult_le_compat_r; [rewrite <- Zle_Qle; assumption | lra]).
Qed.

Lemma rnd_nonneg (x : Q) : 0 <= x -> 0 <= rnd x.
Proof.
  intros H. destruct (Qeq_dec x 0) as [E|E].
  - rewrite (rnd_0 x E). lra.
  - apply Qlt_le_weak, rnd_pos. lra.
Qed.

Lemma rnd_le (x y : Q) : 0 <= x -> x <= y -> rnd x <= rnd y.
Proof.
  intros Hx Hxy. destruct (Qeq_dec x 0) as [E|E].
  { rewrite (rnd_0 x E). apply rnd_nonneg. lra. }
  assert (Px : 0 < x) by lra. assert (Py : 0 < y) by lra.
  destruct (Z.lt_trichotomy (binade x) (binade y)) as [H|[H|H]].
  - destruct (rnd_binade x Px) as [_ U]. destruct (rnd_binade y Py) as [L _].
    pose proof (pow2_le (binade x + 1) (binade y) ltac:(lia)). lra.
  - unfold rnd.
    destruct (Qeq_bool x 0) eqn:Ex; [apply Qeq_bool_iff in Ex; lra|].
    destruct (Qeq_bool y 0) eqn:Ey; [apply Qeq_bool_iff in Ey; lra|].
    cbv zeta. rewrite H.
    apply Qmult_le_compat_r; [|apply Qlt_le_weak, pow2_pos].
    rewrite <- Zle_Qle. apply round_half_even_le.
    apply Qmult_le_compat_r; [exact Hxy|].
    apply Qlt_le_weak, Qinv_lt_0_compat, pow2_pos.
  - exfalso.
    destruct (binade_spec x ltac:(lra)) as [L _].
    destruct (binade_spec y ltac:(lra)) as [_ U].
    rewrite Qabs_pos in U, L by lra.
    pose proof (pow2_le (binade y + 1) (binade x) ltac:(lia)). lra.
Qed.

(** The doubles nearest to 0.1 and 0.07, and [round(0.125, 2)], a tie that
    goes to the even 0.12. *)
Example rnd_one_tenth :
  Qred (rnd (1 # 10)) = 3602879701896397 # 36028797018963968.
Proof. vm_compute. reflexivity. Qed.

Example rnd_seven_hundredths :
  Qred (rnd (7 # 100)) = 1261007895663739 # 18014398509481984.
Proof. vm_compute. reflexivity. Qed.

Example round2_of_a_tie : round2 (1 # 8) == rnd (12 # 100).
Proof. vm_compute. reflexivity. Qed.

(** One rounding moves a positive number by at most its share [eps]. *)
Lemma rnd_near_0 (x : Q) :
  0 <= x -> x * (1 - eps) <= rnd x <= x * (1 + eps).
Proof.
  intros H. destruct (Qeq_dec x 0) as [E|E].
  - rewrite (rnd_0 x E), E. split; vm_compute; discriminate.
  - apply rnd_near. lra.
Qed.

(** ** The damage of an attack *)

Lemma base_damage_spec (a d : Pokemon) :
  spec_base (battle_power a) (defence d) (base_damage a d).
Proof.
  unfold spec_base, base_damage, ceil.
  destruct (Qltb (defence d) (battle_power a / 2)) eqn:E1.
  - apply Qltb_lt in E1. repeat split; intros; try reflexivity; contradiction.
  - apply Qltb_nlt in E1.
    destruct (Qltb (defence d) (battle_power a)) eqn:E2.
    + apply Qltb_lt in E2.
      repeat split; intros; try reflexivity; contradiction.
    + apply Qltb_nlt in E2.
      repeat split; intros; try reflexivity; contradiction.
Qed.

Lemma spec_base_unique (bp df b1 b2 : Q) :
  spec_base bp df b1 -> spec_base bp df b2 -> b1 == b2.
Proof.
  intros (H1 & H2 & H3) (K1 & K2 & K3).
  destruct (Qlt_le_dec df (bp / 2)) as [L|L].
  - rewrite (H1 L), (K1 L). reflexivity.
  - apply Qle_not_lt in L.
    destruct (Qlt_le_dec df bp) as [M|M].
    + rewrite (H2 L M), (K2 L M). reflexivity.
    + apply Qle_not_lt in M. rewrite (H3 L M), (K3 L M). reflexivity.
Qed.

Lemma inject_Z_minus (a b : Z) :
  inject_Z (a - b) == inject_Z a - inject_Z b.
Proof.
  unfold Z.sub, Qminus. rewrite inject_Z_plus, inject_Z_opp. reflexivity.
Qed.

Lemma Qmult_le_l_nonneg (x y z : Q) :
  x <= y -> 0 <= z -> z * x <= z * y.
Proof.
  intros H Hz. rewrite (Qmult_comm z x), (Qmult_comm z y).
  apply Qmult_le_compat_r; assumption.
Qed.

Lemma Qceiling_near (x y : Q) :
  y - (1 # 2) <= x <= y + (1 # 2) ->
  (Qceiling y - 1 <= Qceiling x <= Qceiling y + 1)%Z.
Proof.
  intros [L U].
  pose proof (Qle_ceiling x) as Cx. pose proof (Qceiling_lt x) as Dx.
  pose proof (Qle_ceiling y) as Cy. pose proof (Qceiling_lt y) as Dy.
  rewrite inject_Z_minus in Dx, Dy. change (inject_Z 1) with 1 in Dx, Dy.
  split.
  - assert (H : inject_Z (Qceiling y - 1 - 1) < inject_Z (Qceiling x)).
    { rewrite !inject_Z_minus. change (inject_Z 1) with 1. lra. }
    rewrite <- Zlt_Qlt in H. lia.
  - assert (H : inject_Z (Qceiling x - 1) < inject_Z (Qceiling y + 1)).
    { rewrite inject_Z_minus, inject_Z_plus. change (inject_Z 1) with 1. lra. }
    rewrite <- Zlt_Qlt in H. lia.
Qed.

(** Three roundings, of the attack, of the quotient and of the product,
    move a product of at most [2^50] by at most a half. *)
Lemma rounded_product_near (a r : Q) :
  0 <= a -> 0 < r -> a * r <= 1125899906842624 ->
  a * r - (1 # 2) <= rnd (rnd a * rnd r) <= a * r + (1 # 2).
Proof.
  intros Ha Hr Hv.
  destruct (rnd_near_0 a Ha) as [A1 A2].
  destruct (rnd_near r Hr) as [R1 R2].
  pose proof (rnd_nonneg a Ha) as A0.
  pose proof (rnd_pos r Hr) as R0.
  assert (P0 : 0 <= rnd a * rnd r) by (apply Qmult_le_0_compat; lra).
  destruct (rnd_near_0 _ P0) as [F1 F2].
  assert (El : 0 <= 1 - eps) by (vm_compute; discriminate).
  assert (Eu : 0 <= 1 + eps) by (vm_compute; discriminate).
  assert (V0 : 0 <= a * r) by (apply Qmult_le_0_compat; lra).
  assert (Pu : rnd a * rnd r <= a * r * ((1 + eps) * (1 + eps))).
  { setoid_replace (a * r * ((1 + eps) * (1 + eps)))
      with (a * (1 + eps) * (r * (1 + eps))) by ring.
    apply Qle_trans with (a * (1 + eps) * rnd r).
    - apply Qmult_le_compat_r; lra.
    - apply Qmult_le_l_nonneg; [exact R2|].
      apply Qmult_le_0_compat; assumption. }
  assert (Pl : a * r * ((1 - eps) * (1 - eps)) <= rnd a * rnd r).
  { setoid_replace (a * r * ((1 - eps) * (1 - eps)))
      with (a * (1 - eps) * (r * (1 - eps))) by ring.
    apply Qle_trans with (a * (1 - eps) * rnd r).
    - apply Qmult_le_l_nonneg; [exact R1|].
      apply Qmult_le_0_compat; assumption.
    - apply Qmult_le_compat_r; lra. }
  assert (Cu : (1 + eps) * (1 + eps) * (1 + eps)
               <= 1 + (1 # 2251799813685248)) by (vm_compute; discriminate).
  assert (Cl : 1 - (1 # 2251799813685248)
               <= (1 - eps) * (1 - eps) * (1 - eps))
    by (vm_compute; discriminate).
  split.
  - apply Qle_trans with (a * r * ((1 - eps) * (1 - eps) * (1 - eps))).
    + apply Qle_trans with (a * r * (1 - (1 # 2251799813685248))); [lra|].
      apply Qmult_le_l_nonneg; assumption.
    + setoid_replace (a * r * ((1 - eps) * (1 - eps) * (1 - eps)))
        with (a * r * ((1 - eps) * (1 - eps)) * (1 - eps)) by ring.
      apply Qle_trans with (rnd a * rnd r * (1 - eps)); [|exact F1].
      apply Qmult_le_compat_r; assumption.
  - apply Qle_trans with (a * r * ((1 + eps) * (1 + eps) * (1 + eps))).
    + setoid_replace (a * r * ((1 + eps) * (1 + eps) * (1 + eps)))
        with (a * r * ((1 + eps) * (1 + eps)) * (1 + eps)) by ring.
      apply Qle_trans with (rnd a * rnd r * (1 + eps)); [exact F2|].
      apply Qmult_le_compat_r; assumption.
    + apply Qle_trans with (a * r * (1 + (1 # 2251799813685248))); [|lra].
      apply Qmult_le_l_nonneg; assumption.
Qed.

(** What the code computes: the base of the specification, and three
    [float] operations on it. *)
Lemma _calculate_attack_damage_value
    (EFFECT_TABLE : PokeType -> PokeType -> Q) (attacker defender : Pokemon)
    (ac dc : Q) :
  ~ dc == 0 ->
  _calculate_attack_damage EFFECT_TABLE attacker defender ac dc
  = Ok (Qceiling
          (rnd (rnd (base_damage attacker defender
                     * EFFECT_TABLE (poketype attacker) (poketype defender))
                * rnd (ac / dc)))).
Proof.
  intros Hdc. unfold _calculate_attack_damage.
  destruct (Qeq_bool dc 0) eqn:E.
  { apply Qeq_bool_iff in E. contradiction. }
  reflexivity.
Qed.

Lemma spec_damage_value (a d : Pokemon) (eff ac dc : Q) (dmg : Z) :
  spec_damage (battle_power a) (defence d) eff ac dc dmg <->
  dmg = Qceiling (base_damage a d * eff * (ac / dc)).
Proof.
  split.
  - intros (b & Hb & ->). apply Qceiling_comp.
    rewrite (spec_base_unique _ _ _ _ Hb (base_damage_spec a d)).
    reflexivity.
  - intros ->. exists (base_damage a d).
    split; [apply base_damage_spec | reflexivity].
Qed.

(** C3, counterexample: an attack of base 100 and effectiveness 1, by the
    Pokemon of a trainer who has met 14 types (ratio 0.93) on the Pokemon
    of one who has met 3 (ratio 0.2).  The quotient of the two [float]s
    is rounded up, to just above 4.65, and the product to just above 465:
    the damage is 466.  The formula gives 465, on the two [float]s as on
    the decimals 0.93 and 0.2. *)
Lemma C3_counterexample_rounded_quotient :
  let ac := get_pokedex_completion (collector 14) in
  let dc := get_pokedex_completion (collector 3) in
  ac == rnd (93 # 100) /\ dc == rnd (20 # 100) /\
  _calculate_attack_damage sample_table heavy light ac dc = Ok 466%Z /\
  spec_damage (battle_power heavy) (defence light)
              (sample_table (poketype heavy) (poketype light)) ac dc 465 /\
  spec_damage (battle_power heavy) (defence light)
              (sample_table (poketype heavy) (poketype light))
              (93 # 100) (20 # 100) 465 /\
  ~ damage_is_formula.
Proof.
  cbv zeta.
  split; [vm_compute; reflexivity|]. split; [vm_compute; reflexivity|].
  assert (Hcode : _calculate_attack_damage sample_table heavy light
                    (get_pokedex_completion (collector 14))
                    (get_pokedex_completion (collector 3)) = Ok 466%Z)
    by (vm_compute; reflexivity).
  split; [exact Hcode|].
  split; [apply spec_damage_value; vm_compute; reflexivity|].
  split; [apply spec_damage_value; vm_compute; reflexivity|].
  intros H. apply H, spec_damage_value in Hcode.
  vm_compute in Hcode. discriminate Hcode.
Qed.

(** An attack of base 13 by the Pokemon of a trainer who has met one type
    (0.07) on the Pokemon of one who has met two (0.13): the damage is 8,
    and 7 is the value of the formula on the two decimals. *)
Example damage_of_13_at_one_and_two_types :
  let a := fighter "Ponyta" 10 20 10 20 in
  let d := fighter "Vulpix" 10 5 7 20 in
  base_damage a d == 13 /\
  _calculate_attack_damage sample_table a d
    (get_pokedex_completion (collector 1))
    (get_pokedex_completion (collector 2)) = Ok 8%Z /\
  spec_damage (battle_power a) (defence d)
              (sample_table (poketype a) (poketype d))
              (7 # 100) (13 # 100) 7.
Proof.
  cbv zeta. split; [vm_compute; reflexivity|].
  split; [vm_compute; reflexivity|].
  apply spec_damage_value. vm_compute. reflexivity.
Qed.

(** C3, amended: the damage is the ceiling of a product of [float]s: the
    base of the specification times the effectiveness, rounded, times the
    rounded quotient of the two completion ratios, rounded.  It is the
    value of the formula when the two ratios are equal and the base times
    the effectiveness is a [float]; and for a product that is not negative
    and at most [2^50], it is within 1 of the value of the formula. *)
Theorem C3_attack_damage_amended
    (EFFECT_TABLE : PokeType -> PokeType -> Q) (attacker defender : Pokemon)
    (ac dc : Q) :
  ~ dc == 0 ->
  let base := base_damage attacker defender in
  let eff := EFFECT_TABLE (poketype attacker) (poketype defender) in
  exists d,
    _calculate_attack_damage EFFECT_TABLE attacker defender ac dc = Ok d /\
    spec_base (battle_power attacker) (defence defender) base /\
    d = Qceiling (rnd (rnd (base * eff) * rnd (ac / dc))) /\
    (ac == dc -> rnd (base * eff) == base * eff ->
     spec_damage (battle_power attacker) (defence defender) eff ac dc d) /\
    (0 <= base * eff -> 0 < ac / dc ->
     base * eff * (ac / dc) <= 1125899906842624 ->
     forall d',
       spec_damage (battle_power attacker) (defence defender) eff ac dc d' ->
       (d' - 1 <= d <= d' + 1)%Z).
Proof.
  intros Hdc base eff.
  eexists. split; [apply _calculate_attack_damage_value; exact Hdc|].
  split; [apply base_damage_spec|]. split; [reflexivity|].
  fold base. fold eff. split.
  - intros Hsame Hexact. apply spec_damage_value. fold base.
    apply Qceiling_comp.
    assert (E1 : ac / dc == 1) by (rewrite Hsame; field; exact Hdc).
    assert (R1 : rnd (ac / dc) == 1)
      by (rewrite (rnd_comp _ _ E1); vm_compute; reflexivity).
    assert (E2 : rnd (base * eff) * rnd (ac / dc) == base * eff)
      by (rewrite R1, Hexact; ring).
    rewrite (rnd_comp _ _ E2), Hexact, E1. ring.
  - intros H0 Hr Hv d' Hd'. apply spec_damage_value in Hd'. fold base in Hd'.
    subst d'. apply Qceiling_near.
    apply rounded_product_near; assumption.
Qed.

Lemma C3_attack_damage_amended_witness :
  let ac := get_pokedex_completion (collector 1) in
  let dc := get_pokedex_completion (collector 2) in
  ~ dc == 0 /\
  exists d,
    _calculate_attack_damage sample_table scenario_A scenario_B ac dc
    = Ok d /\
    (forall d',
       spec_damage (battle_power scenario_A) (defence scenario_B)
                   (sample_table (poketype scenario_A) (poketype scenario_B))
                   ac dc d' ->
       (d' - 1 <= d <= d' + 1)%Z) /\
    d = 6%Z.
Proof.
  cbv zeta.
  assert (H0 : ~ get_pokedex_completion (collector 2) == 0)
    by (intros H; vm_compute in H; discriminate H).
  split; [exact H0|].
  destruct (C3_attack_damage_amended sample_table scenario_A scenario_B
              (get_pokedex_completion (collector 1))
              (get_pokedex_completion (collector 2)) H0)
    as (d & Hd & _ & _ & _ & Hnear).
  exists d. split; [exact Hd|]. split.
  - apply Hnear; vm_compute; [discriminate | reflexivity | discriminate].
  - vm_compute in Hd. injection Hd as <-. reflexivity.
Defined.

(** ** Defending *)

Lemma health_defend (p : Pokemon) (damage : Q) :
  health (defend p damage) = health p - effective_damage p damage.
Proof. reflexivity. Qed.

(** C4: [defend] takes exactly half the damage off the health when the
    damage is below the defence and exactly the damage otherwise; nothing
    stops the health at 0, so a damage that exceeds the health leaves it
    negative; [is_alive] holds exactly when the health is above 0. *)
Theorem C4_defend_and_is_alive (p : Pokemon) (damage : Q) :
  (damage < defence p -> health p - health (defend p damage) == damage / 2) /\
  (~ damage < defence p -> health p - health (defend p damage) == damage) /\
  (~ damage < defence p -> health p < damage -> health (defend p damage) < 0) /\
  (damage < defence p -> health p < damage / 2 ->
     health (defend p damage) < 0) /\
  (is_alive p = true <-> 0 < health p) /\
  (is_alive p = false <-> health p <= 0).
Proof.
  rewrite health_defend. unfold effective_damage, is_alive.
  repeat split.
  - intros H. apply Qltb_lt in H. rewrite H. ring.
  - intros H. apply Qltb_nlt in H. rewrite H. ring.
  - intros H L. apply Qltb_nlt in H. rewrite H. lra.
  - intros H L. apply Qltb_lt in H. rewrite H. lra.
  - apply Qltb_lt.
  - apply Qltb_lt.
  - apply Qltb_ge.
  - apply Qltb_ge.
Qed.

Example defend_below_zero :
  health (defend scenario_B 150) == - (50) /\
  is_alive (defend scenario_B 150) = false.
Proof. split; reflexivity. Qed.

(** ** The damage of an attack is positive *)

(** Linear arithmetic once the divisions by 2, 4 and 8 are read as
    multiplications. *)
Ltac qlra :=
  unfold Qdiv in *;
  change (/ 2) with (1 # 2) in *;
  change (/ 4) with (1 # 4) in *;
  change (/ 8) with (1 # 8) in *;
  lra.

Lemma base_damage_pos (a d : Pokemon) :
  0 < battle_power a -> 0 < base_damage a d.
Proof.
  intros Hbp. unfold base_damage.
  destruct (Qltb (defence d) (battle_power a / 2)) eqn:E1.
  - apply Qltb_lt in E1. qlra.
  - apply Qltb_ge in E1.
    destruct (Qltb (defence d) (battle_power a)) eqn:E2.
    + apply Qltb_lt in E2.
      apply Qlt_le_trans with 1; [reflexivity|].
      apply inject_Z_ge_1, ceil_pos. qlra.
    + apply Qlt_le_trans with 1; [reflexivity|].
      apply inject_Z_ge_1, ceil_pos. qlra.
Qed.

Lemma base_damage_ge_1 (a d : Pokemon) (bp df : Z) :
  battle_power a == inject_Z bp -> defence d == inject_Z df ->
  0 < battle_power a -> 1 <= base_damage a d.
Proof.
  intros Ha Hd Hbp. unfold base_damage.
  destruct (Qltb (defence d) (battle_power a / 2)) eqn:E1.
  - apply Qltb_lt in E1.
    assert (L : (df < bp)%Z).
    { rewrite Zlt_Qlt, <- Ha, <- Hd. qlra. }
    rewrite Ha, Hd. unfold Qminus. rewrite <- inject_Z_opp, <- inject_Z_plus.
    apply inject_Z_ge_1. lia.
  - apply Qltb_ge in E1.
    destruct (Qltb (defence d) (battle_power a)) eqn:E2.
    + apply Qltb_lt in E2. apply inject_Z_ge_1, ceil_pos. qlra.
    + apply inject_Z_ge_1, ceil_pos. qlra.
Qed.

Lemma defend_decreases (p : Pokemon) (damage : Q) :
  0 < damage -> health (defend p damage) < health p.
Proof.
  intros H. rewrite health_defend. unfold effective_damage.
  destruct (Qltb damage (defence p)); qlra.
Qed.

Lemma defend_unchanged_inv (p : Pokemon) (damage : Q) :
  health (defend p damage) == health p -> damage == 0.
Proof.
  rewrite health_defend. unfold effective_damage.
  destruct (Qltb damage (defence p)); intros H; qlra.
Qed.

(** C10: with positive stats the base damage of an attack is positive, and
    at least 1 when battle power and defence are integers; when moreover
    the type effectiveness (a table value, never negative) is not 0 and
    both completion ratios are positive, the damage is at least 1 and
    [defend] strictly lowers the defender's health; so the health can only
    stay as it was when the type effectiveness is 0. *)
Theorem C10_attack_damage_positive
    (EFFECT_TABLE : PokeType -> PokeType -> Q) (attacker defender : Pokemon)
    (ac dc : Q) :
  0 < battle_power attacker -> 0 < defence defender ->
  0 <= EFFECT_TABLE (poketype attacker) (poketype defender) ->
  0 < ac -> 0 < dc ->
  0 < base_damage attacker defender /\
  (forall bp df : Z,
      battle_power attacker == inject_Z bp ->
      defence defender == inject_Z df ->
      1 <= base_damage attacker defender) /\
  exists d,
    _calculate_attack_damage EFFECT_TABLE attacker defender ac dc = Ok d /\
    (~ EFFECT_TABLE (poketype attacker) (poketype defender) == 0 ->
       (1 <= d)%Z /\
       health (defend defender (inject_Z d)) < health defender) /\
    (health (defend defender (inject_Z d)) == health defender ->
       EFFECT_TABLE (poketype attacker) (poketype defender) == 0).
Proof.
  intros Hbp Hdf Heff Hac Hdc.
  pose proof (base_damage_pos attacker defender Hbp) as Hbase.
  split; [exact Hbase|]. split.
  { intros bp df Ha Hd. exact (base_damage_ge_1 _ _ bp df Ha Hd Hbp). }
  unfold _calculate_attack_damage.
  destruct (Qeq_bool dc 0) eqn:E.
  { apply Qeq_bool_iff in E. lra. }
  eexists. split; [reflexivity|].
  set (eff := EFFECT_TABLE (poketype attacker) (poketype defender)) in *.
  assert (Hratio : 0 < ac / dc).
  { apply Qlt_shift_div_l; [exact Hdc | lra]. }
  assert (Hpos : ~ eff == 0 ->
                 (1 <= ceil (rnd (attack EFFECT_TABLE attacker defender
                                  * rnd (ac / dc))))%Z).
  { intros Hne. apply ceil_pos.
    unfold attack, get_effectiveness. fold eff.
    assert (0 < eff) by lra.
    apply rnd_pos. apply Qmult_lt_0_compat; apply rnd_pos;
      [apply Qmult_lt_0_compat|]; assumption. }
  split.
  - intros Hne. split; [exact (Hpos Hne)|].
    apply defend_decreases.
    apply Qlt_le_trans with 1; [reflexivity|].
    apply inject_Z_ge_1. exact (Hpos Hne).
  - intros Hsame.
    destruct (Qeq_dec eff 0) as [Hz|Hne]; [exact Hz|].
    exfalso. apply defend_unchanged_inv in Hsame.
    pose proof (inject_Z_ge_1 _ (Hpos Hne)) as H1. lra.
Qed.

Lemma C10_attack_damage_positive_witness :
  exists d,
    _calculate_attack_damage sample_table scenario_A scenario_B
                             (7 # 100) (13 # 100) = Ok d /\
    (1 <= d)%Z /\
    health (defend scenario_B (inject_Z d)) < health scenario_B.
Proof.
  destruct (C10_attack_damage_positive sample_table scenario_A scenario_B
              (7 # 100) (13 # 100))
    as (_ & _ & d & Hd & Hpos & _); try reflexivity.
  - vm_compute. discriminate.
  - exists d. split; [exact Hd|]. apply Hpos.
    intros H. vm_compute in H. discriminate H.
Defined.

(** ** Levelling up and evolving *)

Lemma index_nth_error (x : string) (l : list string) (i : nat) :
  index x l = Ok i -> nth_error l i = Some x.
Proof.
  revert i. induction l as [|y l IH]; simpl; intros i H; [discriminate|].
  destruct (String.eqb y x) eqn:E.
  - injection H as <-. apply String.eqb_eq in E. subst. reflexivity.
  - inv_bind H. injection H as <-. simpl. apply IH. exact Ha.
Qed.

Lemma index_In (x : string) (l : list string) :
  In x l -> exists i, index x l = Ok i.
Proof.
  induction l as [|y l IH]; simpl; intros H; [contradiction|].
  destruct (String.eqb y x) eqn:E; [exists O; reflexivity|].
  destruct H as [H|H].
  - subst. rewrite String.eqb_refl in E. discriminate.
  - destruct (IH H) as [i Hi]. exists (S i). rewrite Hi. reflexivity.
Qed.

Lemma last_nth_error {A : Type} (l : list A) (d : A) :
  l <> [] -> nth_error l (List.length l - 1) = Some (last l d).
Proof.
  induction l as [|a l IH]; intros H; [congruence|].
  destruct l as [|b l]; [reflexivity|].
  change (last (a :: b :: l) d) with (last (b :: l) d).
  rewrite <- IH by discriminate. simpl. rewrite Nat.sub_0_r. reflexivity.
Qed.

(** In a line without repetition, the position of a stage is the last one
    exactly when the stage is the last element. *)
Lemma index_is_last (x : string) (l : list string) (i : nat) :
  NoDup l -> index x l = Ok i ->
  (i = List.length l - 1)%nat <-> x = last l x.
Proof.
  intros Hnd Hi. apply index_nth_error in Hi.
  assert (Hne : l <> []) by (intros ->; destruct i; discriminate).
  pose proof (last_nth_error l x Hne) as Hlast.
  split.
  - intros ->. congruence.
  - intros Hx. rewrite <- Hx in Hlast.
    assert (Hlt : (i < List.length l)%nat)
      by (apply nth_error_Some; congruence).
    eapply (proj1 (NoDup_nth_error l) Hnd); [exact Hlt | congruence].
Qed.

Lemma level_up_no_evolution (p : Pokemon) :
  evolution_line p = [] -> level_up p = Ok (set_level (level p + 1) p).
Proof. intros H. unfold level_up. simpl. rewrite H. reflexivity. Qed.

(** The shape of [level_up] when the name occurs in the line. *)
Lemma level_up_at (p : Pokemon) (i : nat) :
  index (name p) (evolution_line p) = Ok i ->
  level_up p =
  if (i =? List.length (evolution_line p) - 1)%nat
  then Ok (set_level (level p + 1) p)
  else match nth_error (evolution_line p) (S i) with
       | Some n =>
         Ok (apply_multiplier (3 # 2)
               (set_evolution_line (tl (evolution_line p))
                  (set_name n (set_level (level p + 1) p))))
       | None => Raise IndexError
       end.
Proof.
  intros Hi. unfold level_up. simpl.
  destruct (evolution_line p) as [|s l] eqn:El; [discriminate|].
  change (0 <? List.length (s :: l))%nat with true. cbv iota.
  rewrite Hi. cbn [bind].
  destruct (i =? List.length (s :: l) - 1)%nat; [reflexivity|].
  cbn [negb]. unfold _evolve. cbn [evolution_line name set_level].
  rewrite El, Hi. cbn [bind]. unfold getitem.
  change (nth_error (s :: l) (S i)) with (nth_error l i).
  destruct (nth_error l i) as [n|]; [|reflexivity].
  cbn [bind evolution_line set_name set_level]. rewrite El. reflexivity.
Qed.

(** C8, counterexample: a Pokemon of the middle stage of its line evolves
    to the last stage, and [pop(0)] drops the first stage; the stage just
    passed stays in the line. *)
Lemma C8_counterexample_middle_stage :
  (exists p', level_up ivysaur = Ok p' /\
              name p' = "Venusaur"%string /\
              evolution_line p' = ["Ivysaur"; "Venusaur"]%string /\
              In (name ivysaur) (evolution_line p')) /\
  ~ passed_stage_dropped.
Proof.
  assert (H : level_up ivysaur =
              Ok (mkPokemon "Ivysaur" (15 * (3 # 2)) 2 GRASS (10 * (3 # 2))
                            ["Ivysaur"; "Venusaur"]%string "Venusaur" 0
                            (10 * (3 # 2)) (8 * (3 # 2))))
    by reflexivity.
  split.
  - eexists. split; [exact H|]. simpl. auto.
  - intros C. apply (C _ _ H); simpl; [discriminate | auto].
Qed.

(** C8, amended: [level_up] adds exactly 1 to the level; it evolves the
    Pokemon exactly when the line is not empty and the name is not its
    last element; an evolution moves the name to the next stage of the
    line, drops the first element of the line (which is the stage just
    passed when the name was the first element) and multiplies battle
    power, health, speed and defence by 1.5.  The line has no repeated
    stage and, unless empty, holds the name. *)
Theorem C8_level_up_amended (p : Pokemon) :
  NoDup (evolution_line p) ->
  evolution_line p = [] \/ In (name p) (evolution_line p) ->
  exists p',
    level_up p = Ok p' /\
    level p' = (level p + 1)%Z /\
    (evolution_line p = [] \/ name p = last (evolution_line p) (name p) ->
       p' = set_level (level p + 1) p) /\
    (evolution_line p <> [] /\ name p <> last (evolution_line p) (name p) ->
       exists i,
         nth_error (evolution_line p) i = Some (name p) /\
         nth_error (evolution_line p) (S i) = Some (name p') /\
         evolution_line p' = tl (evolution_line p) /\
         (i = O -> ~ In (name p) (evolution_line p')) /\
         battle_power p' = battle_power p * (3 # 2) /\
         health p' = health p * (3 # 2) /\
         speed p' = speed p * (3 # 2) /\
         defence p' = defence p * (3 # 2) /\
         klass p' = klass p /\ poketype p' = poketype p /\
         experience p' = experience p).
Proof.
  intros Hnd [Hnil|Hin].
  - exists (set_level (level p + 1) p).
    split; [apply level_up_no_evolution; exact Hnil|].
    split; [reflexivity|]. split; [reflexivity|].
    intros [Hne _]. contradiction.
  - destruct (index_In _ _ Hin) as [i Hi].
    pose proof (index_is_last _ _ _ Hnd Hi) as Hlast.
    pose proof (index_nth_error _ _ _ Hi) as Hnth.
    rewrite (level_up_at p i Hi).
    destruct (i =? List.length (evolution_line p) - 1)%nat eqn:E.
    + apply Nat.eqb_eq in E.
      exists (set_level (level p + 1) p).
      split; [reflexivity|]. split; [reflexivity|]. split; [reflexivity|].
      intros [_ Hne]. apply Hlast in E. contradiction.
    + apply Nat.eqb_neq in E.
      assert (Hlt : (S i < List.length (evolution_line p))%nat).
      { assert (i < List.length (evolution_line p))%nat
          by (apply nth_error_Some; congruence).
        lia. }
      destruct (nth_error (evolution_line p) (S i)) as [n|] eqn:En;
        [|apply nth_error_None in En; lia].
      eexists. split; [reflexivity|]. split; [reflexivity|]. split.
      * intros [Hnil|Hl]; [rewrite Hnil in Hin; contradiction|].
        apply Hlast in Hl. contradiction.
      * intros _. exists i. cbn.
        split; [exact Hnth|]. split; [exact En|]. split; [reflexivity|].
        split; [|repeat split; reflexivity].
        intros ->. destruct (evolution_line p) as [|s l]; [discriminate|].
        injection Hnth as ->. simpl. inversion Hnd; assumption.
Qed.

Lemma C8_level_up_amended_witness :
  exists p',
    level_up bulbasaur = Ok p' /\
    level p' = 2%Z /\ name p' = "Ivysaur"%string /\
    evolution_line p' = ["Ivysaur"; "Venusaur"]%string /\
    battle_power p' = 5 * (3 # 2).
Proof.
  assert (Hnd : NoDup (evolution_line bulbasaur)).
  { repeat constructor; simpl; intuition discriminate. }
  assert (Hin : evolution_line bulbasaur = []
                \/ In (name bulbasaur) (evolution_line bulbasaur))
    by (right; simpl; auto).
  destruct (C8_level_up_amended bulbasaur Hnd Hin)
    as (p' & Hup & Hlevel & _ & Hevolve).
  exists p'. split; [exact Hup|].
  destruct Hevolve as (i & _ & _ & _ & _ & Hbp & _).
  { split; simpl; discriminate. }
  vm_compute in Hup. injection Hup as <-.
  repeat split; reflexivity.
Defined.

(** Repeated evolutions compound: two level-ups from the first stage of a
    line of at least three stages multiply the stats by 1.5 twice. *)
Lemma level_up_twice_compounds (p : Pokemon) (n1 n2 : string)
      (rest : list string) :
  evolution_line p = name p :: n1 :: n2 :: rest ->
  NoDup (evolution_line p) ->
  exists p1 p2,
    level_up p = Ok p1 /\ level_up p1 = Ok p2 /\
    name p2 = n2 /\ evolution_line p2 = n2 :: rest /\
    level p2 = (level p + 1 + 1)%Z /\
    battle_power p2 = battle_power p * (3 # 2) * (3 # 2) /\
    health p2 = health p * (3 # 2) * (3 # 2) /\
    speed p2 = speed p * (3 # 2) * (3 # 2) /\
    defence p2 = defence p * (3 # 2) * (3 # 2).
Proof.
  intros El Hnd.
  assert (H1 : index (name p) (evolution_line p) = Ok O).
  { rewrite El. simpl. rewrite String.eqb_refl. reflexivity. }
  pose proof (level_up_at p O H1) as Hup1.
  rewrite El in Hup1. cbn in Hup1.
  eexists. eexists. split; [exact Hup1|].
  match goal with |- level_up ?q = _ /\ _ => set (p1 := q) end.
  assert (H2 : index (name p1) (evolution_line p1) = Ok O).
  { subst p1. cbn. rewrite String.eqb_refl. reflexivity. }
  pose proof (level_up_at p1 O H2) as Hup2.
  subst p1. cbn in Hup2. cbn.
  split; [exact Hup2|]. cbn. repeat split; reflexivity.
Qed.

(** ** The sorted list and the OPTIMISE special *)

Lemma Qmult_m1_m1 (k : Q) : k * -1 * -1 = k.
Proof.
  destruct k as [n d]. unfold Qmult. simpl.
  rewrite !Pos.mul_1_r. f_equal. lia.
Qed.

Lemma negate_involutive (it : ListItem) : negate (negate it) = it.
Proof.
  destruct it as [v k]. unfold negate. simpl. rewrite Qmult_m1_m1. reflexivity.
Qed.

Lemma map_negate_involutive (l : list ListItem) :
  map negate (map negate l) = l.
Proof.
  induction l as [|it l IH]; simpl; [reflexivity|].
  rewrite negate_involutive, IH. reflexivity.
Qed.

Lemma negate_lt (x y : ListItem) :
  key x < key y -> key (negate y) < key (negate x).
Proof. unfold negate. simpl. lra. Qed.

(** A key below every stored key is searched down to position 0. *)
Lemma _index_to_add_loop_front (l : list ListItem) (k : Q) :
  (forall it, In it l -> k < key it) ->
  forall fuel high, _index_to_add_loop fuel l k 0%Z high = 0%Z.
Proof.
  intros Hall. induction fuel as [|fuel IH]; intros high; simpl;
    [reflexivity|].
  destruct (0 <=? high)%Z; [|reflexivity].
  destruct (nth_error l (Z.to_nat (high / 2))) as [it|] eqn:E;
    [|reflexivity].
  apply nth_error_In in E. apply Hall in E.
  rewrite Qgt_alt in E. rewrite E. apply IH.
Qed.

Lemma add_front (l : list ListItem) (x : ListItem) :
  (forall it, In it l -> key x < key it) -> add l x = x :: l.
Proof.
  intros H. unfold add, _index_to_add.
  rewrite (_index_to_add_loop_front l (key x) H). reflexivity.
Qed.

Example ranked_take_next_order :
  map key (fold_left add [mkListItem 0%nat 5; mkListItem 1%nat 1;
                          mkListItem 2%nat 3] [])
  = [1; 3; 5].
Proof. reflexivity. Qed.

Lemma add_Permutation (l : list ListItem) (x : ListItem) :
  Permutation (add l x) (x :: l).
Proof.
  unfold add. symmetry.
  rewrite <- (firstn_skipn (_index_to_add l x) l) at 1.
  apply Permutation_middle.
Qed.

(** The loop of the special never fails on a list with enough items, and
    what it builds holds the negated items of the list. *)
Lemma special_optimise_loop_Permutation (l temp : list ListItem) :
  exists r, special_optimise_loop (List.length l) l temp = Ok r /\
            Permutation r (map negate l ++ temp).
Proof.
  revert temp. induction l as [|x l IH]; intros temp; simpl.
  - exists temp. split; [reflexivity | apply Permutation_refl].
  - destruct (IH (add temp (negate x))) as (r & Hr & Hp).
    exists r. split; [exact Hr|].
    rewrite Hp. rewrite add_Permutation. symmetry. apply Permutation_middle.
Qed.

Lemma special_optimise_loop_ascending (l temp : list ListItem) :
  ascending l ->
  (forall x y, In x l -> In y temp -> key (negate x) < key y) ->
  special_optimise_loop (List.length l) l temp
  = Ok (rev (map negate l) ++ temp).
Proof.
  revert temp. induction l as [|x l IH]; intros temp Hasc Hcross; simpl;
    [reflexivity|].
  destruct Hasc as [Hx Hasc].
  rewrite add_front by (intros it Hit; apply Hcross; simpl; auto).
  change (mkListItem (value x) (key x * -1)) with (negate x).
  rewrite IH.
  - rewrite <- app_assoc. reflexivity.
  - exact Hasc.
  - intros a b Ha [<-|Hb].
    + apply negate_lt, Hx, Ha.
    + apply Hcross; simpl; auto.
Qed.

Lemma ascending_app (l1 l2 : list ListItem) :
  ascending l1 -> ascending l2 ->
  (forall x y, In x l1 -> In y l2 -> key x < key y) ->
  ascending (l1 ++ l2).
Proof.
  induction l1 as [|a l1 IH]; simpl; intros H1 H2 Hc; [exact H2|].
  destruct H1 as [Ha H1]. split.
  - intros y Hy. apply in_app_or in Hy. destruct Hy as [Hy|Hy].
    + apply Ha, Hy.
    + apply Hc; auto.
  - apply IH; auto.
Qed.

Lemma ascending_rev_negate (l : list ListItem) :
  ascending l -> ascending (rev (map negate l)).
Proof.
  induction l as [|a l IH]; simpl; intros H; [exact I|].
  destruct H as [Ha H]. apply ascending_app.
  - apply IH, H.
  - simpl. split; [intros y []|exact I].
  - intros x y Hx [<-|[]].
    apply in_rev, in_map_iff in Hx. destruct Hx as (z & <- & Hz).
    apply negate_lt, Ha, Hz.
Qed.

Lemma special_OPTIMISE_sorted_list (self : PokeTeam) (l : list ListItem) :
  team self = ArraySortedList l ->
  exists r,
    special OPTIMISE self
    = Ok (incr_special_counter (set_team (ArraySortedList r) self)) /\
    Permutation r (map negate l) /\
    (ascending l -> r = rev (map negate l)).
Proof.
  intros Ht. unfold special. rewrite Ht.
  destruct (special_optimise_loop_Permutation l []) as (r & Hr & Hp).
  exists r. rewrite Hr. split; [reflexivity|].
  rewrite app_nil_r in Hp. split; [exact Hp|].
  intros Hasc.
  rewrite special_optimise_loop_ascending in Hr;
    [|exact Hasc | intros x y _ []].
  rewrite app_nil_r in Hr. injection Hr as <-. reflexivity.
Qed.

(** C9, counterexample: four Pokemon of level 1 are ranked by level; the
    search puts an item with a key already present next to the probed
    middle, so two specials leave the four in another order. *)
Lemma C9_counterexample_equal_keys :
  (exists self s1 s2,
     assemble_team level_one_store OPTIMISE (Some "level"%string) four_chosen
     = Ok self /\
     special OPTIMISE self = Ok s1 /\ special OPTIMISE s1 = Ok s2 /\
     members (team self) = [2; 3; 1; 0]%nat /\
     members (team s1) = [1; 0; 3; 2]%nat /\
     members (team s2) = [3; 2; 0; 1]%nat /\
     map key (match team s2 with ArraySortedList l => l | _ => [] end)
     = map key (match team self with ArraySortedList l => l | _ => [] end)) /\
  ~ special_twice_restores.
Proof.
  split.
  - do 3 eexists. repeat split; reflexivity.
  - intros C.
    set (self := mkPokeTeam
                   (ArraySortedList [mkListItem 2%nat 1; mkListItem 3%nat 1;
                                     mkListItem 1%nat 1; mkListItem 0%nat 1])
                   (Some [0; 1; 2; 3]%nat) 4 0).
    assert (H : exists s1 s2, special OPTIMISE self = Ok s1 /\
                              special OPTIMISE s1 = Ok s2 /\
                              members (team s2) = [3; 2; 0; 1]%nat).
    { do 2 eexists. repeat split; reflexivity. }
    destruct H as (s1 & s2 & H1 & H2 & Hm).
    pose proof (C self s1 s2 _ eq_refl H1 H2) as Heq.
    rewrite Heq in Hm. discriminate Hm.
Qed.

(** C9, amended: on a team in the sorted-list representation each special
    succeeds and adds exactly 1 to the special counter, so two calls leave
    its parity as it was; the two calls give back the items with their
    original keys, and in their original order when the stored keys are
    pairwise distinct. *)
Theorem C9_special_twice_amended (self : PokeTeam) (l : list ListItem) :
  team self = ArraySortedList l ->
  exists s1 s2 l2,
    special OPTIMISE self = Ok s1 /\ special OPTIMISE s1 = Ok s2 /\
    special_counter s1 = (special_counter self + 1)%nat /\
    special_counter s2 = (special_counter s1 + 1)%nat /\
    Nat.even (special_counter s2) = Nat.even (special_counter self) /\
    team s2 = ArraySortedList l2 /\
    Permutation l2 l /\
    (ascending l ->
       team s1 = ArraySortedList (rev (map negate l)) /\ team s2 = team self).
Proof.
  intros Ht.
  destruct (special_OPTIMISE_sorted_list self l Ht) as (r1 & H1 & P1 & A1).
  set (s1 := incr_special_counter (set_team (ArraySortedList r1) self)) in *.
  destruct (special_OPTIMISE_sorted_list s1 r1 eq_refl) as (r2 & H2 & P2 & A2).
  set (s2 := incr_special_counter (set_team (ArraySortedList r2) s1)) in *.
  exists s1, s2, r2.
  split; [exact H1|]. split; [exact H2|].
  split; [reflexivity|]. split; [reflexivity|]. split.
  { subst s1 s2. cbn.
    replace (special_counter self + 1 + 1)%nat
      with (S (S (special_counter self))) by lia.
    reflexivity. }
  split; [reflexivity|]. split.
  { rewrite P2. rewrite <- (map_negate_involutive l).
    apply Permutation_map. exact P1. }
  intros Hasc. pose proof (A1 Hasc) as E1.
  pose proof (A2 (eq_ind_r ascending (ascending_rev_negate l Hasc) E1)) as E2.
  subst s2 s1. cbn. rewrite Ht, E2, E1.
  split; [reflexivity|]. f_equal.
  rewrite map_rev, rev_involutive. apply map_negate_involutive.
Qed.

Lemma C9_special_twice_amended_witness :
  exists s1 s2,
    special OPTIMISE ranked3 = Ok s1 /\ special OPTIMISE s1 = Ok s2 /\
    members (team s1) = [0; 2; 1]%nat /\ team s2 = team ranked3.
Proof.
  destruct (C9_special_twice_amended ranked3 _ eq_refl)
    as (s1 & s2 & l2 & H1 & H2 & _ & _ & _ & _ & _ & Hasc).
  exists s1, s2. split; [exact H1|]. split; [exact H2|].
  destruct Hasc as [E1 E2].
  { simpl. repeat split; intros y Hy; simpl in Hy;
      repeat (destruct Hy as [<-|Hy]; [reflexivity|]); contradiction. }
  split; [rewrite E1; reflexivity | exact E2].
Defined.

(** ** Lenses of the battle state *)

Lemma team_of_set_team_of_same (s : Side) (c : Container) (b : Battle) :
  team_of (set_team_of s c b) s = c.
Proof. destruct s; reflexivity. Qed.

Lemma update_same (h : Store) (r : ref) (p : Pokemon) : update h r p r = p.
Proof. unfold update. rewrite Nat.eqb_refl. reflexivity. Qed.

Lemma update_other (h : Store) (r r' : ref) (p : Pokemon) :
  r' <> r -> update h r p r' = h r'.
Proof.
  intros H. unfold update. apply Nat.eqb_neq in H. rewrite H. reflexivity.
Qed.

Lemma getattr_ok (p : Pokemon) (c : string) :
  In c CRITERION_LIST -> exists k, getattr p c = Ok k.
Proof.
  unfold CRITERION_LIST. simpl.
  intros [<-|[<-|[<-|[<-|[<-|[]]]]]]; eexists; reflexivity.
Qed.

Lemma return_key_ok (b : Battle) (s : Side) (p : Pokemon) :
  In (criterion b) CRITERION_LIST -> exists k, return_key b s p = Ok k.
Proof.
  intros H. destruct (getattr_ok p _ H) as [k Hk].
  unfold return_key. rewrite Hk. cbn [bind].
  destruct (_ =? 0)%nat; eexists; reflexivity.
Qed.

Lemma same_frame_refl (b : Battle) : same_frame b b.
Proof. repeat split. Qed.

Lemma same_frame_trans (b1 b2 b3 : Battle) :
  same_frame b1 b2 -> same_frame b2 b3 -> same_frame b1 b3.
Proof.
  intros (A1 & A2 & A3 & A4 & A5) (B1 & B2 & B3 & B4 & B5).
  repeat split; try congruence; intros s; rewrite ?B4, ?B5; auto.
Qed.

Lemma same_frame_set_team_of (s : Side) (c : Container) (b : Battle) :
  same_frame b (set_team_of s c b).
Proof. destruct s; repeat split; intros []; reflexivity. Qed.

Lemma same_kind_refl_l (c c' : Container) : same_kind c c' -> same_kind c c.
Proof. destruct c, c'; simpl; auto. Qed.

Lemma same_kind_refl_r (c c' : Container) : same_kind c c' -> same_kind c' c'.
Proof. destruct c, c'; simpl; auto. Qed.

(** Sending a Pokemon back succeeds when the team is of the kind the
    dispatch finds; it changes the team of the side and nothing else. *)
Lemma send_back_same_kind (dispatch : Container) (s : Side) (r : ref)
      (st : State) :
  In (criterion (this st)) CRITERION_LIST ->
  same_kind dispatch (team_of (this st) s) ->
  exists c,
    send_back dispatch s r st = Ok (set_this (set_team_of s c (this st)) st) /\
    returned (this st) s r (store st r) c /\
    same_kind dispatch c.
Proof.
  intros Hc Hk. unfold send_back, returned.
  destruct (return_key_ok (this st) s (store st r) Hc) as [k Hkey].
  rewrite Hkey. cbn [bind].
  destruct dispatch; destruct (team_of (this st) s); try contradiction;
    eexists; (split; [reflexivity|]); cbn; eauto.
Qed.

Lemma level_up_total (p : Pokemon) :
  stage_in_line p ->
  exists p', level_up p = Ok p' /\ level p' = (level p + 1)%Z.
Proof.
  intros [Hnil|Hin].
  - rewrite (level_up_no_evolution p Hnil). eexists. split; reflexivity.
  - destruct (index_In _ _ Hin) as [i Hi].
    rewrite (level_up_at p i Hi).
    destruct (i =? List.length (evolution_line p) - 1)%nat eqn:E.
    + eexists. split; reflexivity.
    + apply Nat.eqb_neq in E.
      assert (i < List.length (evolution_line p))%nat
        by (apply nth_error_Some; rewrite (index_nth_error _ _ _ Hi);
            discriminate).
      destruct (nth_error (evolution_line p) (S i)) eqn:En;
        [|apply nth_error_None in En; lia].
      eexists. split; reflexivity.
Qed.

(** ** Sudden death *)

(** The four outcomes of a sudden death, by who is alive once both have
    lost 1 health. *)
Lemma _sudden_death_cases (t1 t2 : ref) (st : State) :
  t1 <> t2 -> ready (this st) ->
  stage_in_line (store st t1) -> stage_in_line (store st t2) ->
  let p1 := set_health (health (store st t1) - 1) (store st t1) in
  let p2 := set_health (health (store st t2) - 1) (store st t2) in
  exists st' : State,
    _sudden_death t1 t2 st = Ok st' /\
    (forall r, r <> t1 -> r <> t2 -> store st' r = store st r) /\
    match is_alive p1, is_alive p2 with
    | true, true =>
      store st' t1 = p1 /\ store st' t2 = p2 /\
      returned (this st) Side1 t1 p1 (team_of (this st') Side1) /\
      returned (this st) Side2 t2 p2 (team_of (this st') Side2)
    | true, false =>
      level_up p1 = Ok (store st' t1) /\
      level (store st' t1) = (level (store st t1) + 1)%Z /\
      store st' t2 = p2 /\
      returned (this st) Side1 t1 (store st' t1) (team_of (this st') Side1) /\
      team_of (this st') Side2 = team_of (this st) Side2
    | false, true =>
      level_up p2 = Ok (store st' t2) /\
      level (store st' t2) = (level (store st t2) + 1)%Z /\
      store st' t1 = p1 /\
      returned (this st) Side2 t2 (store st' t2) (team_of (this st') Side2) /\
      team_of (this st') Side1 = team_of (this st) Side1
    | false, false =>
      store st' t1 = p1 /\ store st' t2 = p2 /\
      team_of (this st') Side1 = team_of (this st) Side1 /\
      team_of (this st') Side2 = team_of (this st) Side2
    end.
Proof.
  intros Hne [Hc Hk] Hs1 Hs2 p1 p2.
  unfold _sudden_death.
  set (stA := lose_1_health t2 (lose_1_health t1 st)).
  assert (HA1 : store stA t1 = p1).
  { subst stA. unfold lose_1_health. cbn [store set_store].
    rewrite update_other by exact Hne. rewrite update_same. reflexivity. }
  assert (HA2 : store stA t2 = p2).
  { subst stA. unfold lose_1_health. cbn [store set_store].
    rewrite update_same. rewrite update_other by auto. reflexivity. }
  assert (HAo : forall r, r <> t1 -> r <> t2 -> store stA r = store st r).
  { intros r H1 H2. subst stA. unfold lose_1_health. cbn [store set_store].
    rewrite !update_other by assumption. reflexivity. }
  change (this stA) with (this st) in *.
  rewrite HA1, HA2.
  destruct (is_alive p1) eqn:L1, (is_alive p2) eqn:L2; cbn [andb].
  - (* both alive *)
    destruct (send_back_same_kind (team_of (this st) Side1) Side1 t1 stA Hc
                (same_kind_refl_l _ _ Hk)) as (c1 & S1 & R1 & K1).
    rewrite S1. cbn [bind].
    set (stB := set_this (set_team_of Side1 c1 (this stA)) stA) in *.
    destruct (send_back_same_kind (team_of (this st) Side1) Side2 t2 stB Hc Hk)
      as (c2 & S2 & R2 & K2).
    rewrite S2. eexists. split; [reflexivity|].
    split; [exact HAo|]. cbn.
    rewrite HA1 in R1. change (store stB t2) with (store stA t2) in R2.
    rewrite HA2 in R2. auto.
  - (* only the first is alive *)
    destruct (level_up_total p1 Hs1) as (p1' & U1 & Lv1).
    rewrite U1. cbn [bind].
    set (stB := set_store (update (store stA) t1 p1') stA) in *.
    destruct (send_back_same_kind (team_of (this st) Side1) Side1 t1 stB Hc
                (same_kind_refl_l _ _ Hk)) as (c1 & S1 & R1 & K1).
    rewrite S1. eexists. split; [reflexivity|].
    assert (E1 : store stB t1 = p1') by (apply update_same).
    change (store (set_this (set_team_of Side1 c1 (this stB)) stB))
      with (store stB).
    change (this (set_this (set_team_of Side1 c1 (this stB)) stB))
      with (set_team_of Side1 c1 (this st)).
    rewrite E1 in *. split.
    { intros r H1 H2. subst stB. cbn [store set_store].
      rewrite update_other by exact H1. apply HAo; assumption. }
    split; [reflexivity|]. split; [exact Lv1|]. split.
    { subst stB. cbn [store set_store].
      rewrite update_other by auto. exact HA2. }
    split; [exact R1 | reflexivity].
  - (* only the second is alive *)
    destruct (level_up_total p2 Hs2) as (p2' & U2 & Lv2).
    rewrite U2. cbn [bind].
    set (stB := set_store (update (store stA) t2 p2') stA) in *.
    destruct (send_back_same_kind (team_of (this st) Side1) Side2 t2 stB Hc Hk)
      as (c2 & S2 & R2 & K2).
    rewrite S2. eexists. split; [reflexivity|].
    assert (E2 : store stB t2 = p2') by (apply update_same).
    change (store (set_this (set_team_of Side2 c2 (this stB)) stB))
      with (store stB).
    change (this (set_this (set_team_of Side2 c2 (this stB)) stB))
      with (set_team_of Side2 c2 (this st)).
    rewrite E2 in *. split.
    { intros r H1 H2. subst stB. cbn [store set_store].
      rewrite update_other by exact H2. apply HAo; assumption. }
    split; [reflexivity|]. split; [exact Lv2|]. split.
    { subst stB. cbn [store set_store].
      rewrite update_other by exact Hne. exact HA1. }
    split; [exact R2 | reflexivity].
  - (* neither is alive *)
    eexists. split; [reflexivity|]. split; [exact HAo|]. auto.
Qed.

(** C5: in a sudden death both Pokemon lose exactly 1 health, whatever
    their defence.  If both are still alive, both go back to their own
    teams unchanged otherwise (no level-up); if exactly one is alive, it
    gains one level-up and goes back and the other does not go back; if
    neither is alive, neither goes back and neither levels up. *)
Theorem C5_sudden_death (t1 t2 : ref) (st : State) :
  t1 <> t2 -> ready (this st) ->
  stage_in_line (store st t1) -> stage_in_line (store st t2) ->
  let h1 := health (store st t1) - 1 in
  let h2 := health (store st t2) - 1 in
  let p1 := set_health h1 (store st t1) in
  let p2 := set_health h2 (store st t2) in
  exists st' : State,
    _sudden_death t1 t2 st = Ok st' /\
    (forall r, r <> t1 -> r <> t2 -> store st' r = store st r) /\
    (0 < h1 -> 0 < h2 ->
       store st' t1 = p1 /\ store st' t2 = p2 /\
       returned (this st) Side1 t1 p1 (team_of (this st') Side1) /\
       returned (this st) Side2 t2 p2 (team_of (this st') Side2)) /\
    (0 < h1 -> h2 <= 0 ->
       level_up p1 = Ok (store st' t1) /\
       level (store st' t1) = (level (store st t1) + 1)%Z /\
       store st' t2 = p2 /\
       returned (this st) Side1 t1 (store st' t1) (team_of (this st') Side1) /\
       team_of (this st') Side2 = team_of (this st) Side2) /\
    (h1 <= 0 -> 0 < h2 ->
       level_up p2 = Ok (store st' t2) /\
       level (store st' t2) = (level (store st t2) + 1)%Z /\
       store st' t1 = p1 /\
       returned (this st) Side2 t2 (store st' t2) (team_of (this st') Side2) /\
       team_of (this st') Side1 = team_of (this st) Side1) /\
    (h1 <= 0 -> h2 <= 0 ->
       store st' t1 = p1 /\ store st' t2 = p2 /\
       team_of (this st') Side1 = team_of (this st) Side1 /\
       team_of (this st') Side2 = team_of (this st) Side2).
Proof.
  intros Hne Hready Hs1 Hs2 h1 h2 p1 p2.
  destruct (_sudden_death_cases t1 t2 st Hne Hready Hs1 Hs2)
    as (st' & H & Hother & Hcase).
  fold h1 h2 in Hcase. fold p1 p2 in Hcase.
  exists st'. split; [exact H|]. split; [exact Hother|].
  assert (A1 : is_alive p1 = Qltb 0 h1) by reflexivity.
  assert (A2 : is_alive p2 = Qltb 0 h2) by reflexivity.
  rewrite A1, A2 in Hcase.
  destruct (Qltb 0 h1) eqn:L1; destruct (Qltb 0 h2) eqn:L2;
    [apply Qltb_lt in L1, L2 | apply Qltb_lt in L1; apply Qltb_ge in L2
     | apply Qltb_ge in L1; apply Qltb_lt in L2
     | apply Qltb_ge in L1, L2];
    (split; [|split; [|split]]); intros K1 K2;
    try (exfalso; lra); exact Hcase.
Qed.


(** ** The round at equal speed *)

Lemma send_back_store (dispatch : Container) (s : Side) (r : ref)
      (st st' : State) :
  send_back dispatch s r st = Ok st' -> store st' = store st.
Proof.
  unfold send_back. intros H.
  destruct dispatch; try discriminate H.
  - destruct (team_of (this st) s); try discriminate H.
    injection H as <-. reflexivity.
  - destruct (team_of (this st) s); try discriminate H.
    injection H as <-. reflexivity.
  - inv_bind H. destruct (team_of (this st) s); try discriminate H.
    injection H as <-. reflexivity.
Qed.

(** What an attack and the check that follows it do to the store: the
    defender is as [defend] leaves it, the attacker is as it was when the
    defender is still alive and has its level up otherwise, and no other
    Pokemon is touched. *)
Lemma attack_effect (s : Side) (a d : ref) (st sB : State) (dmg : Z) :
  a <> d ->
  _check_alive s a d (hit st d dmg) = Ok sB ->
  store sB d = defend (store st d) (inject_Z dmg) /\
  (if is_alive (store sB d) then store sB a = store st a
   else level_up (store st a) = Ok (store sB a)) /\
  forall r, r <> a -> r <> d -> store sB r = store st r.
Proof.
  intros Hne H. unfold _check_alive in H.
  assert (Hd : store (hit st d dmg) d = defend (store st d) (inject_Z dmg))
    by apply update_same.
  assert (Ho : forall r, r <> d -> store (hit st d dmg) r = store st r)
    by (intros r Hr; apply update_other; exact Hr).
  rewrite Hd, (Ho a Hne) in H.
  destruct (is_alive (defend (store st d) (inject_Z dmg))) eqn:A;
    cbn [negb] in H.
  - injection H as <-. rewrite Hd, A.
    split; [reflexivity|]. split; [exact (Ho a Hne)|].
    intros r _ Hr. exact (Ho r Hr).
  - inv_bind H. rename a0 into p, Ha into Hl.
    apply send_back_store in H. cbn [store set_store] in H.
    rewrite H. rewrite update_same.
    rewrite (update_other _ a d) by (apply not_eq_sym; exact Hne).
    rewrite Hd, A.
    split; [reflexivity|]. split; [exact Hl|].
    intros r Hra Hrd. rewrite update_other by exact Hra. exact (Ho r Hrd).
Qed.

Section Rounds.

(** The type chart the battle is fought under. *)
Variable EFFECT_TABLE : PokeType -> PokeType -> Q.

(** C2: when the two speeds are equal the round is exactly this: the
    Pokemon of side 1 damages the one of side 2 and the outcome is checked;
    then the Pokemon of side 2 damages the one of side 1 and the outcome is
    checked, whether or not the Pokemon of side 2 is still alive after the
    first attack; then sudden death takes place if and only if the health
    of both is above 0.  The first attack leaves the Pokemon of side 2 as
    [defend] makes it, its health lower by the effective damage of [d1],
    and the Pokemon of side 1 as it was, or a level up when the other has
    fainted; the second attack leaves the Pokemon of side 1 as [defend]
    makes it, its health lower by the effective damage of [d2], and the
    Pokemon of side 2 as the first attack left it, or a level up.  The two
    Pokemon are two objects. *)
Theorem C2_equal_speed_round (t1 t2 : ref) (st : State) :
  t1 <> t2 ->
  speed (store st t1) == speed (store st t2) ->
  forall st',
    _battle_round EFFECT_TABLE t1 t2 st = Ok st' <->
    exists d1 sB d2 sD,
      (_calculate_attack_damage EFFECT_TABLE (store st t1) (store st t2)
         (completion st Side1) (completion st Side2) = Ok d1 /\
       _check_alive Side1 t1 t2 (hit st t2 d1) = Ok sB /\
       _calculate_attack_damage EFFECT_TABLE (store sB t2) (store sB t1)
         (completion sB Side2) (completion sB Side1) = Ok d2 /\
       _check_alive Side2 t2 t1 (hit sB t1 d2) = Ok sD /\
       if Qltb 0 (health (store sD t1)) && Qltb 0 (health (store sD t2))
       then _sudden_death t1 t2 sD = Ok st'
       else st' = sD) /\
      (store sB t2 = defend (store st t2) (inject_Z d1) /\
       health (store sB t2)
       == health (store st t2)
          - effective_damage (store st t2) (inject_Z d1) /\
       if is_alive (store sB t2) then store sB t1 = store st t1
       else level_up (store st t1) = Ok (store sB t1)) /\
      (store sD t1 = defend (store sB t1) (inject_Z d2) /\
       health (store sD t1)
       == health (store sB t1)
          - effective_damage (store sB t1) (inject_Z d2) /\
       if is_alive (store sD t1) then store sD t2 = store sB t2
       else level_up (store sB t2) = Ok (store sD t2)).
Proof.
  intros Hne Hspeed st'. unfold _battle_round.
  rewrite Qeq_alt in Hspeed. rewrite Hspeed.
  unfold strike, sudden_death_if_both_alive. cbn [other_side].
  split.
  - intros H.
    inv_bind H. inv_bind Ha. injection Ha as <-. rename a0 into d1.
    inv_bind H. rename a into sB, Ha into HB.
    inv_bind H. inv_bind Ha. injection Ha as <-. rename a0 into d2.
    inv_bind H. rename a into sD, Ha into HD.
    exists d1, sB, d2, sD. split; [|split].
    + repeat (split; [assumption|]).
      destruct (Qltb 0 (health (store sD t1)) && Qltb 0 (health (store sD t2)));
        [exact H | injection H as <-; reflexivity].
    + destruct (attack_effect _ _ _ _ _ _ Hne HB) as (S2 & L1 & _).
      split; [exact S2|]. split; [|exact L1].
      rewrite S2, health_defend. reflexivity.
    + destruct (attack_effect _ _ _ _ _ _ (not_eq_sym Hne) HD) as (S1 & L2 & _).
      split; [exact S1|]. split; [|exact L2].
      rewrite S1, health_defend. reflexivity.
  - intros (d1 & sB & d2 & sD & (H1 & HB & H2 & HD & H) & _).
    rewrite H1. cbn [bind]. rewrite HB. cbn [bind].
    rewrite H2. cbn [bind]. rewrite HD. cbn [bind].
    destruct (Qltb 0 (health (store sD t1)) && Qltb 0 (health (store sD t2)));
      [exact H | rewrite H; reflexivity].
Qed.

(** ** What a round leaves alone *)

Lemma send_back_frame (dispatch : Container) (s : Side) (r : ref)
      (st st' : State) :
  send_back dispatch s r st = Ok st' -> same_frame (this st) (this st').
Proof.
  unfold send_back. intros H.
  destruct dispatch; try discriminate H.
  - destruct (team_of (this st) s); try discriminate H.
    injection H as <-. apply same_frame_set_team_of.
  - destruct (team_of (this st) s); try discriminate H.
    injection H as <-. apply same_frame_set_team_of.
  - inv_bind H. destruct (team_of (this st) s); try discriminate H.
    injection H as <-. apply same_frame_set_team_of.
Qed.

Lemma _check_alive_frame (s : Side) (attacker defender : ref)
      (st st' : State) :
  _check_alive s attacker defender st = Ok st' ->
  same_frame (this st) (this st').
Proof.
  unfold _check_alive. intros H.
  destruct (negb (is_alive (store st defender))).
  - inv_bind H. apply send_back_frame in H. exact H.
  - injection H as <-. apply same_frame_refl.
Qed.

Lemma _sudden_death_frame (t1 t2 : ref) (st st' : State) :
  _sudden_death t1 t2 st = Ok st' -> same_frame (this st) (this st').
Proof.
  unfold _sudden_death. intros H.
  destruct (is_alive _ && is_alive _).
  - inv_bind H. apply send_back_frame in Ha, H.
    exact (same_frame_trans _ _ _ Ha H).
  - destruct (is_alive _).
    + inv_bind H. apply send_back_frame in H. exact H.
    + destruct (is_alive _).
      * inv_bind H. apply send_back_frame in H. exact H.
      * injection H as <-. apply same_frame_refl.
Qed.

Lemma strike_frame (s : Side) (attacker defender : ref) (st st' : State) :
  strike EFFECT_TABLE s attacker defender st = Ok st' -> this st' = this st.
Proof. unfold strike. intros H. inv_bind H. injection H as <-. reflexivity. Qed.

Lemma sudden_death_if_both_alive_frame (t1 t2 : ref) (st st' : State) :
  sudden_death_if_both_alive t1 t2 st = Ok st' ->
  same_frame (this st) (this st').
Proof.
  unfold sudden_death_if_both_alive. intros H.
  destruct (_ && _).
  - apply _sudden_death_frame in H. exact H.
  - injection H as <-. apply same_frame_refl.
Qed.

(** An attack with its check, and the test for sudden death, keep the
    frame. *)
Lemma exchange_frame (s : Side) (attacker defender : ref)
      (st st1 st2 : State) :
  strike EFFECT_TABLE s attacker defender st = Ok st1 ->
  _check_alive s attacker defender st1 = Ok st2 ->
  same_frame (this st) (this st2).
Proof.
  intros H1 H2. apply strike_frame in H1. apply _check_alive_frame in H2.
  rewrite H1 in H2. exact H2.
Qed.

Lemma _battle_round_frame (t1 t2 : ref) (st st' : State) :
  _battle_round EFFECT_TABLE t1 t2 st = Ok st' ->
  same_frame (this st) (this st').
Proof.
  unfold _battle_round. intros H.
  destruct (Qcompare _ _).
  - inv_bind H. rename a into sA, Ha into HA.
    inv_bind H. rename a into sB, Ha into HB.
    inv_bind H. rename a into sC, Ha into HC.
    inv_bind H. rename a into sD, Ha into HD.
    apply sudden_death_if_both_alive_frame in H.
    pose proof (exchange_frame _ _ _ _ _ _ HA HB) as F1.
    pose proof (exchange_frame _ _ _ _ _ _ HC HD) as F2.
    exact (same_frame_trans _ _ _ (same_frame_trans _ _ _ F1 F2) H).
  - inv_bind H. rename a into sA, Ha into HA.
    inv_bind H. rename a into sB, Ha into HB.
    pose proof (exchange_frame _ _ _ _ _ _ HA HB) as F1.
    destruct (is_alive _).
    + inv_bind H. rename a into sC, Ha into HC.
      inv_bind H. rename a into sD, Ha into HD.
      apply sudden_death_if_both_alive_frame in H.
      pose proof (exchange_frame _ _ _ _ _ _ HC HD) as F2.
      exact (same_frame_trans _ _ _ (same_frame_trans _ _ _ F1 F2) H).
    + injection H as <-. exact F1.
  - inv_bind H. rename a into sA, Ha into HA.
    inv_bind H. rename a into sB, Ha into HB.
    pose proof (exchange_frame _ _ _ _ _ _ HA HB) as F1.
    destruct (is_alive _).
    + inv_bind H. rename a into sC, Ha into HC.
      inv_bind H. rename a into sD, Ha into HD.
      apply sudden_death_if_both_alive_frame in H.
      pose proof (exchange_frame _ _ _ _ _ _ HC HD) as F2.
      exact (same_frame_trans _ _ _ (same_frame_trans _ _ _ F1 F2) H).
    + injection H as <-. exact F1.
Qed.

Lemma battle_step_winner (battle_type : BattleMode) (st st' : State) :
  battle_step EFFECT_TABLE battle_type st = Ok st' ->
  winner_trainer (this st') = winner_trainer (this st).
Proof.
  unfold battle_step. intros H.
  inv_bind H. destruct a as [x1 c1].
  inv_bind H. destruct a as [x2 c2].
  inv_bind H. destruct a as [r1 r2].
  apply _battle_round_frame in H. destruct H as [H _].
  rewrite H. reflexivity.
Qed.

(** ** The winner of a battle *)

Lemma team_of_set_winner_trainer (w : option Side) (b : Battle) (s : Side) :
  team_of (set_winner_trainer w b) s = team_of b s.
Proof. destruct s; reflexivity. Qed.

(** How the loop ends: on one empty team and the other trainer written
    as the winner, or on two empty teams and nothing written. *)
Lemma _conduct_battle_outcome (battle_type : BattleMode) (fuel : nat) :
  forall st st',
    _conduct_battle EFFECT_TABLE fuel battle_type st = Some (Ok st') ->
    let n1 := len (team_of (this st') Side1) in
    let n2 := len (team_of (this st') Side2) in
    (n1 = O /\ n2 <> O /\ winner_trainer (this st') = Some Side2) \/
    (n2 = O /\ n1 <> O /\ winner_trainer (this st') = Some Side1) \/
    (n1 = O /\ n2 = O /\
     winner_trainer (this st') = winner_trainer (this st)).
Proof.
  induction fuel as [|fuel IH]; intros st st' H; simpl in H;
    [discriminate|].
  destruct (len (team_of (this st) Side1) =? 0)%nat eqn:E1;
    destruct (len (team_of (this st) Side2) =? 0)%nat eqn:E2;
    cbn [negb orb] in H.
  - injection H as <-. apply Nat.eqb_eq in E1, E2.
    right. right. cbv zeta. auto.
  - injection H as <-. apply Nat.eqb_eq in E1. apply Nat.eqb_neq in E2.
    left. cbv zeta. cbn [this set_this].
    rewrite !team_of_set_winner_trainer. auto.
  - injection H as <-. apply Nat.eqb_neq in E1. apply Nat.eqb_eq in E2.
    right. left. cbv zeta. cbn [this set_this].
    rewrite !team_of_set_winner_trainer. auto.
  - destruct (battle_step EFFECT_TABLE battle_type st) as [st1|e] eqn:Hs;
      [|discriminate].
    rewrite <- (battle_step_winner _ _ _ Hs). exact (IH st1 st' H).
Qed.

(** C6: what [commence_battle] returns, on any [Battle] object.  A battle
    that comes to an end leaves a team empty.  When team 1 is empty and
    team 2 is not, trainer 2 is returned; when team 2 is empty and team 1
    is not, trainer 1.  When both are empty the loop writes nothing, and
    the field [winner_trainer] is returned as the call found it: [None]
    on the object [__init__] has made, the winner of the earlier battle on
    an object that has decided one.  So the three equivalences hold for
    the battles that start with [winner_trainer] at [None]. *)
Theorem C6_commence_battle_returns_winner_trainer (fuel : nat)
    (st st' : State) (winner : option Side) :
  commence_battle EFFECT_TABLE fuel st = Some (Ok (winner, st')) ->
  let n1 := len (team_of (this st') Side1) in
  let n2 := len (team_of (this st') Side2) in
  (n1 = O \/ n2 = O) /\
  (n1 = O /\ n2 <> O -> winner = Some Side2) /\
  (n2 = O /\ n1 <> O -> winner = Some Side1) /\
  (n1 = O /\ n2 = O -> winner = winner_trainer (this st)) /\
  (winner_trainer (this st) = None ->
   (winner = Some Side2 <-> n1 = O /\ n2 <> O) /\
   (winner = Some Side1 <-> n2 = O /\ n1 <> O) /\
   (winner = None <-> n1 = O /\ n2 = O)).
Proof.
  unfold commence_battle. intros H.
  destruct (_conduct_battle _ _ _ _) as [[st1|e]|] eqn:Hc; try discriminate.
  injection H as <- <-.
  apply _conduct_battle_outcome in Hc. cbv zeta in *.
  destruct Hc as [(A & B & C)|[(A & B & C)|(A & B & C)]]; rewrite C.
  - split; [left; exact A|]. split; [reflexivity|].
    split; [intros [? ?]; contradiction|].
    split; [intros [? ?]; contradiction|]. intros _.
    repeat split; try discriminate; try tauto; intros [? ?]; congruence.
  - split; [right; exact A|].
    split; [intros [? ?]; contradiction|]. split; [reflexivity|].
    split; [intros [? ?]; contradiction|]. intros _.
    repeat split; try discriminate; try tauto; intros [? ?]; congruence.
  - split; [left; exact A|].
    split; [intros [? ?]; contradiction|].
    split; [intros [? ?]; contradiction|].
    split; [reflexivity|]. intros Hw. rewrite Hw.
    repeat split; try discriminate; try tauto; intros [? ?]; congruence.
Qed.

(** ** Rounds at unequal speed *)

Lemma _battle_round_unequal (t1 t2 : ref) (st : State) :
  ~ speed (store st t1) == speed (store st t2) ->
  _battle_round EFFECT_TABLE t1 t2 st
  = faster_first EFFECT_TABLE Side1 t1 t2 t1 t2 st \/
  _battle_round EFFECT_TABLE t1 t2 st
  = faster_first EFFECT_TABLE Side2 t2 t1 t1 t2 st.
Proof.
  intros Hne. unfold _battle_round.
  destruct (Qcompare _ _) eqn:E.
  - apply Qeq_alt in E. contradiction.
  - right. reflexivity.
  - left. reflexivity.
Qed.

Lemma strike_ok (s : Side) (a d : ref) (st : State) :
  ~ completion st (other_side s) == 0 ->
  exists dmg, strike EFFECT_TABLE s a d st = Ok (hit st d dmg).
Proof.
  intros H. unfold strike, _calculate_attack_damage.
  destruct (Qeq_bool _ 0) eqn:E.
  - apply Qeq_bool_iff in E. contradiction.
  - eexists. reflexivity.
Qed.

Lemma store_hit_same (st : State) (d : ref) (dmg : Z) :
  store (hit st d dmg) d = defend (store st d) (inject_Z dmg).
Proof. apply update_same. Qed.

Lemma store_hit_other (st : State) (d r : ref) (dmg : Z) :
  r <> d -> store (hit st d dmg) r = store st r.
Proof. intros H. apply update_other. exact H. Qed.

Lemma level_up_is_alive (p p' : Pokemon) :
  level_up p = Ok p' -> is_alive p' = is_alive p.
Proof.
  intros H. unfold level_up in H.
  destruct (0 <? _)%nat; [|injection H as <-; reflexivity].
  inv_bind H. destruct (negb _); [|injection H as <-; reflexivity].
  unfold _evolve in H. inv_bind H. inv_bind H. inv_bind H.
  injection H as <-. unfold is_alive. cbn.
  destruct (Qltb 0 (health p)) eqn:E.
  - apply Qltb_lt. apply Qltb_lt in E. lra.
  - apply Qltb_ge. apply Qltb_ge in E. lra.
Qed.

(** The check after an attack that brought the defender down: the
    attacker gains a level and goes back to its team. *)
Lemma _check_alive_down (s : Side) (a d : ref) (st : State) :
  In (criterion (this st)) CRITERION_LIST ->
  same_kind (team_of (this st) s) (team_of (this st) s) ->
  stage_in_line (store st a) ->
  is_alive (store st d) = false ->
  exists p' c,
    level_up (store st a) = Ok p' /\
    _check_alive s a d st
    = Ok (set_this (set_team_of s c (this st))
                   (set_store (update (store st) a p') st)) /\
    returned (this st) s a p' c.
Proof.
  intros Hc Hk Hs Hd. unfold _check_alive. rewrite Hd. cbn [negb].
  destruct (level_up_total _ Hs) as (p' & Hp' & _).
  rewrite Hp'. cbn [bind].
  set (st1 := set_store (update (store st) a p') st).
  destruct (send_back_same_kind (team_of (this st1) s) s a st1 Hc Hk)
    as (c & Hsend & Hret & _).
  exists p', c. split; [reflexivity|]. split; [exact Hsend|].
  subst st1. cbn [store set_store this] in Hret.
  rewrite update_same in Hret. exact Hret.
Qed.

Lemma _check_alive_up (s : Side) (a d : ref) (st : State) :
  is_alive (store st d) = true -> _check_alive s a d st = Ok st.
Proof. intros H. unfold _check_alive. rewrite H. reflexivity. Qed.

Lemma ready_side (b : Battle) (s : Side) :
  ready b -> same_kind (team_of b s) (team_of b s).
Proof.
  intros [_ Hk]. destruct s.
  - exact (same_kind_refl_l _ _ Hk).
  - exact (same_kind_refl_r _ _ Hk).
Qed.

Lemma other_side_neq (s : Side) : other_side s <> s.
Proof. destruct s; discriminate. Qed.

Lemma team_of_set_team_of_neq (s s' : Side) (c : Container) (b : Battle) :
  s' <> s -> team_of (set_team_of s c b) s' = team_of b s'.
Proof. destruct s, s'; intros H; try reflexivity; contradiction. Qed.

Lemma settled_of_sudden_death (st : State) (t1 t2 : ref) :
  t1 <> t2 -> ready (this st) ->
  stage_in_line (store st t1) -> stage_in_line (store st t2) ->
  exists st',
    _sudden_death t1 t2 st = Ok st' /\
    settled st st' Side1 t1 /\ settled st st' Side2 t2.
Proof.
  intros Hne Hr Hs1 Hs2.
  destruct (_sudden_death_cases t1 t2 st Hne Hr Hs1 Hs2)
    as (st1 & H & _ & Hcase).
  exists st1. split; [exact H|]. unfold settled.
  destruct (is_alive (set_health (health (store st t1) - 1) (store st t1)))
    eqn:L1;
  destruct (is_alive (set_health (health (store st t2) - 1) (store st t2)))
    eqn:L2.
  - destruct Hcase as (E1 & E2 & R1 & R2). rewrite E1, E2, L1, L2. auto.
  - destruct Hcase as (U1 & _ & E2 & R1 & T2).
    rewrite (level_up_is_alive _ _ U1), L1, E2, L2. auto.
  - destruct Hcase as (U2 & _ & E1 & R2 & T1).
    rewrite (level_up_is_alive _ _ U2), L2, E1, L1. auto.
  - destruct Hcase as (E1 & E2 & T1 & T2). rewrite E1, E2, L1, L2. auto.
Qed.

(** A round in which one side attacks first and the other retaliates only
    if it is still alive: each of the two ends either alive and back in
    its own team, or fainted and out of it. *)
Lemma faster_first_settles (s : Side) (a d t1 t2 : ref) (st : State) :
  (s = Side1 /\ a = t1 /\ d = t2) \/ (s = Side2 /\ a = t2 /\ d = t1) ->
  t1 <> t2 -> ready (this st) ->
  stage_in_line (store st t1) -> stage_in_line (store st t2) ->
  ~ completion st Side1 == 0 -> ~ completion st Side2 == 0 ->
  is_alive (store st a) = true ->
  exists st',
    faster_first EFFECT_TABLE s a d t1 t2 st = Ok st' /\
    settled st st' s a /\ settled st st' (other_side s) d.
Proof.
  intros Hrole Hne Hready Hs1 Hs2 Hc1 Hc2 Halive.
  assert (Had : a <> d) by (destruct Hrole as [(_ & -> & ->)|(_ & -> & ->)]; auto).
  assert (Hsa : stage_in_line (store st a))
    by (destruct Hrole as [(_ & -> & _)|(_ & -> & _)]; assumption).
  assert (Hsd : stage_in_line (store st d))
    by (destruct Hrole as [(_ & _ & ->)|(_ & _ & ->)]; assumption).
  assert (Hcs : ~ completion st s == 0 /\ ~ completion st (other_side s) == 0)
    by (destruct Hrole as [(-> & _)|(-> & _)]; split; assumption).
  destruct Hcs as [Hcs Hco].
  pose proof (proj1 Hready) as Hcrit.
  unfold faster_first.
  destruct (strike_ok s a d st Hco) as [dmg1 Hstrike1].
  rewrite Hstrike1. cbn [bind].
  set (sA := hit st d dmg1).
  assert (EAa : store sA a = store st a) by (apply store_hit_other; exact Had).
  destruct (is_alive (store sA d)) eqn:LAd.
  - (* the defender stands and retaliates *)
    rewrite (_check_alive_up s a d sA LAd). cbn [bind]. rewrite LAd.
    destruct (strike_ok (other_side s) d a sA) as [dmg2 Hstrike2].
    { destruct s; assumption. }
    rewrite Hstrike2. cbn [bind].
    set (sC := hit sA a dmg2).
    assert (ECd : store sC d = store sA d)
      by (apply store_hit_other; auto).
    destruct (is_alive (store sC a)) eqn:LCa.
    + (* both stand: sudden death *)
      rewrite (_check_alive_up (other_side s) d a sC LCa). cbn [bind].
      unfold sudden_death_if_both_alive.
      assert (Hboth : Qltb 0 (health (store sC t1))
                      && Qltb 0 (health (store sC t2)) = true).
      { fold (is_alive (store sC t1)) (is_alive (store sC t2)).
        destruct Hrole as [(_ & <- & <-)|(_ & <- & <-)];
          rewrite LCa, ECd, LAd; reflexivity. }
      rewrite Hboth.
      destruct (settled_of_sudden_death sC t1 t2 Hne Hready)
        as (st' & Hsd' & S1 & S2).
      { destruct Hrole as [(_ & <- & <-)|(_ & <- & <-)].
        - subst sC. rewrite store_hit_same, EAa. exact Hsa.
        - rewrite ECd. subst sA. rewrite store_hit_same. exact Hsd. }
      { destruct Hrole as [(_ & <- & <-)|(_ & <- & <-)].
        - rewrite ECd. subst sA. rewrite store_hit_same. exact Hsd.
        - subst sC. rewrite store_hit_same, EAa. exact Hsa. }
      exists st'. split; [exact Hsd'|].
      destruct Hrole as [(-> & <- & <-)|(-> & <- & <-)]; split; assumption.
    + (* the attacker is brought down by the retaliation *)
      destruct (_check_alive_down (other_side s) d a sC Hcrit
                  (ready_side _ _ Hready)) as (p' & c & Hup & Hcheck & Hret).
      { rewrite ECd. subst sA. rewrite store_hit_same. exact Hsd. }
      { exact LCa. }
      rewrite Hcheck. cbn [bind].
      set (sD := set_this _ _).
      assert (EDa : store sD a = store sC a)
        by (subst sD; cbn [store set_this set_store];
            apply update_other; exact Had).
      assert (EDd : store sD d = p')
        by (subst sD; cbn [store set_this set_store]; apply update_same).
      assert (Hdead : Qltb 0 (health (store sD t1))
                      && Qltb 0 (health (store sD t2)) = false).
      { fold (is_alive (store sD t1)) (is_alive (store sD t2)).
        destruct Hrole as [(_ & <- & <-)|(_ & <- & <-)];
          rewrite EDa, LCa; [reflexivity | apply andb_false_r]. }
      unfold sudden_death_if_both_alive. rewrite Hdead.
      eexists. split; [reflexivity|]. split.
      * right. split; [rewrite EDa; exact LCa|].
        subst sD. cbn [this set_this].
        apply team_of_set_team_of_neq. intros E. symmetry in E.
        exact (other_side_neq s E).
      * left. rewrite EDd. split.
        -- rewrite (level_up_is_alive _ _ Hup), ECd. exact LAd.
        -- subst sD. cbn [this set_this].
           rewrite team_of_set_team_of_same. exact Hret.
  - (* the defender is brought down by the first attack *)
    destruct (_check_alive_down s a d sA Hcrit (ready_side _ _ Hready))
      as (p' & c & Hup & Hcheck & Hret).
    { rewrite EAa. exact Hsa. }
    { exact LAd. }
    rewrite Hcheck. cbn [bind].
    set (sB := set_this _ _).
    assert (EBd : store sB d = store sA d).
    { subst sB. cbn [store set_this set_store]. apply update_other. auto. }
    assert (EBa : store sB a = p')
      by (subst sB; cbn [store set_this set_store]; apply update_same).
    rewrite EBd, LAd.
    eexists. split; [reflexivity|]. split.
    + left. rewrite EBa. split.
      * rewrite (level_up_is_alive _ _ Hup), EAa. exact Halive.
      * subst sB. cbn [this set_this].
        rewrite team_of_set_team_of_same. exact Hret.
    + right. split; [rewrite EBd; exact LAd|].
      subst sB. cbn [this set_this].
      apply team_of_set_team_of_neq. apply other_side_neq.
Qed.

(** At unequal speed a round between two Pokemon that are alive keeps the
    teams sound: each of the two ends the round either alive and back in
    its own team, or fainted and out of it. *)
Lemma unequal_speed_round_settles (t1 t2 : ref) (st : State) :
  ~ speed (store st t1) == speed (store st t2) ->
  t1 <> t2 -> ready (this st) ->
  stage_in_line (store st t1) -> stage_in_line (store st t2) ->
  ~ completion st Side1 == 0 -> ~ completion st Side2 == 0 ->
  is_alive (store st t1) = true -> is_alive (store st t2) = true ->
  exists st',
    _battle_round EFFECT_TABLE t1 t2 st = Ok st' /\
    settled st st' Side1 t1 /\ settled st st' Side2 t2.
Proof.
  intros Hspeed Hne Hready Hs1 Hs2 Hc1 Hc2 L1 L2.
  destruct (_battle_round_unequal t1 t2 st Hspeed) as [E|E];
    rewrite E.
  - destruct (faster_first_settles Side1 t1 t2 t1 t2 st)
      as (st' & H & S1 & S2); auto.
    exists st'. auto.
  - destruct (faster_first_settles Side2 t2 t1 t1 t2 st)
      as (st' & H & S2 & S1); auto.
    exists st'. auto.
Qed.

End Rounds.

(** ** Both faint at equal speed *)

Lemma lethal_blow (p : Pokemon) :
  defence p = 10 -> health p <= 10 ->
  is_alive (defend p (inject_Z 40)) = false.
Proof.
  intros Hd Hh. unfold is_alive. rewrite health_defend.
  unfold effective_damage. rewrite Hd.
  change (Qltb (inject_Z 40) 10) with false. cbv iota.
  apply Qltb_ge. change (inject_Z 40) with 40. lra.
Qed.

Lemma duel_step (st : State) :
  duel_inv st ->
  exists st', battle_step sample_table SET st = Ok st' /\ duel_inv st'.
Proof.
  destruct st as [h b].
  intros [Hb (h0 & h1 & l0 & l1 & L0 & L1 & E0 & E1)].
  cbn [this store] in *. subst b.
  assert (Hstep : battle_step sample_table SET (mkState h (this duel))
                  = _battle_round sample_table 0%nat 1%nat
                                  (mkState h (this duel_round))).
  { unfold battle_step. cbn. rewrite E0, E1. reflexivity. }
  rewrite Hstep. clear Hstep.
  assert (Hd : forall a d : Pokemon,
             battle_power a = 50 -> defence d = 10 ->
             poketype a = FIRE -> poketype d = FIRE ->
             _calculate_attack_damage sample_table a d
               (get_pokedex_completion (collector 1))
               (get_pokedex_completion (collector 1))
             = Ok 40%Z).
  { intros [] []; cbn [battle_power defence poketype]; intros -> -> -> ->.
    vm_compute. reflexivity. }
  unfold _battle_round. cbn [store]. rewrite E0, E1. cbn [speed].
  change (Qcompare 20 20) with Eq. cbv iota.
  (* side 1 attacks *)
  unfold strike at 1. cbn [store]. rewrite E0, E1.
  change (completion _ Side1) with (get_pokedex_completion (collector 1)).
  change (completion _ (other_side Side1)) with (get_pokedex_completion (collector 1)).
  rewrite Hd by reflexivity. cbn [bind].
  unfold _check_alive at 1. unfold hit. cbn [store set_store this].
  rewrite update_same, E1.
  rewrite lethal_blow by (first [reflexivity | exact L1]). cbn [negb].
  rewrite update_other by discriminate. rewrite E0.
  rewrite level_up_no_evolution by reflexivity. cbn [bind].
  cbn [send_back this set_store team_of trainer get_team trainer_1 poke_team
       team duel_round Battle_init solo_trainer push set_this set_team_of
       set_trainer set_poke_team set_team].
  cbn [bind].
  (* side 2 attacks *)
  unfold strike at 1. cbn [store set_store this set_this].
  rewrite update_same. rewrite (update_other _ 0%nat 1%nat) by discriminate.
  rewrite update_same.
  change (completion _ Side2) with (get_pokedex_completion (collector 1)).
  change (completion _ (other_side Side2)) with (get_pokedex_completion (collector 1)).
  rewrite Hd by reflexivity. cbn [bind].
  unfold _check_alive at 1. unfold hit. cbn [store set_store this set_this].
  rewrite update_same.
  rewrite lethal_blow by (first [reflexivity | exact L0]). cbn [negb].
  rewrite (update_other _ 0%nat 1%nat) by discriminate.
  rewrite (update_other _ 0%nat 1%nat) by discriminate.
  rewrite update_same.
  rewrite level_up_no_evolution by reflexivity. cbn [bind].
  cbn [send_back this set_store team_of trainer get_team trainer_1 trainer_2
       poke_team team duel_round Battle_init solo_trainer push set_this
       set_team_of set_trainer set_poke_team set_team].
  cbn [bind].
  unfold sudden_death_if_both_alive. cbn [store set_store set_this].
  rewrite (update_other _ 1%nat 0%nat) by discriminate.
  rewrite update_same.
  change (Qltb 0 (health (defend ?p ?d))) with (is_alive (defend p d)).
  rewrite lethal_blow by (first [reflexivity | exact L0]). cbn [andb].
  eexists. split; [reflexivity|].
  split; [reflexivity|].
  exists (h0 - 40), (h1 - 40), (l0 + 1)%Z, (l1 + 1)%Z.
  cbn [store set_store set_this].
  rewrite update_same, (update_other _ 1%nat 0%nat), update_same
    by discriminate.
  repeat split; try lra.
Qed.

Lemma duel_never_ends (fuel : nat) :
  forall st, duel_inv st ->
             _conduct_battle sample_table fuel SET st = None.
Proof.
  induction fuel as [|fuel IH]; intros st Hinv; [reflexivity|].
  destruct (duel_step st Hinv) as (st' & Hstep & Hinv').
  destruct Hinv as [Hb _]. cbn [_conduct_battle].
  rewrite Hb. cbn [len team_of duel this Battle_init trainer get_team
                   trainer_1 trainer_2 solo_trainer poke_team team
                   List.length Nat.eqb negb orb].
  rewrite Hstep. apply IH, Hinv'.
Qed.

Lemma duel_inv_duel : duel_inv duel.
Proof.
  split; [reflexivity|].
  exists 10, 10, 1%Z, 1%Z. repeat split; apply Qle_refl.
Qed.

(** C1, the failing battle: two Pokemon of equal speed bring each other
    down in the same round.  The Pokemon of side 1 is sent back before it
    is hit, the fainted Pokemon of side 2 is sent back after its own
    attack, so both teams hold a fainted Pokemon after the round, and the
    battle never comes to an end. *)
Theorem C1_fainted_sent_back_at_equal_speed :
  (exists st',
     battle_step sample_table SET duel = Ok st' /\
     team_of (this st') Side1 = ArrayStack [0%nat] /\
     team_of (this st') Side2 = ArrayStack [1%nat] /\
     health (store st' 0%nat) == - (30) /\
     health (store st' 1%nat) == - (30) /\
     is_alive (store st' 0%nat) = false /\
     is_alive (store st' 1%nat) = false) /\
  forall fuel, commence_battle sample_table fuel duel = None.
Proof.
  split.
  - destruct (battle_step sample_table SET duel) as [st'|e] eqn:E;
      vm_compute in E; [injection E as <- | discriminate E].
    eexists. split; [reflexivity|]. repeat split; vm_compute; reflexivity.
  - intros fuel. unfold commence_battle.
    change (battle_mode (this duel)) with SET.
    rewrite (duel_never_ends fuel duel duel_inv_duel). reflexivity.
Qed.

(** ** Regenerating a team *)

Lemma fold_left_push (a acc : list ref) :
  fold_left push a acc = rev a ++ acc.
Proof.
  revert acc. induction a as [|x a IH]; intros acc; simpl; [reflexivity|].
  rewrite IH. unfold push. rewrite <- app_assoc. reflexivity.
Qed.

Lemma fold_left_append (a acc : list ref) :
  fold_left append a acc = acc ++ a.
Proof.
  revert acc. induction a as [|x a IH]; intros acc; simpl.
  - rewrite app_nil_r. reflexivity.
  - rewrite IH. unfold append. rewrite <- app_assoc. reflexivity.
Qed.

Lemma drain_push_rev (src dst : list ref) :
  drain_push src dst = rev src ++ dst.
Proof. apply fold_left_push. Qed.

Lemma drain_append_app (src dst : list ref) :
  drain_append src dst = dst ++ src.
Proof. apply fold_left_append. Qed.

Lemma pop_push_conserves (n : nat) :
  forall src dst src' dst',
    pop_push n src dst = Ok (src', dst') ->
    Permutation (src' ++ dst') (src ++ dst).
Proof.
  induction n as [|n IH]; intros src dst src' dst' H; simpl in H.
  - injection H as <- <-. apply Permutation_refl.
  - destruct src as [|r src]; [discriminate|]. cbn [pop bind] in H.
    apply IH in H. rewrite H. unfold push.
    symmetry. apply Permutation_middle.
Qed.

Lemma serve_append_conserves (n : nat) :
  forall src dst src' dst',
    serve_append n src dst = Ok (src', dst') ->
    dst' ++ src' = dst ++ src.
Proof.
  induction n as [|n IH]; intros src dst src' dst' H; simpl in H.
  - injection H as <- <-. reflexivity.
  - destruct src as [|r src]; [discriminate|]. cbn [serve bind] in H.
    apply IH in H. rewrite H. unfold append.
    rewrite <- app_assoc. reflexivity.
Qed.

Lemma len_members (c : Container) : List.length (members c) = len c.
Proof. destruct c; simpl; try reflexivity. apply length_map. Qed.

Lemma map_value_negate (l : list ListItem) :
  map value (map negate l) = map value l.
Proof. rewrite map_map. reflexivity. Qed.

(** A special reorders: the team holds the same Pokemon afterwards. *)
Lemma special_members (battle_mode : BattleMode) (self self' : PokeTeam) :
  special battle_mode self = Ok self' ->
  Permutation (members (team self')) (members (team self)) /\
  team_memory self' = team_memory self.
Proof.
  unfold special. intros H.
  assert (Hempty : forall c, len c = O -> members c = []).
  { intros c Hc. rewrite <- len_members in Hc.
    destruct (members c); [reflexivity | discriminate]. }
  destruct battle_mode.
  - (* SET *)
    destruct (team self) as [a|s1|q|l] eqn:Et.
    2:{ inv_bind H. destruct a as [s1' s2]. injection H as <-.
        apply pop_push_conserves in Ha. rewrite app_nil_r in Ha.
        split; [|reflexivity]. cbn.
        rewrite !drain_push_rev, app_nil_r, rev_involutive.
        rewrite <- Ha. apply Permutation_app_comm. }
    all: destruct (_ =? 0)%nat; [|discriminate];
      injection H as <-; cbn; rewrite Et; split; reflexivity.
  - (* ROTATE *)
    destruct (team self) as [a|s1|q|l] eqn:Et.
    3:{ inv_bind H. destruct a as [s1' s3]. injection H as <-.
        apply serve_append_conserves in Ha. cbn [app] in Ha.
        split; [|reflexivity]. cbn.
        rewrite !drain_append_app, drain_push_rev, app_nil_r. cbn [app].
        rewrite <- Ha. apply Permutation_app_head. symmetry.
        apply Permutation_rev. }
    all: destruct (_ =? 0)%nat; [|discriminate];
      injection H as <-; cbn; rewrite Et; split; reflexivity.
  - (* OPTIMISE *)
    destruct (team self) as [a|s1|q|l] eqn:Et.
    4:{ destruct (special_optimise_loop_Permutation l []) as (r & Hr & Hp).
        rewrite Hr in H. cbn [bind] in H. injection H as <-.
        split; [|reflexivity]. cbn.
        rewrite app_nil_r in Hp. rewrite Hp. rewrite map_value_negate.
        apply Permutation_refl. }
    all: destruct (_ =? 0)%nat eqn:E; [|discriminate];
      injection H as <-; apply Nat.eqb_eq in E; apply Hempty in E;
      cbn in *; rewrite E; split; reflexivity.
Qed.

Lemma assign_team_loop_members (h : Store) (criterion : option string)
      (a : list ref) :
  forall acc l,
    assign_team_loop h criterion a acc = Ok l ->
    Permutation (map value l) (a ++ map value acc).
Proof.
  induction a as [|x a IH]; intros acc l H; simpl in H.
  - injection H as <-. apply Permutation_refl.
  - inv_bind H. apply IH in H. rewrite H.
    rewrite (Permutation_map value (add_Permutation acc _)). cbn.
    symmetry. apply Permutation_middle.
Qed.

(** Assembling a chosen team puts every Pokemon of the array into the
    container. *)
Lemma assemble_team_members (h : Store) (battle_mode : BattleMode)
      (criterion : option string) (self self' : PokeTeam) (a : list ref) :
  team self = ArrayR a ->
  assemble_team h battle_mode criterion self = Ok self' ->
  Permutation (members (team self')) a /\
  team_memory self' = team_memory self /\
  special_counter self' = special_counter self.
Proof.
  intros Et H. unfold assemble_team, assign_team in H. rewrite Et in H.
  destruct battle_mode.
  - injection H as <-. cbn. rewrite fold_left_push, app_nil_r.
    split; [symmetry; apply Permutation_rev | split; reflexivity].
  - injection H as <-. cbn. rewrite fold_left_append.
    split; [apply Permutation_refl | split; reflexivity].
  - inv_bind H. injection H as <-. cbn.
    apply assign_team_loop_members in Ha. rewrite app_nil_r in Ha.
    split; [exact Ha | split; reflexivity].
Qed.

(** The first loop of [regenerate_team] gives every Pokemon of the memory
    the health its class starts with and changes nothing else. *)
Lemma regenerate_health_spec (POKE_LIST : list string) (POKE_HEALTH : list Q)
      (memory : list ref) :
  forall h h',
    regenerate_health POKE_LIST POKE_HEALTH h memory = Ok h' ->
    forall r,
      (In r memory ->
       exists i baseline,
         index (klass (h r)) POKE_LIST = Ok i /\
         nth_error POKE_HEALTH i = Some baseline /\
         h' r = set_health baseline (h r)) /\
      (~ In r memory -> h' r = h r).
Proof.
  induction memory as [|x memory IH]; intros h h' H r; simpl in H.
  - injection H as <-. split; [intros [] | reflexivity].
  - inv_bind H. rename a into i, Ha into Hi.
    inv_bind H. rename a into b, Ha into Hb.
    unfold getitem in Hb.
    destruct (nth_error POKE_HEALTH i) as [b'|] eqn:En; [|discriminate].
    injection Hb as ->.
    specialize (IH _ _ H r). destruct IH as [IHin IHout].
    destruct (Nat.eq_dec r x) as [->|Hne].
    + split; [intros _ | intros Hn; exfalso; apply Hn; left; reflexivity].
      destruct (in_dec Nat.eq_dec x memory) as [Hx|Hx].
      * destruct (IHin Hx) as (i' & b' & Hi' & Hb' & Hh').
        rewrite update_same in Hi', Hh'. cbn in Hi'.
        exists i', b'. repeat split; assumption.
      * rewrite (IHout Hx), update_same. exists i, b. repeat split; assumption.
    + split.
      * intros [Hx|Hx]; [congruence|].
        destruct (IHin Hx) as (i' & b' & Hi' & Hb' & Hh').
        rewrite update_other in Hi', Hh' by exact Hne.
        exists i', b'. repeat split; assumption.
      * intros Hn. rewrite IHout by (intros Hx; apply Hn; right; exact Hx).
        apply update_other. exact Hne.
Qed.

(** C7, counterexample: in the battle of [mismatch] the Pokemon of side 2
    faints and leaves its team, which ends empty; the team's memory is
    the array it was chosen into and still holds it, so the regenerated
    team holds it again, at the health its class starts with. *)
Lemma C7_counterexample_fainted_returns :
  (exists st h' self',
     commence_battle sample_table 5 mismatch = Some (Ok (Some Side1, st)) /\
     members (team_of (this st) Side2) = [] /\
     is_alive (store st 1%nat) = false /\
     regenerate_team mismatch_POKE_LIST mismatch_POKE_HEALTH ROTATE None
                     (store st) (get_team (trainer_2 (this st)))
     = Ok (h', self') /\
     members (team self') = [1%nat] /\
     health (h' 1%nat) == 10 /\
     level (h' 1%nat) = level (store st 1%nat)) /\
  ~ fainted_stay_out.
Proof.
  assert (H : exists st h' self',
     commence_battle sample_table 5 mismatch = Some (Ok (Some Side1, st)) /\
     members (team_of (this st) Side2) = [] /\
     is_alive (store st 1%nat) = false /\
     regenerate_team mismatch_POKE_LIST mismatch_POKE_HEALTH ROTATE None
                     (store st) (get_team (trainer_2 (this st)))
     = Ok (h', self') /\
     members (team self') = [1%nat] /\
     health (h' 1%nat) == 10 /\
     level (h' 1%nat) = level (store st 1%nat)).
  { evaluate (commence_battle sample_table 5 mismatch).
    do 3 eexists. split; [reflexivity|]. repeat split; reflexivity. }
  split; [exact H|].
  destruct H as (st & h' & self' & _ & Hout & Hdead & Hregen & Hin & _).
  intros C.
  apply (C _ _ _ _ _ _ _ _ 1%nat Hdead) in Hregen.
  - apply Hregen. rewrite Hin. left. reflexivity.
  - intros Hin'. change (In 1%nat (members (team_of (this st) Side2))) in Hin'.
    rewrite Hout in Hin'. exact Hin'.
Qed.

(** C7, amended: [regenerate_team] gives the health its class starts with
    to every Pokemon of the team memory, which is the array the team was
    chosen into, and assembles the team from that array; so the
    regenerated team holds every chosen Pokemon, those that fainted in a
    battle and left the container included.  Only the health is
    rewritten: level, name, evolution line and the other stats stay. *)
Theorem C7_regenerate_team_amended
    (POKE_LIST : list string) (POKE_HEALTH : list Q)
    (battle_mode : BattleMode) (criterion : option string)
    (h h' : Store) (self self' : PokeTeam) (memory : list ref) :
  team_memory self = Some memory ->
  regenerate_team POKE_LIST POKE_HEALTH battle_mode criterion h self
  = Ok (h', self') ->
  Permutation (members (team self')) memory /\
  team_memory self' = Some memory /\
  (forall r, In r memory ->
     In r (members (team self')) /\
     exists i baseline,
       index (klass (h r)) POKE_LIST = Ok i /\
       nth_error POKE_HEALTH i = Some baseline /\
       h' r = set_health baseline (h r)) /\
  (forall r, ~ In r memory -> h' r = h r).
Proof.
  intros Hm H. unfold regenerate_team in H. rewrite Hm in H.
  inv_bind H. rename a into h1, Ha into Hh.
  inv_bind H. rename a into s1, Ha into Ha1.
  destruct (assemble_team_members h1 battle_mode criterion
              (set_team (ArrayR memory) self) s1 memory eq_refl Ha1)
    as (P1 & M1 & C1).
  cbn [team_memory set_team] in M1.
  assert (Hfinal : h' = h1 /\
                   Permutation (members (team self')) memory /\
                   team_memory self' = Some memory).
  { destruct (_ =? 1)%nat.
    - inv_bind H. injection H as <- <-.
      destruct (special_members _ _ _ Ha) as [P2 M2].
      split; [reflexivity|]. split.
      + rewrite P2. exact P1.
      + rewrite M2, M1. exact Hm.
    - injection H as <- <-. split; [reflexivity|]. split.
      + exact P1.
      + rewrite M1. exact Hm. }
  destruct Hfinal as (-> & P & M).
  pose proof (regenerate_health_spec _ _ _ _ _ Hh) as Hspec.
  split; [exact P|]. split; [exact M|]. split.
  - intros r Hr. split.
    + apply (Permutation_in r (Permutation_sym P) Hr).
    + apply (Hspec r). exact Hr.
  - intros r Hr. apply (Hspec r). exact Hr.
Qed.

Lemma C7_regenerate_team_amended_witness :
  exists h' self',
    regenerate_team mismatch_POKE_LIST mismatch_POKE_HEALTH ROTATE None
                    spent_store spent_team = Ok (h', self') /\
    is_alive (spent_store 1%nat) = false /\
    In 1%nat (members (team self')) /\
    exists i baseline,
      index (klass (spent_store 1%nat)) mismatch_POKE_LIST = Ok i /\
      nth_error mismatch_POKE_HEALTH i = Some baseline /\
      h' 1%nat = set_health baseline (spent_store 1%nat).
Proof.
  assert (H : {x | regenerate_team mismatch_POKE_LIST mismatch_POKE_HEALTH
                     ROTATE None spent_store spent_team = Ok x})
    by (eexists; reflexivity).
  destruct H as [[h' self'] H]. exists h', self'.
  split; [exact H|]. split; [reflexivity|].
  destruct (C7_regenerate_team_amended mismatch_POKE_LIST mismatch_POKE_HEALTH
              ROTATE None spent_store h' spent_team self' [1%nat] eq_refl H)
    as (_ & _ & Hin & _).
  apply Hin. left. reflexivity.
Defined.

(** ** Regenerating succeeds *)

Lemma pop_push_ok (n : nat) :
  forall src dst, (n <= List.length src)%nat ->
                  exists r, pop_push n src dst = Ok r.
Proof.
  induction n as [|n IH]; intros src dst H; simpl.
  - eexists. reflexivity.
  - destruct src as [|x src]; [simpl in H; lia|]. cbn [pop bind].
    apply IH. simpl in H. lia.
Qed.

Lemma serve_append_ok (n : nat) :
  forall src dst, (n <= List.length src)%nat ->
                  exists r, serve_append n src dst = Ok r.
Proof.
  induction n as [|n IH]; intros src dst H; simpl.
  - eexists. reflexivity.
  - destruct src as [|x src]; [simpl in H; lia|]. cbn [serve bind].
    apply IH. simpl in H. lia.
Qed.

(** A special succeeds on a team assembled for its mode. *)
Lemma special_ok (battle_mode : BattleMode) (self : PokeTeam) :
  kind_of_mode battle_mode (team self) ->
  exists self', special battle_mode self = Ok self'.
Proof.
  unfold special, kind_of_mode.
  destruct battle_mode; destruct (team self) as [a|s|q|l] eqn:Et;
    try contradiction; intros _.
  - destruct (pop_push_ok (List.length s / 2) s [])
      as [[s1 s2] Hr]; [apply Nat.Div0.div_le_upper_bound; lia|].
    rewrite Hr. eexists. reflexivity.
  - destruct (serve_append_ok (List.length q / 2) q [])
      as [[s1 s3] Hr]; [apply Nat.Div0.div_le_upper_bound; lia|].
    rewrite Hr. eexists. reflexivity.
  - destruct (special_optimise_loop_Permutation l []) as (r & Hr & _).
    rewrite Hr. eexists. reflexivity.
Qed.

Lemma assign_team_loop_ok (h : Store) (c : string) (a : list ref) :
  In c CRITERION_LIST ->
  forall acc, exists l, assign_team_loop h (Some c) a acc = Ok l.
Proof.
  intros Hc. induction a as [|x a IH]; intros acc; cbn [assign_team_loop].
  - eexists. reflexivity.
  - assert (E : existsb (String.eqb c) CRITERION_LIST = true).
    { apply existsb_exists. exists c. split; [exact Hc|].
      apply String.eqb_refl. }
    rewrite E. destruct (getattr_ok (h x) c Hc) as [k Hk].
    rewrite Hk. cbn [bind]. apply IH.
Qed.

(** Assembling a chosen team succeeds (in OPTIMISE mode under a criterion
    of [CRITERION_LIST]) and gives the container of the mode. *)
Lemma assemble_team_ok (h : Store) (battle_mode : BattleMode)
      (criterion : option string) (self : PokeTeam) (a : list ref) :
  team self = ArrayR a ->
  (battle_mode = OPTIMISE ->
   exists c, criterion = Some c /\ In c CRITERION_LIST) ->
  exists self',
    assemble_team h battle_mode criterion self = Ok self' /\
    kind_of_mode battle_mode (team self').
Proof.
  intros Et Hc. unfold assemble_team, assign_team. rewrite Et.
  destruct battle_mode.
  - eexists. split; [reflexivity | exact I].
  - eexists. split; [reflexivity | exact I].
  - destruct (Hc eq_refl) as (c & -> & Hin).
    destruct (assign_team_loop_ok h c a Hin []) as [l Hl].
    rewrite Hl. eexists. split; [reflexivity | exact I].
Qed.

Lemma regenerate_health_ok (POKE_LIST : list string) (POKE_HEALTH : list Q)
      (memory : list ref) :
  forall h,
    (forall r, In r memory ->
       exists i baseline, index (klass (h r)) POKE_LIST = Ok i /\
                          nth_error POKE_HEALTH i = Some baseline) ->
    exists h', regenerate_health POKE_LIST POKE_HEALTH h memory = Ok h'.
Proof.
  induction memory as [|x memory IH]; intros h Hcat; simpl.
  - eexists. reflexivity.
  - destruct (Hcat x (or_introl eq_refl)) as (i & b & Hi & Hb).
    rewrite Hi. cbn [bind]. unfold getitem. rewrite Hb. cbn [bind].
    apply IH. intros r Hr.
    destruct (Hcat r (or_intror Hr)) as (i' & b' & Hi' & Hb').
    exists i', b'. split; [|exact Hb'].
    unfold update. destruct (r =? x)%nat eqn:E; [|exact Hi'].
    apply Nat.eqb_eq in E. subst r. exact Hi'.
Qed.

(** [regenerate_team] succeeds on a chosen team whose classes are in the
    catalog (in OPTIMISE mode under a criterion of [CRITERION_LIST]). *)
Lemma regenerate_team_ok (POKE_LIST : list string) (POKE_HEALTH : list Q)
      (battle_mode : BattleMode) (criterion : option string)
      (h : Store) (self : PokeTeam) (memory : list ref) :
  team_memory self = Some memory ->
  (forall r, In r memory ->
     exists i baseline, index (klass (h r)) POKE_LIST = Ok i /\
                        nth_error POKE_HEALTH i = Some baseline) ->
  (battle_mode = OPTIMISE ->
   exists c, criterion = Some c /\ In c CRITERION_LIST) ->
  exists h' self',
    regenerate_team POKE_LIST POKE_HEALTH battle_mode criterion h self
    = Ok (h', self').
Proof.
  intros Hm Hcat Hc. unfold regenerate_team. rewrite Hm.
  destruct (regenerate_health_ok _ _ _ _ Hcat) as [h1 Hh].
  rewrite Hh. cbn [bind].
  destruct (assemble_team_ok h1 battle_mode criterion
              (set_team (ArrayR memory) self) memory eq_refl Hc)
    as (s1 & Ha & Hk).
  rewrite Ha. cbn [bind].
  destruct (_ =? 1)%nat.
  - destruct (special_ok battle_mode s1 Hk) as [s2 Hs].
    rewrite Hs. do 2 eexists. reflexivity.
  - do 2 eexists. reflexivity.
Qed.

(** ** Completion ratios in a battle *)

Lemma bset_add_len (s : BSet) (i : nat) : (1 <= bset_len (bset_add s i))%nat.
Proof.
  unfold bset_add, bset_len.
  destruct (existsb (Nat.eqb i) s) eqn:E; [|simpl; lia].
  destruct s; [discriminate | simpl; lia].
Qed.

(** A trainer that has registered a Pokemon has a positive completion
    ratio, so the division in the damage of an attack is defined in every
    round of a battle. *)
Lemma completion_after_register_pos (t : Trainer) (p : Pokemon) :
  0 < get_pokedex_completion (register_pokemon t p).
Proof.
  unfold get_pokedex_completion, register_pokemon. cbn [pokedex].
  pose proof (bset_add_len (pokedex t) (PokeType_value (poketype p) + 1)) as H.
  generalize dependent (bset_len (bset_add (pokedex t)
                                           (PokeType_value (poketype p) + 1))).
  intros n H.
  unfold round2, len_PokeType.
  assert (Hn : 1 <= inject_Z (Z.of_nat n)).
  { change 1 with (inject_Z 1). rewrite <- Zle_Qle. lia. }
  set (q := inject_Z (Z.of_nat n) / inject_Z (Z.of_nat 15)).
  assert (Hq : 1 # 15 <= q).
  { unfold q. change (inject_Z (Z.of_nat 15)) with 15.
    unfold Qdiv. change (/ 15) with (1 # 15). lra. }
  assert (Hq0 : 0 < q) by lra.
  destruct (rnd_near q Hq0) as [L _].
  assert (He : (1 # 15) * (1 - eps) <= q * (1 - eps)).
  { apply Qmult_le_compat_r; [exact Hq | vm_compute; discriminate]. }
  assert (Hc : 1 # 16 <= (1 # 15) * (1 - eps)) by (vm_compute; discriminate).
  destruct (round_half_even_near (rnd q * 100)) as [K _].
  apply rnd_pos. apply Qlt_shift_div_l; [reflexivity|]. lra.
Qed.

(** ** Witnesses on concrete battles *)

(** The teams of the examples are what choosing by hand and assembling
    leave. *)
Example solo_team_assembled :
  assemble_team mismatch_store ROTATE None
                (choose_manually [1%nat] PokeTeam_init)
  = Ok (get_team (solo_trainer "Enemy" (CircularQueue [1%nat]) 1%nat)).
Proof. reflexivity. Qed.

(** A draw: each attack takes 1 health, the sudden death takes the last
    one from both, and both teams are empty at once. *)
Example draw_after_sudden_death :
  exists st',
    commence_battle sample_table 5 sturdy = Some (Ok (None, st')) /\
    team_of (this st') Side1 = ArrayStack [] /\
    team_of (this st') Side2 = ArrayStack [] /\
    health (store st' 0%nat) == 0 /\ health (store st' 1%nat) == 0.
Proof.
  evaluate (commence_battle sample_table 5 sturdy).
  eexists. repeat split; reflexivity.
Qed.

(** The same draw on an object that has decided a battle for trainer 1:
    nothing is returned but the field, and the field is not written in a
    draw. *)
Example draw_on_a_used_battle :
  exists st',
    commence_battle sample_table 5 sturdy_used
    = Some (Ok (Some Side1, st')) /\
    team_of (this st') Side1 = ArrayStack [] /\
    team_of (this st') Side2 = ArrayStack [] /\
    is_alive (store st' 0%nat) = false /\
    is_alive (store st' 1%nat) = false.
Proof.
  evaluate (commence_battle sample_table 5 sturdy_used).
  eexists. repeat split; reflexivity.
Qed.

Lemma C2_equal_speed_round_witness :
  0%nat <> 1%nat /\
  speed (store uneven_round 0%nat) == speed (store uneven_round 1%nat) /\
  exists st' d1 sB d2 sD,
    _battle_round sample_table 0%nat 1%nat uneven_round = Ok st' /\
    d1 = 45%Z /\
    health (store sB 1%nat) == - (35) /\
    is_alive (store sB 1%nat) = false /\
    d2 = 2%Z /\
    health (store sD 0%nat) == 99 /\
    st' = sD.
Proof.
  assert (Hne : 0%nat <> 1%nat) by discriminate.
  assert (Hs : speed (store uneven_round 0%nat)
               == speed (store uneven_round 1%nat)) by reflexivity.
  split; [exact Hne|]. split; [exact Hs|].
  destruct (_battle_round sample_table 0%nat 1%nat uneven_round)
    as [st'|e] eqn:H; [|vm_compute in H; discriminate H].
  destruct (proj1 (C2_equal_speed_round sample_table 0%nat 1%nat uneven_round
                     Hne Hs st') H)
    as (d1 & sB & d2 & sD & (H1 & HB & H2 & HD & Hsd)
        & (S2 & Hh2 & L1) & (S1 & Hh1 & L2)).
  vm_compute in H1. injection H1 as <-.
  assert (B2 : health (store sB 1%nat) == - (35))
    by (rewrite Hh2; vm_compute; reflexivity).
  assert (A2 : is_alive (store sB 1%nat) = false)
    by (rewrite S2; vm_compute; reflexivity).
  pose proof HB as EB. vm_compute in EB. injection EB as EB.
  rewrite <- EB in H2. vm_compute in H2. injection H2 as <-.
  assert (B1 : health (store sD 0%nat) == 99)
    by (rewrite Hh1, <- EB; vm_compute; reflexivity).
  assert (A1 : is_alive (defend (store sB 0%nat) (inject_Z 2)) = true)
    by (rewrite <- EB; vm_compute; reflexivity).
  rewrite S1, A1 in L2. rewrite S1, L2, <- EB in Hsd. vm_compute in Hsd.
  exists st', 45%Z, sB, 2%Z, sD.
  repeat (split; [first [reflexivity | assumption]|]). exact Hsd.
Defined.

Lemma C5_sudden_death_witness :
  exists st',
    _sudden_death 0%nat 1%nat tired = Ok st' /\
    level (store st' 0%nat) = 2%Z /\
    level (store st' 1%nat) = 1%Z /\
    team_of (this st') Side2 = ArrayStack [].
Proof.
  assert (Hne : 0%nat <> 1%nat) by discriminate.
  assert (Hready : ready (this tired)).
  { split; [left; reflexivity | exact I]. }
  assert (Hs0 : stage_in_line (store tired 0%nat)) by (left; reflexivity).
  assert (Hs1 : stage_in_line (store tired 1%nat)) by (left; reflexivity).
  destruct (C5_sudden_death 0%nat 1%nat tired Hne Hready Hs0 Hs1)
    as (st' & H & _ & _ & Hcase & _).
  exists st'. split; [exact H|].
  destruct Hcase as (_ & Hl & H2 & _ & Ht).
  { reflexivity. }
  { vm_compute. discriminate. }
  split; [exact Hl|]. split; [rewrite H2; reflexivity | exact Ht].
Defined.

Lemma C6_commence_battle_returns_winner_trainer_witness :
  exists st',
    commence_battle sample_table 5 sturdy_used
    = Some (Ok (Some Side1, st')) /\
    len (team_of (this st') Side1) = O /\
    len (team_of (this st') Side2) = O /\
    Some Side1 = winner_trainer (this sturdy_used).
Proof.
  destruct (commence_battle sample_table 5 sturdy_used)
    as [[[w st']|e]|] eqn:H;
    [|vm_compute in H; discriminate H|vm_compute in H; discriminate H].
  assert (Hw : w = Some Side1).
  { vm_compute in H. injection H as H _. symmetry. exact H. }
  subst w. exists st'. split; [reflexivity|].
  assert (H1 : len (team_of (this st') Side1) = O).
  { vm_compute in H. injection H as <-. reflexivity. }
  assert (H2 : len (team_of (this st') Side2) = O).
  { vm_compute in H. injection H as <-. reflexivity. }
  split; [exact H1|]. split; [exact H2|].
  destruct (C6_commence_battle_returns_winner_trainer
              sample_table 5 sturdy_used st' (Some Side1) H)
    as (_ & _ & _ & Hdraw & _).
  apply Hdraw. split; assumption.
Defined.

(* ------------------------------------------------------------------ *)
(** ** Further properties of [pokemon_base.py] *)

Lemma index_not_In (x : string) (l : list string) :
  ~ In x l -> index x l = Raise ValueError.
Proof.
  induction l as [|y l IH]; simpl; intros H; [reflexivity|].
  destruct (String.eqb y x) eqn:E.
  - apply String.eqb_eq in E. exfalso. apply H. left. exact E.
  - rewrite IH by (intros Hin; apply H; right; exact Hin). reflexivity.
Qed.

Lemma stage_in_line_dec (p : Pokemon) : {stage_in_line p} + {~ stage_in_line p}.
Proof.
  unfold stage_in_line.
  destruct (evolution_line p) as [|s l] eqn:E; [left; left; reflexivity|].
  destruct (in_dec string_dec (name p) (s :: l)) as [H|H].
  - left. right. exact H.
  - right. intros [K|K]; [discriminate | contradiction].
Qed.

Lemma level_up_missing_name (p : Pokemon) :
  ~ stage_in_line p -> level_up p = Raise ValueError.
Proof.
  intros H. unfold level_up. cbn [evolution_line name set_level].
  destruct (evolution_line p) as [|s l] eqn:E.
  - exfalso. apply H. left. exact E.
  - change (0 <? List.length (s :: l))%nat with true. cbv iota.
    rewrite index_not_In; [reflexivity|].
    intros Hin. apply H. right. rewrite E. exact Hin.
Qed.

Lemma level_up_Ok_stage_in_line (p p' : Pokemon) :
  level_up p = Ok p' -> stage_in_line p.
Proof.
  intros Hp'. destruct (stage_in_line_dec p) as [H|H]; [exact H|].
  rewrite (level_up_missing_name p H) in Hp'. discriminate.
Qed.

(** X1: [level_up] succeeds exactly when the evolution line is empty or
    holds the name; otherwise the search for the name raises
    [ValueError], the only exception a level-up can raise. *)
Theorem level_up_raises_only_for_missing_name (p : Pokemon) :
  (stage_in_line p <-> exists p', level_up p = Ok p') /\
  (~ stage_in_line p <-> level_up p = Raise ValueError) /\
  (forall e, level_up p = Raise e -> e = ValueError).
Proof.
  assert (Hgood : stage_in_line p -> exists p', level_up p = Ok p').
  { intros H. destruct (level_up_total p H) as (p' & Hp' & _).
    exists p'. exact Hp'. }
  split; [|split].
  - split; [exact Hgood|]. intros [p' Hp'].
    exact (level_up_Ok_stage_in_line p p' Hp').
  - split; [apply level_up_missing_name|]. intros Hr H.
    destruct (Hgood H) as [p' Hp']. rewrite Hp' in Hr. discriminate.
  - intros e He. destruct (stage_in_line_dec p) as [H|H].
    + destruct (Hgood H) as [p' Hp']. rewrite Hp' in He. discriminate.
    + rewrite (level_up_missing_name p H) in He. injection He as <-.
      reflexivity.
Qed.

Lemma level_up_stage_in_line (p p' : Pokemon) :
  level_up p = Ok p' -> stage_in_line p'.
Proof.
  intros H.
  destruct (level_up_Ok_stage_in_line p p' H) as [Hnil|Hin].
  - rewrite (level_up_no_evolution p Hnil) in H. injection H as <-.
    left. exact Hnil.
  - destruct (index_In _ _ Hin) as [i Hi].
    rewrite (level_up_at p i Hi) in H.
    destruct (i =? List.length (evolution_line p) - 1)%nat.
    + injection H as <-. right. exact Hin.
    + destruct (nth_error (evolution_line p) (S i)) as [n|] eqn:En;
        [|discriminate].
      injection H as <-. right. cbn.
      destruct (evolution_line p) as [|s l]; [discriminate|].
      cbn in *. apply nth_error_In in En. exact En.
Qed.

(** X2: a Pokemon whose name is a stage of its line (or whose line is
    empty) can be levelled up any number of times: no call raises, the
    level grows by the number of calls, and the Pokemon is alive after
    the calls exactly if it was before. *)
Theorem level_ups_never_raise (n : nat) (p : Pokemon) :
  stage_in_line p ->
  exists p',
    level_ups n p = Ok p' /\
    level p' = (level p + Z.of_nat n)%Z /\
    stage_in_line p' /\
    is_alive p' = is_alive p /\
    klass p' = klass p /\ poketype p' = poketype p.
Proof.
  revert p. induction n as [|n IH]; intros p Hs.
  - exists p. cbn [level_ups]. repeat split; try assumption. cbn. lia.
  - destruct (level_up_total p Hs) as (p1 & H1 & L1).
    destruct (IH p1 (level_up_stage_in_line p p1 H1))
      as (p' & Hn & Ln & Hs' & Ha & Hk & Ht).
    exists p'. cbn [level_ups]. rewrite H1. cbn [bind].
    split; [exact Hn|]. split; [rewrite Ln, L1; lia|].
    split; [exact Hs'|].
    split; [rewrite Ha; exact (level_up_is_alive p p1 H1)|].
    assert (Hsame : klass p1 = klass p /\ poketype p1 = poketype p).
    { unfold level_up in H1.
      destruct (0 <? _)%nat; [|injection H1 as <-; split; reflexivity].
      inv_bind H1.
      destruct (negb _); [|injection H1 as <-; split; reflexivity].
      unfold _evolve in H1. inv_bind H1. inv_bind H1. inv_bind H1.
      injection H1 as <-. split; reflexivity. }
    destruct Hsame as [Hk1 Ht1]. split; congruence.
Qed.

Lemma level_ups_never_raise_witness :
  exists p', level_ups 5 bulbasaur = Ok p' /\ level p' = 6%Z /\
             name p' = "Venusaur"%string.
Proof.
  assert (Hs : stage_in_line bulbasaur) by (right; left; reflexivity).
  destruct (level_ups_never_raise 5 bulbasaur Hs) as (p' & H & L & _).
  exists p'. split; [exact H|]. split; [exact L|].
  vm_compute in H. injection H as <-. reflexivity.
Defined.

Lemma last_cons_default {A : Type} (l : list A) :
  forall a d, last (a :: l) d = last l a.
Proof.
  induction l as [|b l IH]; intros a d; [reflexivity|].
  change (last (a :: b :: l) d) with (last (b :: l) d).
  rewrite (IH b d), (IH b a). reflexivity.
Qed.

Lemma level_up_first_stage (p : Pokemon) (n1 : string) (rest : list string) :
  evolution_line p = name p :: n1 :: rest ->
  level_up p =
  Ok (apply_multiplier (3 # 2)
        (set_evolution_line (n1 :: rest)
           (set_name n1 (set_level (level p + 1) p)))).
Proof.
  intros El.
  assert (Hi : index (name p) (evolution_line p) = Ok O).
  { rewrite El. simpl. rewrite String.eqb_refl. reflexivity. }
  rewrite (level_up_at p O Hi). rewrite El. reflexivity.
Qed.

Lemma level_up_last_stage (p : Pokemon) :
  evolution_line p = [name p] ->
  level_up p = Ok (set_level (level p + 1) p).
Proof.
  intros El.
  assert (Hi : index (name p) (evolution_line p) = Ok O).
  { rewrite El. simpl. rewrite String.eqb_refl. reflexivity. }
  rewrite (level_up_at p O Hi). rewrite El. reflexivity.
Qed.

Lemma level_ups_at_last_stage (m : nat) :
  forall p, evolution_line p = [name p] ->
  exists p', level_ups m p = Ok p' /\
             name p' = name p /\ evolution_line p' = evolution_line p /\
             battle_power p' = battle_power p /\ health p' = health p /\
             speed p' = speed p /\ defence p' = defence p.
Proof.
  induction m as [|m IH]; intros p El.
  - exists p. repeat split; reflexivity.
  - cbn [level_ups]. rewrite (level_up_last_stage p El). cbn [bind].
    destruct (IH (set_level (level p + 1) p) El) as (p' & H & R).
    exists p'. split; [exact H | exact R].
Qed.

(** X3: a Pokemon at the first stage of its line reaches the last stage
    after as many level-ups as there are later stages: each of them
    evolves it, so the four stats are multiplied by 1.5 that many times
    and the line is left with the last stage alone; every level-up after
    that leaves name, line and stats as they are. *)
Theorem level_ups_reach_last_stage (rest : list string) :
  forall p,
    evolution_line p = name p :: rest ->
    exists p',
      level_ups (List.length rest) p = Ok p' /\
      name p' = last rest (name p) /\
      evolution_line p' = [name p'] /\
      battle_power p' == battle_power p * Qpow (3 # 2) (List.length rest) /\
      health p' == health p * Qpow (3 # 2) (List.length rest) /\
      speed p' == speed p * Qpow (3 # 2) (List.length rest) /\
      defence p' == defence p * Qpow (3 # 2) (List.length rest) /\
      forall m, exists p'',
        level_ups m p' = Ok p'' /\
        name p'' = name p' /\ evolution_line p'' = evolution_line p' /\
        battle_power p'' = battle_power p' /\ health p'' = health p' /\
        speed p'' = speed p' /\ defence p'' = defence p'.
Proof.
  induction rest as [|n1 rest IH]; intros p El.
  - exists p. cbn [level_ups List.length Qpow last].
    split; [reflexivity|]. split; [reflexivity|]. split; [exact El|].
    repeat (split; [ring|]).
    intros m. apply level_ups_at_last_stage. exact El.
  - cbn [level_ups List.length]. rewrite (level_up_first_stage p n1 rest El).
    cbn [bind].
    set (p1 := apply_multiplier _ _).
    destruct (IH p1 eq_refl) as (p' & H & Hn & Hl & Hb & Hh & Hsp & Hd & Hm).
    exists p'. split; [exact H|].
    split.
    { rewrite Hn. change (name p1) with n1.
      symmetry. apply last_cons_default. }
    split; [exact Hl|].
    cbn [Qpow]. subst p1. cbn in Hb, Hh, Hsp, Hd.
    split; [rewrite Hb; ring|]. split; [rewrite Hh; ring|].
    split; [rewrite Hsp; ring|]. split; [rewrite Hd; ring|].
    exact Hm.
Qed.

Lemma level_ups_reach_last_stage_witness :
  exists p',
    level_ups 2 bulbasaur = Ok p' /\
    name p' = "Venusaur"%string /\
    evolution_line p' = ["Venusaur"]%string /\
    battle_power p' == 45 # 4.
Proof.
  destruct (level_ups_reach_last_stage ["Ivysaur"; "Venusaur"]%string
              bulbasaur eq_refl) as (p' & H & Hn & Hl & Hb & _).
  exists p'. split; [exact H|]. split; [exact Hn|].
  split; [rewrite Hl, Hn; reflexivity|].
  rewrite Hb. reflexivity.
Defined.

(* ------------------------------------------------------------------ *)
(** ** Further properties of [poke_team.py]: the special *)

Lemma half_le (n : nat) : (n / 2 <= n)%nat.
Proof. pose proof (Nat.Div0.mul_div_le n 2). lia. Qed.

Lemma pop_push_firstn (n : nat) :
  forall src dst, (n <= List.length src)%nat ->
    pop_push n src dst = Ok (skipn n src, rev (firstn n src) ++ dst).
Proof.
  induction n as [|n IH]; intros src dst Hn; [reflexivity|].
  destruct src as [|r src]; [simpl in Hn; lia|].
  cbn [pop_push pop bind]. rewrite IH by (simpl in Hn; lia).
  unfold push. cbn [skipn firstn rev]. rewrite <- app_assoc. reflexivity.
Qed.

Lemma serve_append_firstn (n : nat) :
  forall src dst, (n <= List.length src)%nat ->
    serve_append n src dst = Ok (skipn n src, dst ++ firstn n src).
Proof.
  induction n as [|n IH]; intros src dst Hn.
  - cbn [serve_append skipn firstn]. rewrite app_nil_r. reflexivity.
  - destruct src as [|r src]; [simpl in Hn; lia|].
    cbn [serve_append serve bind]. rewrite IH by (simpl in Hn; lia).
    unfold append. cbn [skipn firstn]. rewrite <- app_assoc. reflexivity.
Qed.

Lemma special_SET_stack (self : PokeTeam) (s : list ref) :
  team self = ArrayStack s ->
  special SET self
  = Ok (incr_special_counter
          (set_team (ArrayStack (rev (firstn (List.length s / 2) s)
                                 ++ skipn (List.length s / 2) s)) self)).
Proof.
  intros Ht. unfold special. rewrite Ht.
  rewrite (pop_push_firstn _ s [] (half_le _)). cbn [bind].
  rewrite !drain_push_rev, !app_nil_r, rev_involutive. reflexivity.
Qed.

Lemma special_ROTATE_queue (self : PokeTeam) (q : list ref) :
  team self = CircularQueue q ->
  special ROTATE self
  = Ok (incr_special_counter
          (set_team (CircularQueue (firstn (List.length q / 2) q
                                    ++ rev (skipn (List.length q / 2) q)))
                    self)).
Proof.
  intros Ht. unfold special. rewrite Ht.
  rewrite (serve_append_firstn _ q [] (half_le _)). cbn [bind].
  rewrite !drain_append_app, drain_push_rev, !app_nil_r. reflexivity.
Qed.

(** X4: in SET mode [special] reverses the upper half of the stack (the
    [len // 2] Pokemon on top) and leaves the rest in place; it never
    raises on a stack, and a second call gives back the order the team
    had, with the counter two higher. *)
Theorem special_SET_reverses_upper_half (self : PokeTeam) (s : list ref) :
  team self = ArrayStack s ->
  let k := (List.length s / 2)%nat in
  exists s1 s2,
    special SET self = Ok s1 /\
    team s1 = ArrayStack (rev (firstn k s) ++ skipn k s) /\
    special_counter s1 = (special_counter self + 1)%nat /\
    special SET s1 = Ok s2 /\
    team s2 = ArrayStack s /\
    special_counter s2 = (special_counter self + 2)%nat /\
    team_memory s2 = team_memory self /\ team_count s2 = team_count self.
Proof.
  intros Ht k.
  pose proof (half_le (List.length s)) as Hk. fold k in Hk.
  set (s' := rev (firstn k s) ++ skipn k s).
  set (s1 := incr_special_counter (set_team (ArrayStack s') self)).
  assert (Hlen : List.length s' = List.length s).
  { unfold s'. rewrite length_app, length_rev, <- length_app,
      firstn_skipn. reflexivity. }
  assert (Hf : firstn k s' = rev (firstn k s)).
  { unfold s'. rewrite firstn_app, length_rev, length_firstn.
    replace (k - Nat.min k (List.length s))%nat with O by lia.
    cbn [firstn]. rewrite app_nil_r. apply firstn_all2.
    rewrite length_rev, length_firstn. lia. }
  assert (Hs : skipn k s' = skipn k s).
  { unfold s'. rewrite skipn_app, length_rev, length_firstn.
    replace (k - Nat.min k (List.length s))%nat with O by lia.
    cbn [skipn]. rewrite skipn_all2; [reflexivity|].
    rewrite length_rev, length_firstn. lia. }
  exists s1, (incr_special_counter (set_team (ArrayStack s) s1)).
  split; [exact (special_SET_stack self s Ht)|].
  split; [reflexivity|]. split; [reflexivity|].
  split.
  { rewrite (special_SET_stack s1 s' eq_refl). rewrite Hlen. fold k.
    rewrite Hf, Hs, rev_involutive, firstn_skipn. reflexivity. }
  split; [reflexivity|].
  split; [cbn; lia|]. split; reflexivity.
Qed.

Lemma special_SET_reverses_upper_half_witness :
  exists s1 s2,
    special SET (mkPokeTeam (ArrayStack [0; 1; 2; 3; 4]%nat) None 5 0) = Ok s1 /\
    team s1 = ArrayStack [1; 0; 2; 3; 4]%nat /\
    special SET s1 = Ok s2 /\
    team s2 = ArrayStack [0; 1; 2; 3; 4]%nat.
Proof.
  destruct (special_SET_reverses_upper_half
              (mkPokeTeam (ArrayStack [0; 1; 2; 3; 4]%nat) None 5 0)
              [0; 1; 2; 3; 4]%nat eq_refl)
    as (s1 & s2 & H1 & T1 & _ & H2 & T2 & _).
  exists s1, s2. repeat split; assumption.
Defined.

(** X5: in ROTATE mode [special] keeps the front half of the queue (the
    first [len // 2] Pokemon) and reverses the rest behind it; it never
    raises on a queue, and a second call gives back the order the team
    had, with the counter two higher. *)
Theorem special_ROTATE_reverses_back_half (self : PokeTeam) (q : list ref) :
  team self = CircularQueue q ->
  let k := (List.length q / 2)%nat in
  exists s1 s2,
    special ROTATE self = Ok s1 /\
    team s1 = CircularQueue (firstn k q ++ rev (skipn k q)) /\
    special_counter s1 = (special_counter self + 1)%nat /\
    special ROTATE s1 = Ok s2 /\
    team s2 = CircularQueue q /\
    special_counter s2 = (special_counter self + 2)%nat /\
    team_memory s2 = team_memory self /\ team_count s2 = team_count self.
Proof.
  intros Ht k.
  pose proof (half_le (List.length q)) as Hk. fold k in Hk.
  set (q' := firstn k q ++ rev (skipn k q)).
  set (s1 := incr_special_counter (set_team (CircularQueue q') self)).
  assert (Hlen : List.length q' = List.length q).
  { unfold q'. rewrite length_app, length_rev, <- length_app,
      firstn_skipn. reflexivity. }
  assert (Hf : firstn k q' = firstn k q).
  { unfold q'. rewrite firstn_app, length_firstn.
    replace (k - Nat.min k (List.length q))%nat with O by lia.
    cbn [firstn]. rewrite app_nil_r. apply firstn_all2.
    rewrite length_firstn. lia. }
  assert (Hs : skipn k q' = rev (skipn k q)).
  { unfold q'. rewrite skipn_app, length_firstn.
    replace (k - Nat.min k (List.length q))%nat with O by lia.
    cbn [skipn]. rewrite skipn_all2; [reflexivity|].
    rewrite length_firstn. lia. }
  exists s1, (incr_special_counter (set_team (CircularQueue q) s1)).
  split; [exact (special_ROTATE_queue self q Ht)|].
  split; [reflexivity|]. split; [reflexivity|].
  split.
  { rewrite (special_ROTATE_queue s1 q' eq_refl). rewrite Hlen. fold k.
    rewrite Hf, Hs, rev_involutive, firstn_skipn. reflexivity. }
  split; [reflexivity|].
  split; [cbn; lia|]. split; reflexivity.
Qed.

Lemma special_ROTATE_reverses_back_half_witness :
  exists s1 s2,
    special ROTATE (mkPokeTeam (CircularQueue [0; 1; 2; 3; 4]%nat) None 5 0)
    = Ok s1 /\
    team s1 = CircularQueue [0; 1; 4; 3; 2]%nat /\
    special ROTATE s1 = Ok s2 /\
    team s2 = CircularQueue [0; 1; 2; 3; 4]%nat.
Proof.
  destruct (special_ROTATE_reverses_back_half
              (mkPokeTeam (CircularQueue [0; 1; 2; 3; 4]%nat) None 5 0)
              [0; 1; 2; 3; 4]%nat eq_refl)
    as (s1 & s2 & H1 & T1 & _ & H2 & T2 & _).
  exists s1, s2. repeat split; assumption.
Defined.

(* ------------------------------------------------------------------ *)
(** ** Assembling a team *)

Lemma nondescending_nth (l : list ListItem) :
  nondescending l ->
  forall i j x y, (i <= j)%nat ->
    nth_error l i = Some x -> nth_error l j = Some y -> key x <= key y.
Proof.
  induction l as [|a l IH]; intros Hl i j x y Hij Hi Hj.
  - destruct i; discriminate Hi.
  - destruct Hl as [Ha Hl].
    destruct i as [|i], j as [|j]; cbn [nth_error] in Hi, Hj.
    + injection Hi as <-. injection Hj as <-. apply Qle_refl.
    + injection Hi as <-. apply Ha. exact (nth_error_In _ _ Hj).
    + lia.
    + apply (IH Hl i j); [lia | assumption | assumption].
Qed.

Lemma nondescending_app_inv (l1 l2 : list ListItem) :
  nondescending (l1 ++ l2) -> nondescending l1 /\ nondescending l2.
Proof.
  induction l1 as [|a l1 IH]; cbn [app nondescending]; intros H.
  - split; [exact I | exact H].
  - destruct H as [Ha H]. destruct (IH H) as [H1 H2].
    split; [split; [|exact H1] | exact H2].
    intros y Hy. apply Ha. apply in_or_app. left. exact Hy.
Qed.

Lemma nondescending_app_cons (l1 l2 : list ListItem) (x : ListItem) :
  nondescending l1 -> nondescending l2 ->
  (forall y, In y l1 -> key y <= key x) ->
  (forall y, In y l2 -> key x <= key y) ->
  nondescending (l1 ++ x :: l2).
Proof.
  induction l1 as [|a l1 IH]; cbn [app nondescending]; intros H1 H2 Hb Ha.
  - split; assumption.
  - destruct H1 as [Ha1 H1]. split.
    + intros y Hy. apply in_app_or in Hy. destruct Hy as [Hy|[<-|Hy]].
      * apply Ha1. exact Hy.
      * apply Hb. left. reflexivity.
      * apply Qle_trans with (key x);
          [apply Hb; left; reflexivity | apply Ha; exact Hy].
    + apply IH; try assumption. intros y Hy. apply Hb. right. exact Hy.
Qed.

(** The search of [add] on a list whose keys never descend: the position
    it returns has no greater key before it and no smaller key from it
    on. *)
Lemma _index_to_add_loop_spec (l : list ListItem) (k : Q) :
  nondescending l ->
  forall fuel low high,
    (0 <= low)%Z -> (high < Z.of_nat (List.length l))%Z ->
    (low <= high + 1)%Z -> (high - low + 1 < Z.of_nat fuel)%Z ->
    (forall i x, (Z.of_nat i < low)%Z -> nth_error l i = Some x ->
                 key x <= k) ->
    (forall i x, (high < Z.of_nat i)%Z -> nth_error l i = Some x ->
                 k <= key x) ->
    let p := _index_to_add_loop fuel l k low high in
    (low <= p <= high + 1)%Z /\
    (forall i x, (Z.of_nat i < p)%Z -> nth_error l i = Some x ->
                 key x <= k) /\
    (forall i x, (p <= Z.of_nat i)%Z -> nth_error l i = Some x ->
                 k <= key x).
Proof.
  intros Hl. induction fuel as [|fuel IH]; intros low high H0 Hh Hlh Hf Hb Ha.
  - lia.
  - cbn [_index_to_add_loop]. destruct (low <=? high)%Z eqn:Ele.
    2:{ apply Z.leb_gt in Ele. cbv zeta.
        split; [lia|]. split; [exact Hb|].
        intros i x Hi. apply Ha. lia. }
    apply Z.leb_le in Ele.
    set (mid := ((low + high) / 2)%Z).
    assert (Hmid : (low <= mid <= high)%Z).
    { unfold mid. split.
      - apply Z.div_le_lower_bound; lia.
      - apply Z.div_le_upper_bound; lia. }
    destruct (nth_error l (Z.to_nat mid)) as [it|] eqn:En.
    2:{ apply nth_error_None in En. lia. }
    destruct (Qcompare (key it) k) eqn:Ec.
    + apply Qeq_alt in Ec. cbv zeta. split; [lia|]. split.
      * intros i x Hi Hx. rewrite <- Ec.
        apply (nondescending_nth l Hl i (Z.to_nat mid)); [lia|exact Hx|exact En].
      * intros i x Hi Hx. rewrite <- Ec.
        apply (nondescending_nth l Hl (Z.to_nat mid) i); [lia|exact En|exact Hx].
    + apply Qlt_alt in Ec.
      destruct (IH (mid + 1)%Z high) as (P1 & P2 & P3); try lia.
      * intros i x Hi Hx. apply Qle_trans with (key it); [|apply Qlt_le_weak; exact Ec].
        apply (nondescending_nth l Hl i (Z.to_nat mid)); [lia|exact Hx|exact En].
      * exact Ha.
      * cbv zeta. split; [lia|]. split; assumption.
    + apply Qgt_alt in Ec.
      destruct (IH low (mid - 1)%Z) as (P1 & P2 & P3); try lia.
      * exact Hb.
      * intros i x Hi Hx. apply Qle_trans with (key it); [apply Qlt_le_weak; exact Ec|].
        apply (nondescending_nth l Hl (Z.to_nat mid) i); [lia|exact En|exact Hx].
      * cbv zeta. split; [lia|]. split; assumption.
Qed.

Lemma add_nondescending (l : list ListItem) (x : ListItem) :
  nondescending l -> nondescending (add l x).
Proof.
  intros Hl. unfold add, _index_to_add.
  destruct (_index_to_add_loop_spec l (key x) Hl (S (List.length l)) 0%Z
              (Z.of_nat (List.length l) - 1)%Z) as (P1 & P2 & P3);
    try lia.
  { intros i y Hi Hy. exfalso.
    assert (Hn : nth_error l i <> None) by (rewrite Hy; discriminate).
    apply nth_error_Some in Hn. lia. }
  set (p := _index_to_add_loop _ _ _ _ _) in *.
  pose proof (firstn_skipn (Z.to_nat p) l) as Hfs.
  rewrite <- Hfs in Hl. apply nondescending_app_inv in Hl.
  destruct Hl as [H1 H2].
  apply nondescending_app_cons; try assumption.
  - intros y Hy. apply In_nth_error in Hy. destruct Hy as [i Hi].
    rewrite nth_error_firstn in Hi.
    destruct (i <? Z.to_nat p)%nat eqn:E; [|discriminate Hi].
    apply Nat.ltb_lt in E. apply (P2 i y); [lia | exact Hi].
  - intros y Hy. apply In_nth_error in Hy. destruct Hy as [i Hi].
    rewrite nth_error_skipn in Hi.
    apply (P3 (Z.to_nat p + i)%nat y); [lia | exact Hi].
Qed.





Lemma existsb_CRITERION_LIST (c : string) :
  existsb (String.eqb c) CRITERION_LIST = true <-> In c CRITERION_LIST.
Proof.
  rewrite existsb_exists. split.
  - intros (x & Hx & E). apply String.eqb_eq in E. subst x. exact Hx.
  - intros H. exists c. split; [exact H | apply String.eqb_refl].
Qed.

Lemma assign_team_loop_raises (h : Store) (criterion : option string)
      (r : ref) (a : list ref) (acc : list ListItem) :
  (forall c, criterion = Some c -> ~ In c CRITERION_LIST) ->
  assign_team_loop h criterion (r :: a) acc = Raise ValueError.
Proof.
  intros Hc. cbn [assign_team_loop].
  destruct criterion as [c|]; [|reflexivity].
  destruct (existsb (String.eqb c) CRITERION_LIST) eqn:E; [|reflexivity].
  apply existsb_CRITERION_LIST in E. destruct (Hc c eq_refl E).
Qed.

Lemma assemble_team_not_array (h : Store) (battle_mode : BattleMode)
      (criterion : option string) (self : PokeTeam) :
  (forall a, team self <> ArrayR a) ->
  assemble_team h battle_mode criterion self = Raise TypeError.
Proof.
  intros Hn. unfold assemble_team.
  destruct (team self) as [a| | |]; try reflexivity.
  destruct (Hn a eq_refl).
Qed.

Lemma assemble_team_kind (h : Store) (battle_mode : BattleMode)
      (criterion : option string) (self self' : PokeTeam) :
  assemble_team h battle_mode criterion self = Ok self' ->
  kind_of_mode battle_mode (team self').
Proof.
  unfold assemble_team, assign_team. intros H.
  destruct (team self); try discriminate H.
  destruct battle_mode.
  - injection H as <-. exact I.
  - injection H as <-. exact I.
  - inv_bind H. injection H as <-. exact I.
Qed.

(** X7: what [assemble_team] raises on a team as choosing leaves it
    (an array that holds a Pokemon and a counter that covers the array) or
    as assembling leaves it.  It raises [TypeError] exactly when the team
    is not an array, and [ValueError] exactly in OPTIMISE mode on an array
    when the criterion is not one of [CRITERION_LIST]; it raises nothing
    else.  A team that has been assembled is no array any more, so
    assembling it again raises [TypeError] in every mode. *)
Theorem assemble_team_raises (h : Store) (battle_mode : BattleMode)
    (criterion : option string) (self : PokeTeam) :
  team self <> ArrayR [] ->
  (forall a, team self = ArrayR a ->
             (List.length a <= team_count self)%nat) ->
  (forall e,
     assemble_team h battle_mode criterion self = Raise e <->
     ((forall a, team self <> ArrayR a) /\ e = TypeError) \/
     (exists r a, team self = ArrayR (r :: a) /\ battle_mode = OPTIMISE /\
                  (forall c, criterion = Some c -> ~ In c CRITERION_LIST) /\
                  e = ValueError)) /\
  (forall self',
     assemble_team h battle_mode criterion self = Ok self' ->
     forall h' battle_mode' criterion',
       assemble_team h' battle_mode' criterion' self' = Raise TypeError).
Proof.
  intros Hne _. split.
  - intros e. split.
    + intros H. unfold assemble_team in H.
      destruct (team self) as [a|s|q|l] eqn:Ht;
        try (left; split; [intros a'; discriminate | congruence]).
      right. destruct battle_mode; try discriminate H.
      unfold assign_team in H. rewrite Ht in H.
      destruct a as [|r a]; [destruct (Hne eq_refl)|].
      exists r, a. split; [reflexivity|]. split; [reflexivity|].
      assert (Hc : forall c, criterion = Some c -> ~ In c CRITERION_LIST).
      { intros c -> Hin.
        destruct (assign_team_loop_ok h c (r :: a) Hin []) as [l Hl].
        rewrite Hl in H. discriminate H. }
      split; [exact Hc|].
      rewrite (assign_team_loop_raises h criterion r a [] Hc) in H.
      cbn [bind] in H. congruence.
    + intros [[Hn ->]|(r & a & Ht & -> & Hc & ->)].
      * apply assemble_team_not_array. exact Hn.
      * unfold assemble_team, assign_team. rewrite Ht.
        rewrite (assign_team_loop_raises h criterion r a [] Hc). reflexivity.
  - intros self' H h' battle_mode' criterion'.
    apply assemble_team_not_array. intros a Ha.
    apply assemble_team_kind in H. rewrite Ha in H.
    destruct battle_mode; exact H.
Qed.

Lemma assemble_team_raises_witness :
  team four_chosen <> ArrayR [] /\
  (List.length [0; 1; 2; 3]%nat <= team_count four_chosen)%nat /\
  assemble_team level_one_store OPTIMISE (Some "experience"%string)
                four_chosen = Raise ValueError /\
  forall self',
    assemble_team level_one_store SET None four_chosen = Ok self' ->
    assemble_team level_one_store SET None self' = Raise TypeError.
Proof.
  assert (Hne : team four_chosen <> ArrayR []) by discriminate.
  assert (Hn : forall a, team four_chosen = ArrayR a ->
                         (List.length a <= team_count four_chosen)%nat).
  { intros a Ha. injection Ha as <-. cbn. lia. }
  split; [discriminate|]. split; [cbn; lia|]. split.
  - apply (assemble_team_raises level_one_store OPTIMISE
             (Some "experience"%string) four_chosen Hne Hn).
    right. exists 0%nat, [1; 2; 3]%nat.
    split; [reflexivity|]. split; [reflexivity|]. split; [|reflexivity].
    intros c Hc. injection Hc as <-.
    intros [H|[H|[H|[H|[H|[]]]]]]; discriminate H.
  - intros self' H.
    apply (proj2 (assemble_team_raises level_one_store SET None
                    four_chosen Hne Hn) self' H).
Defined.



(* ------------------------------------------------------------------ *)
(** ** Regenerating a team *)

Lemma special_counters (battle_mode : BattleMode) (self self' : PokeTeam) :
  special battle_mode self = Ok self' ->
  special_counter self' = (special_counter self + 1)%nat /\
  team_count self' = team_count self.
Proof.
  unfold special. intros H.
  destruct battle_mode, (team self);
    repeat match type of H with
           | (if ?c then _ else _) = _ => destruct c
           | bind _ _ = Ok _ => inv_bind H
           | (let (_, _) := ?x in _) = _ => destruct x
           end;
    try discriminate H; injection H as <-; split; reflexivity.
Qed.

Lemma assemble_team_counters (h : Store) (battle_mode : BattleMode)
      (criterion : option string) (self self' : PokeTeam) :
  assemble_team h battle_mode criterion self = Ok self' ->
  special_counter self' = special_counter self /\
  team_count self' = team_count self /\
  team_memory self' = team_memory self.
Proof.
  unfold assemble_team, assign_team. intros H.
  destruct (team self); try discriminate H.
  destruct battle_mode; [| |inv_bind H]; injection H as <-;
    repeat split; reflexivity.
Qed.

Lemma succ_odd_mod_2 (n : nat) : (n mod 2 = 1 -> (n + 1) mod 2 = 0)%nat.
Proof.
  intros H.
  pose proof (Nat.div_mod_eq n 2). pose proof (Nat.div_mod_eq (n + 1) 2).
  pose proof (Nat.mod_upper_bound (n + 1) 2). lia.
Qed.

Lemma mod_2_cases (n : nat) : (n mod 2 = 0 \/ n mod 2 = 1)%nat.
Proof. pose proof (Nat.mod_upper_bound n 2). lia. Qed.

(** X9: [regenerate_team] replays the special exactly when the counter is
    odd, and the replay counts as a call: the counter is even afterwards
    and the team is the team of the memory, assembled and, if the counter
    was odd, given the special.  Hence a regeneration that follows
    assembles the team without the special, whatever came before. *)
Theorem regenerate_team_leaves_counter_even
    (POKE_LIST : list string) (POKE_HEALTH : list Q)
    (battle_mode : BattleMode) (criterion : option string)
    (h h' : Store) (self self' : PokeTeam) (memory : list ref) :
  team_memory self = Some memory ->
  regenerate_team POKE_LIST POKE_HEALTH battle_mode criterion h self
  = Ok (h', self') ->
  (special_counter self' mod 2 = 0)%nat /\
  special_counter self'
  = (special_counter self + special_counter self mod 2)%nat /\
  team_count self' = team_count self /\
  (exists assembled,
     assemble_team h' battle_mode criterion (set_team (ArrayR memory) self)
     = Ok assembled /\
     if (special_counter self mod 2 =? 1)%nat
     then special battle_mode assembled = Ok self'
     else self' = assembled) /\
  forall h2 self2,
    regenerate_team POKE_LIST POKE_HEALTH battle_mode criterion h' self'
    = Ok (h2, self2) ->
    assemble_team h2 battle_mode criterion (set_team (ArrayR memory) self')
    = Ok self2 /\
    special_counter self2 = special_counter self'.
Proof.
  intros Hm H. unfold regenerate_team in H. rewrite Hm in H.
  inv_bind H. rename a into h1. inv_bind H. rename a into assembled.
  destruct (assemble_team_counters _ _ _ _ _ Ha0) as (Hc & Hn & Hmem).
  cbn [special_counter team_count team_memory set_team] in Hc, Hn, Hmem.
  assert (R : h' = h1 /\
              (if (special_counter self mod 2 =? 1)%nat
               then special battle_mode assembled = Ok self'
               else self' = assembled)).
  { rewrite Hc in H. destruct (special_counter self mod 2 =? 1)%nat.
    - inv_bind H. injection H as <- <-. split; [reflexivity|exact Ha1].
    - injection H as <- <-. split; reflexivity. }
  destruct R as [-> R].
  assert (E : special_counter self'
              = (special_counter self + special_counter self mod 2)%nat /\
              team_count self' = team_count self /\
              team_memory self' = Some memory).
  { destruct (special_counter self mod 2 =? 1)%nat eqn:Eo.
    - apply Nat.eqb_eq in Eo.
      destruct (special_counters _ _ _ R) as [S1 S2].
      destruct (special_members _ _ _ R) as [_ S3].
      rewrite S1, S2, S3, Hc, Hn, Hmem, Eo. repeat split; try reflexivity.
      exact Hm.
    - apply Nat.eqb_neq in Eo. subst self'.
      destruct (mod_2_cases (special_counter self)) as [E0|E1];
        [|contradiction].
      rewrite Hc, Hn, Hmem, E0, Nat.add_0_r. repeat split; try reflexivity.
      exact Hm. }
  destruct E as (E1 & E2 & E3).
  assert (Ev : (special_counter self' mod 2 = 0)%nat).
  { rewrite E1. destruct (mod_2_cases (special_counter self)) as [E0|Eo].
    - rewrite E0, Nat.add_0_r. exact E0.
    - rewrite Eo. apply succ_odd_mod_2. exact Eo. }
  split; [exact Ev|]. split; [exact E1|]. split; [exact E2|].
  split; [exists assembled; split; assumption|].
  intros h2 self2 H2. unfold regenerate_team in H2. rewrite E3 in H2.
  inv_bind H2. rename a into h3. inv_bind H2. rename a into again.
  destruct (assemble_team_counters _ _ _ _ _ Ha2) as (Hc2 & _).
  cbn [special_counter set_team] in Hc2.
  rewrite Hc2, Ev in H2. cbn [Nat.eqb] in H2. injection H2 as <- <-.
  split; [exact Ha2 | exact Hc2].
Qed.

Lemma regenerate_team_leaves_counter_even_witness :
  exists h' self' h2 self2,
    regenerate_team mismatch_POKE_LIST mismatch_POKE_HEALTH SET None
                    mismatch_store veteran_team = Ok (h', self') /\
    team self' = ArrayStack [2; 3; 1; 0]%nat /\
    special_counter self' = 2%nat /\
    regenerate_team mismatch_POKE_LIST mismatch_POKE_HEALTH SET None
                    h' self' = Ok (h2, self2) /\
    team self2 = ArrayStack [3; 2; 1; 0]%nat /\
    special_counter self2 = 2%nat.
Proof.
  assert (H1 : {x | regenerate_team mismatch_POKE_LIST mismatch_POKE_HEALTH
                      SET None mismatch_store veteran_team = Ok x})
    by (eexists; reflexivity).
  destruct H1 as [[h' self'] H1].
  assert (H2 : {x | regenerate_team mismatch_POKE_LIST mismatch_POKE_HEALTH
                      SET None h' self' = Ok x}).
  { cbv in H1. injection H1 as <- <-. eexists. reflexivity. }
  destruct H2 as [[h2 self2] H2].
  destruct (regenerate_team_leaves_counter_even
              mismatch_POKE_LIST mismatch_POKE_HEALTH SET None
              mismatch_store h' veteran_team self' [0; 1; 2; 3]%nat
              eq_refl H1) as (_ & C1 & _ & _ & Hnext).
  destruct (Hnext h2 self2 H2) as [A2 C2].
  exists h', self', h2, self2.
  split; [exact H1|].
  split; [cbv in H1; injection H1 as <- <-; reflexivity|].
  split; [exact C1|]. split; [exact H2|].
  split; [|rewrite C2; exact C1].
  unfold assemble_team in A2. cbn [team set_team] in A2.
  injection A2 as <-. reflexivity.
Defined.

(* ------------------------------------------------------------------ *)
(** ** The pokedex *)

Lemma existsb_eqb_In (i : nat) (s : BSet) :
  existsb (Nat.eqb i) s = true <-> In i s.
Proof.
  rewrite existsb_exists. split.
  - intros (x & Hx & E). apply Nat.eqb_eq in E. subst x. exact Hx.
  - intros H. exists i. split; [exact H | apply Nat.eqb_refl].
Qed.

Lemma bset_add_In (s : BSet) (i j : nat) :
  In j (bset_add s i) <-> j = i \/ In j s.
Proof.
  unfold bset_add. destruct (existsb (Nat.eqb i) s) eqn:E.
  - apply existsb_eqb_In in E. split; [intros H; right; exact H|].
    intros [->|H]; assumption.
  - split; [intros [<-|H]; [left; reflexivity | right; exact H]|].
    intros [->|H]; [left; reflexivity | right; exact H].
Qed.

Lemma bset_add_NoDup (s : BSet) (i : nat) : NoDup s -> NoDup (bset_add s i).
Proof.
  intros H. unfold bset_add. destruct (existsb (Nat.eqb i) s) eqn:E.
  - exact H.
  - constructor; [|exact H]. intros Hin. apply existsb_eqb_In in Hin.
    congruence.
Qed.

Lemma bset_add_known (s : BSet) (i : nat) : In i s -> bset_add s i = s.
Proof.
  intros H. unfold bset_add. apply existsb_eqb_In in H. rewrite H.
  reflexivity.
Qed.

Lemma bset_add_len_le (s : BSet) (i : nat) :
  (bset_len s <= bset_len (bset_add s i))%nat.
Proof.
  unfold bset_add, bset_len. destruct (existsb (Nat.eqb i) s); simpl; lia.
Qed.

Lemma PokeType_value_bound (t : PokeType) : (PokeType_value t < 15)%nat.
Proof. destruct t; cbn; lia. Qed.

(** The pokedex of a trainer who has registered the Pokemon [ps], one
    after the other. *)
Lemma registered_pokedex (ps : list Pokemon) :
  forall t,
    NoDup (pokedex t) ->
    (forall i, In i (pokedex t) -> (1 <= i <= 15)%nat) ->
    let t' := fold_left register_pokemon ps t in
    NoDup (pokedex t') /\
    (forall i, In i (pokedex t') -> (1 <= i <= 15)%nat) /\
    (forall i, In i (pokedex t) -> In i (pokedex t')) /\
    (forall p, In p ps ->
               In (PokeType_value (poketype p) + 1)%nat (pokedex t')).
Proof.
  induction ps as [|p ps IH]; intros t Hn Hb; cbn [fold_left].
  - split; [exact Hn|]. split; [exact Hb|].
    split; [intros i Hi; exact Hi | intros p []].
  - destruct (IH (register_pokemon t p)) as (I1 & I2 & I3 & I4).
    + apply bset_add_NoDup. exact Hn.
    + intros i Hi. cbn [register_pokemon pokedex] in Hi.
      apply bset_add_In in Hi. destruct Hi as [->|Hi]; [|apply Hb; exact Hi].
      pose proof (PokeType_value_bound (poketype p)). lia.
    + split; [exact I1|]. split; [exact I2|]. split.
      * intros i Hi. apply I3. cbn [register_pokemon pokedex].
        apply bset_add_In. right. exact Hi.
      * intros q [<-|Hq]; [|apply I4; exact Hq].
        apply I3. cbn [register_pokemon pokedex].
        apply bset_add_In. left. reflexivity.
Qed.

Lemma round2_le (x y : Q) : 0 <= x -> x <= y -> round2 x <= round2 y.
Proof.
  intros H0 H. unfold round2.
  assert (Hx : 0 <= x * 100) by lra.
  assert (Hle : x * 100 <= y * 100) by lra.
  pose proof (Qfloor_resp_le _ _ Hx) as Hf. change (Qfloor 0) with 0%Z in Hf.
  pose proof (round_half_even_floor (x * 100)) as [Hr _].
  apply round_half_even_le in Hle.
  apply rnd_le.
  - apply Qle_shift_div_l; [reflexivity|]. rewrite Qmult_0_l.
    change 0 with (inject_Z 0). rewrite <- Zle_Qle. lia.
  - unfold Qdiv. apply Qmult_le_compat_r; [|discriminate].
    rewrite <- Zle_Qle. exact Hle.
Qed.

Lemma ratio_le (n m : nat) :
  (n <= m)%nat ->
  0 <= inject_Z (Z.of_nat n) / inject_Z (Z.of_nat len_PokeType) /\
  inject_Z (Z.of_nat n) / inject_Z (Z.of_nat len_PokeType)
  <= inject_Z (Z.of_nat m) / inject_Z (Z.of_nat len_PokeType).
Proof.
  intros H. unfold len_PokeType, Qdiv.
  change (/ inject_Z (Z.of_nat 15)) with (1 # 15).
  assert (H0 : 0 <= inject_Z (Z.of_nat n)).
  { change 0 with (inject_Z 0). rewrite <- Zle_Qle. lia. }
  assert (H1 : inject_Z (Z.of_nat n) <= inject_Z (Z.of_nat m)).
  { rewrite <- Zle_Qle. lia. }
  split; lra.
Qed.

Lemma completion_le (t t' : Trainer) :
  (bset_len (pokedex t) <= bset_len (pokedex t'))%nat ->
  get_pokedex_completion t <= get_pokedex_completion t'.
Proof.
  intros H. unfold get_pokedex_completion. cbv zeta.
  destruct (ratio_le _ _ H) as [H0 Hle].
  apply round2_le; [apply rnd_nonneg; exact H0|].
  apply rnd_le; assumption.
Qed.

(** X10: the completion ratio of a trainer who starts with an empty
    pokedex and registers Pokemon lies between 0 and 1; it is 0 exactly
    as long as nothing was registered, registering never lowers it, and
    registering a Pokemon of a type met before changes nothing. *)
Theorem pokedex_completion_bounds (n : string) (ps : list Pokemon)
    (p : Pokemon) :
  let t := fold_left register_pokemon ps (Trainer_init n) in
  0 <= get_pokedex_completion t <= 1 /\
  (get_pokedex_completion t == 0 <-> ps = []) /\
  get_pokedex_completion t <= get_pokedex_completion (register_pokemon t p) /\
  ((exists p', In p' ps /\ poketype p' = poketype p) ->
   register_pokemon t p = t).
Proof.
  intros t.
  destruct (registered_pokedex ps (Trainer_init n)) as (I1 & I2 & _ & I4).
  { constructor. }
  { intros i []. }
  fold t in I1, I2, I4.
  assert (Hlen : (bset_len (pokedex t) <= 15)%nat).
  { unfold bset_len.
    change 15%nat with (List.length (seq 1 15)).
    apply NoDup_incl_length; [exact I1|].
    intros i Hi. apply in_seq. apply I2 in Hi. lia. }
  split; [split|split; [|split]].
  - apply Qle_trans with (get_pokedex_completion (Trainer_init n));
      [vm_compute; discriminate|].
    apply completion_le. cbn. lia.
  - apply Qle_trans with (get_pokedex_completion (collector 15));
      [|vm_compute; discriminate].
    apply completion_le. exact Hlen.
  - split.
    + intros H0. destruct ps as [|q ps] using rev_ind; [reflexivity|].
      exfalso. unfold t in H0. rewrite fold_left_app in H0.
      cbn [fold_left] in H0.
      pose proof (completion_after_register_pos
                    (fold_left register_pokemon ps (Trainer_init n)) q) as Hp.
      rewrite H0 in Hp. discriminate Hp.
    + intros ->. reflexivity.
  - apply completion_le. cbn [register_pokemon pokedex].
    apply bset_add_len_le.
  - intros (p' & Hin & Ht). unfold register_pokemon.
    rewrite bset_add_known; [destruct t; reflexivity|].
    rewrite <- Ht. apply I4. exact Hin.
Qed.

(* ------------------------------------------------------------------ *)
(** ** Further properties of [battle.py] *)

Lemma kind_of_mode_same_kind (m : BattleMode) (c c' : Container) :
  kind_of_mode m c -> kind_of_mode m c' -> same_kind c c'.
Proof. destruct m, c, c'; cbn; tauto. Qed.

Lemma same_kind_kind_of_mode (m : BattleMode) (c c' : Container) :
  kind_of_mode m c -> same_kind c c' -> kind_of_mode m c'.
Proof. destruct m, c, c'; cbn; tauto. Qed.

(** What [_get_next_pokemon] hands out from a team of the mode's kind
    that holds a Pokemon: its first member, leaving the others. *)
Lemma _get_next_pokemon_head (m : BattleMode) (c : Container) (r : ref) :
  kind_of_mode m c -> hd_error (members c) = Some r ->
  exists x c',
    _get_next_pokemon c = Ok (x, c') /\
    members c = r :: members c' /\
    kind_of_mode m c' /\
    match m, x with
    | (SET | ROTATE), PPokemon r' => r' = r
    | OPTIMISE, PItem it => value it = r
    | _, _ => False
    end.
Proof.
  intros Hk Hh.
  destruct m, c as [a|s|q|l]; cbn in Hk; try contradiction.
  - destruct s as [|r' s]; [discriminate Hh|]. injection Hh as ->.
    exists (PPokemon r), (ArrayStack s). repeat split; reflexivity.
  - destruct q as [|r' q]; [discriminate Hh|]. injection Hh as ->.
    exists (PPokemon r), (CircularQueue q). repeat split; reflexivity.
  - destruct l as [|it l]; [discriminate Hh|]. injection Hh as <-.
    exists (PItem it), (ArraySortedList l). repeat split; reflexivity.
Qed.

(** The members of a team after a round that has settled its fighter. *)
Lemma settled_members (st st' : State) (s : Side) (r : ref) :
  same_kind (team_of (this st) s) (team_of (this st) s) ->
  settled st st' s r ->
  Permutation (members (team_of (this st') s))
              (if is_alive (store st' r)
               then r :: members (team_of (this st) s)
               else members (team_of (this st) s)) /\
  same_kind (team_of (this st) s) (team_of (this st') s).
Proof.
  intros Hk [[Ha Hr]|[Ha Ht]]; rewrite Ha.
  - unfold returned in Hr.
    destruct (team_of (this st) s) as [a|stack|queue|l];
      destruct (team_of (this st') s) as [a'|stack'|queue'|l'];
      try contradiction.
    + subst stack'. split; [apply Permutation_refl | exact I].
    + subst queue'. split; [|exact I]. cbn [members]. unfold append.
      apply Permutation_sym, Permutation_cons_append.
    + destruct Hr as (k & _ & ->). split; [|exact I]. cbn [members].
      change (r :: map value l) with (map value (mkListItem r k :: l)).
      apply Permutation_map, add_Permutation.
  - rewrite Ht. split; [apply Permutation_refl | exact Hk].
Qed.

Section Steps.

Variable EFFECT_TABLE : PokeType -> PokeType -> Q.

(** X11: a pass of the battle loop between two Pokemon of unequal speed
    that are alive keeps every Pokemon where it belongs.  The pass never
    raises (each trainer has just registered the other's Pokemon, so no
    completion ratio is 0), and afterwards each team holds what it held
    before, without its fighter if the fighter has fainted and with it
    otherwise; the teams stay of the mode's kind. *)
Theorem battle_step_unequal_speed (battle_type : BattleMode) (st : State)
    (r1 r2 : ref) :
  kind_of_mode battle_type (team_of (this st) Side1) ->
  kind_of_mode battle_type (team_of (this st) Side2) ->
  In (criterion (this st)) CRITERION_LIST ->
  hd_error (members (team_of (this st) Side1)) = Some r1 ->
  hd_error (members (team_of (this st) Side2)) = Some r2 ->
  r1 <> r2 ->
  stage_in_line (store st r1) -> stage_in_line (store st r2) ->
  is_alive (store st r1) = true -> is_alive (store st r2) = true ->
  ~ speed (store st r1) == speed (store st r2) ->
  exists st',
    battle_step EFFECT_TABLE battle_type st = Ok st' /\
    Permutation (members (team_of (this st') Side1))
                (if is_alive (store st' r1)
                 then members (team_of (this st) Side1)
                 else tl (members (team_of (this st) Side1))) /\
    Permutation (members (team_of (this st') Side2))
                (if is_alive (store st' r2)
                 then members (team_of (this st) Side2)
                 else tl (members (team_of (this st) Side2))) /\
    kind_of_mode battle_type (team_of (this st') Side1) /\
    kind_of_mode battle_type (team_of (this st') Side2).
Proof.
  intros K1 K2 Hc Hh1 Hh2 Hne S1 S2 A1 A2 Hsp.
  destruct (_get_next_pokemon_head _ _ _ K1 Hh1) as (x1 & c1 & N1 & M1 & K1' & X1).
  destruct (_get_next_pokemon_head _ _ _ K2 Hh2) as (x2 & c2 & N2 & M2 & K2' & X2).
  unfold battle_step. rewrite N1. cbn [bind].
  change (this (set_this ?b _)) with b.
  rewrite (team_of_set_team_of_neq Side1 Side2 c1 (this st))
    by discriminate.
  rewrite N2. cbn [bind].
  assert (Hx : match battle_type, x1, x2 with
               | (SET | ROTATE), PPokemon a, PPokemon b => Ok (a, b)
               | OPTIMISE, PItem i1, PItem i2 => Ok (value i1, value i2)
               | _, _, _ => Raise AttributeError
               end = Ok (r1, r2)).
  { destruct battle_type, x1, x2; try contradiction; subst; reflexivity. }
  rewrite Hx. cbn [bind]. clear Hx X1 X2 N1 N2.
  match goal with
  | |- exists st', _battle_round _ _ _ ?s = Ok st' /\ _ => set (stR := s)
  end.
  assert (T1 : team_of (this stR) Side1 = c1) by reflexivity.
  assert (T2 : team_of (this stR) Side2 = c2) by reflexivity.
  assert (Hst : store stR = store st) by reflexivity.
  assert (Hcr : criterion (this stR) = criterion (this st)) by reflexivity.
  assert (Hready : ready (this stR)).
  { split; [rewrite Hcr; exact Hc|]. rewrite T1, T2.
    exact (kind_of_mode_same_kind _ _ _ K1' K2'). }
  assert (C1 : ~ completion stR Side1 == 0).
  { intros E. pose proof (completion_after_register_pos
        (trainer_1 (set_team_of Side2 c2 (set_team_of Side1 c1 (this st))))
        (store st r2)) as P.
    change (completion stR Side1) with
      (get_pokedex_completion
         (register_pokemon
            (trainer_1 (set_team_of Side2 c2 (set_team_of Side1 c1 (this st))))
            (store st r2))) in E.
    rewrite E in P. discriminate P. }
  assert (C2 : ~ completion stR Side2 == 0).
  { intros E. pose proof (completion_after_register_pos
        (trainer_2 (set_team_of Side2 c2 (set_team_of Side1 c1 (this st))))
        (store st r1)) as P.
    change (completion stR Side2) with
      (get_pokedex_completion
         (register_pokemon
            (trainer_2 (set_team_of Side2 c2 (set_team_of Side1 c1 (this st))))
            (store st r1))) in E.
    rewrite E in P. discriminate P. }
  destruct (unequal_speed_round_settles EFFECT_TABLE r1 r2 stR)
    as (st' & HR & E1 & E2); rewrite ?Hst; try assumption.
  exists st'. split; [exact HR|].
  destruct (settled_members stR st' Side1 r1) as [P1 Q1];
    [exact (ready_side _ Side1 Hready) | exact E1 |].
  destruct (settled_members stR st' Side2 r2) as [P2 Q2];
    [exact (ready_side _ Side2 Hready) | exact E2 |].
  rewrite T1 in P1, Q1. rewrite T2 in P2, Q2. rewrite M1, M2. cbn [tl].
  split; [exact P1|]. split; [exact P2|].
  split; [exact (same_kind_kind_of_mode _ _ _ K1' Q1)
         | exact (same_kind_kind_of_mode _ _ _ K2' Q2)].
Qed.

End Steps.

Lemma battle_step_unequal_speed_witness :
  exists st',
    battle_step sample_table SET sturdy = Ok st' /\
    members (team_of (this st') Side1) = [] /\
    members (team_of (this st') Side2) = [] /\
    is_alive (store st' 0%nat) = false.
Proof.
  assert (Hc : In (criterion (this sturdy)) CRITERION_LIST)
    by (left; reflexivity).
  assert (Hne : 0%nat <> 1%nat) by discriminate.
  assert (Hs : forall r, stage_in_line (store sturdy r))
    by (intros [|r]; left; reflexivity).
  assert (Hsp : ~ speed (store sturdy 0%nat) == speed (store sturdy 1%nat))
    by (intros E; discriminate E).
  destruct (battle_step_unequal_speed sample_table SET sturdy 0%nat 1%nat
              I I Hc eq_refl eq_refl Hne (Hs 0%nat) (Hs 1%nat)
              eq_refl eq_refl Hsp)
    as (st' & H & P1 & P2 & _).
  exists st'. split; [exact H|].
  vm_compute in H. injection H as <-.
  repeat split; reflexivity.
Defined.

(* ------------------------------------------------------------------ *)
(** ** What a round and a battle leave alone *)

Lemma grown_refl (p : Pokemon) : grown p p.
Proof. repeat split; try reflexivity; lia. Qed.

Lemma grown_trans (p1 p2 p3 : Pokemon) :
  grown p1 p2 -> grown p2 p3 -> grown p1 p3.
Proof.
  intros (A1 & A2 & A3 & A4) (B1 & B2 & B3 & B4).
  repeat split; try congruence; lia.
Qed.

Lemma grown_level_up (p p' : Pokemon) : level_up p = Ok p' -> grown p p'.
Proof.
  unfold level_up. intros H.
  destruct (0 <? _)%nat.
  - inv_bind H. destruct (negb _).
    + unfold _evolve in H. inv_bind H. inv_bind H. inv_bind H.
      injection H as <-. repeat split; try reflexivity; cbn; lia.
    + injection H as <-. repeat split; try reflexivity; cbn; lia.
  - injection H as <-. repeat split; try reflexivity; cbn; lia.
Qed.

Lemma grown_set_health (p : Pokemon) (x : Q) : grown p (set_health x p).
Proof. repeat split; try reflexivity; cbn; lia. Qed.

Lemma fought_refl (t1 t2 : ref) (h : Store) : fought t1 t2 h h.
Proof. split; [reflexivity | intros r; apply grown_refl]. Qed.

Lemma fought_trans (t1 t2 : ref) (h1 h2 h3 : Store) :
  fought t1 t2 h1 h2 -> fought t1 t2 h2 h3 -> fought t1 t2 h1 h3.
Proof.
  intros [A1 A2] [B1 B2]. split.
  - intros r H1 H2. rewrite (B1 r H1 H2). apply A1; assumption.
  - intros r. exact (grown_trans _ _ _ (A2 r) (B2 r)).
Qed.

Lemma fought_update (t1 t2 r : ref) (h : Store) (p : Pokemon) :
  r = t1 \/ r = t2 -> grown (h r) p -> fought t1 t2 h (update h r p).
Proof.
  intros Hr Hg. split.
  - intros r' H1 H2. apply update_other. intros ->. tauto.
  - intros r'. destruct (Nat.eq_dec r' r) as [->|Hn].
    + rewrite update_same. exact Hg.
    + rewrite (update_other h r r' p Hn). apply grown_refl.
Qed.

Lemma kept_refl (b : Battle) : kept b b.
Proof.
  split; [reflexivity|]. split; [reflexivity|].
  intros s. repeat split; try reflexivity. apply incl_refl.
Qed.

Lemma kept_trans (b1 b2 b3 : Battle) : kept b1 b2 -> kept b2 b3 -> kept b1 b3.
Proof.
  intros (A1 & A2 & A3) (B1 & B2 & B3).
  split; [congruence|]. split; [congruence|].
  intros s. destruct (A3 s) as (C1 & C2 & C3 & C4 & C5).
  destruct (B3 s) as (D1 & D2 & D3 & D4 & D5).
  repeat split; try congruence.
  exact (incl_tran C5 D5).
Qed.

Lemma kept_set_team_of (s : Side) (c : Container) (b : Battle) :
  kept b (set_team_of s c b).
Proof.
  split; [destruct s; reflexivity|]. split; [destruct s; reflexivity|].
  intros s'. destruct s, s'; repeat split; try reflexivity; apply incl_refl.
Qed.

Lemma kept_register (s : Side) (p : Pokemon) (b : Battle) :
  kept b (set_trainer s (register_pokemon (trainer b s) p) b).
Proof.
  split; [destruct s; reflexivity|]. split; [destruct s; reflexivity|].
  intros s'.
  destruct s, s'; repeat split; try reflexivity; try apply incl_refl;
    intros i Hi; cbn [trainer set_trainer trainer_1 trainer_2
                      register_pokemon pokedex];
    apply bset_add_In; right; exact Hi.
Qed.

Lemma kept_set_winner_trainer (w : option Side) (b : Battle) :
  kept b (set_winner_trainer w b).
Proof.
  split; [reflexivity|]. split; [reflexivity|].
  intros s. destruct s; repeat split; try reflexivity; apply incl_refl.
Qed.

Lemma send_back_kept (dispatch : Container) (s : Side) (r : ref)
      (st st' : State) :
  send_back dispatch s r st = Ok st' ->
  kept (this st) (this st') /\ store st' = store st.
Proof.
  unfold send_back. intros H.
  destruct dispatch; try discriminate H.
  - destruct (team_of (this st) s); try discriminate H.
    injection H as <-. split; [apply kept_set_team_of | reflexivity].
  - destruct (team_of (this st) s); try discriminate H.
    injection H as <-. split; [apply kept_set_team_of | reflexivity].
  - inv_bind H. destruct (team_of (this st) s); try discriminate H.
    injection H as <-. split; [apply kept_set_team_of | reflexivity].
Qed.

Lemma leveled_up_and_sent_back (t1 t2 : ref) (dispatch : Container)
      (s : Side) (a : ref) (st st' : State) (p : Pokemon) :
  a = t1 \/ a = t2 ->
  level_up (store st a) = Ok p ->
  send_back dispatch s a (set_store (update (store st) a p) st) = Ok st' ->
  kept (this st) (this st') /\ fought t1 t2 (store st) (store st').
Proof.
  intros Ha Hl H. apply send_back_kept in H. destruct H as [K E].
  split; [exact K|]. rewrite E. cbn [store set_store].
  apply fought_update; [exact Ha | apply grown_level_up; exact Hl].
Qed.

Lemma _check_alive_kept (t1 t2 : ref) (s : Side) (a d : ref)
      (st st' : State) :
  a = t1 \/ a = t2 ->
  _check_alive s a d st = Ok st' ->
  kept (this st) (this st') /\ fought t1 t2 (store st) (store st').
Proof.
  intros Ha H. unfold _check_alive in H.
  destruct (negb (is_alive (store st d))).
  - inv_bind H. exact (leveled_up_and_sent_back t1 t2 _ s a st st' _ Ha Ha0 H).
  - injection H as <-. split; [apply kept_refl | apply fought_refl].
Qed.

Lemma lose_1_health_fought (t1 t2 r : ref) (st : State) :
  r = t1 \/ r = t2 ->
  fought t1 t2 (store st) (store (lose_1_health r st)).
Proof.
  intros Hr. unfold lose_1_health. cbn [store set_store].
  apply fought_update; [exact Hr | apply grown_set_health].
Qed.

Lemma _sudden_death_kept (t1 t2 : ref) (st st' : State) :
  _sudden_death t1 t2 st = Ok st' ->
  kept (this st) (this st') /\ fought t1 t2 (store st) (store st').
Proof.
  unfold _sudden_death. intros H.
  set (stA := lose_1_health t1 st) in *.
  set (stB := lose_1_health t2 stA) in *.
  assert (F : fought t1 t2 (store st) (store stB)).
  { apply fought_trans with (store stA).
    - apply lose_1_health_fought. left. reflexivity.
    - apply lose_1_health_fought. right. reflexivity. }
  assert (KB : this stB = this st) by reflexivity.
  rewrite <- KB.
  cut (kept (this stB) (this st') /\ fought t1 t2 (store stB) (store st')).
  { intros [K F']. split; [exact K | exact (fought_trans _ _ _ _ _ F F')]. }
  clearbody stB. clear F KB stA.
  destruct (is_alive (store stB t1) && is_alive (store stB t2)).
  - inv_bind H. apply send_back_kept in Ha. apply send_back_kept in H.
    destruct Ha as [K1 E1], H as [K2 E2].
    split; [exact (kept_trans _ _ _ K1 K2)|].
    rewrite E2, E1. apply fought_refl.
  - destruct (is_alive (store stB t1)).
    + inv_bind H.
      exact (leveled_up_and_sent_back t1 t2 _ Side1 t1 stB st' a
               (or_introl eq_refl) Ha H).
    + destruct (is_alive (store stB t2)).
      * inv_bind H.
        exact (leveled_up_and_sent_back t1 t2 _ Side2 t2 stB st' a
                 (or_intror eq_refl) Ha H).
      * injection H as <-. split; [apply kept_refl | apply fought_refl].
Qed.

Lemma sudden_death_if_both_alive_kept (t1 t2 : ref) (st st' : State) :
  sudden_death_if_both_alive t1 t2 st = Ok st' ->
  kept (this st) (this st') /\ fought t1 t2 (store st) (store st').
Proof.
  unfold sudden_death_if_both_alive. intros H.
  destruct (_ && _).
  - apply _sudden_death_kept. exact H.
  - injection H as <-. split; [apply kept_refl | apply fought_refl].
Qed.

Lemma grown_defend (p : Pokemon) (damage : Q) : grown p (defend p damage).
Proof. repeat split; try reflexivity; cbn; lia. Qed.

Section Frames.

Variable EFFECT_TABLE : PokeType -> PokeType -> Q.

Lemma strike_kept (t1 t2 : ref) (s : Side) (a d : ref) (st st' : State) :
  d = t1 \/ d = t2 ->
  strike EFFECT_TABLE s a d st = Ok st' ->
  kept (this st) (this st') /\ fought t1 t2 (store st) (store st').
Proof.
  intros Hd H. unfold strike in H. inv_bind H. injection H as <-.
  split; [apply kept_refl|]. unfold hit. cbn [store set_store].
  apply fought_update; [exact Hd | apply grown_defend].
Qed.

Lemma exchange_kept (t1 t2 : ref) (s : Side) (a d : ref)
      (st st1 st2 : State) :
  (a = t1 /\ d = t2) \/ (a = t2 /\ d = t1) ->
  strike EFFECT_TABLE s a d st = Ok st1 ->
  _check_alive s a d st1 = Ok st2 ->
  kept (this st) (this st2) /\ fought t1 t2 (store st) (store st2).
Proof.
  intros Hr H1 H2.
  apply (strike_kept t1 t2) in H1; [|tauto].
  apply (_check_alive_kept t1 t2) in H2; [|tauto].
  destruct H1 as [K1 F1], H2 as [K2 F2].
  split; [exact (kept_trans _ _ _ K1 K2) | exact (fought_trans _ _ _ _ _ F1 F2)].
Qed.

Lemma _battle_round_kept (t1 t2 : ref) (st st' : State) :
  _battle_round EFFECT_TABLE t1 t2 st = Ok st' ->
  kept (this st) (this st') /\ fought t1 t2 (store st) (store st').
Proof.
  unfold _battle_round. intros H.
  assert (J : forall sA sB sC : State,
             kept (this sA) (this sB) /\ fought t1 t2 (store sA) (store sB) ->
             kept (this sB) (this sC) /\ fought t1 t2 (store sB) (store sC) ->
             kept (this sA) (this sC) /\ fought t1 t2 (store sA) (store sC)).
  { intros sA sB sC [K1 F1] [K2 F2].
    split; [exact (kept_trans _ _ _ K1 K2)
           | exact (fought_trans _ _ _ _ _ F1 F2)]. }
  destruct (Qcompare _ _).
  - inv_bind H. inv_bind H. inv_bind H. inv_bind H.
    apply (J st a0 st').
    + apply (exchange_kept t1 t2 Side1 t1 t2 st a a0); tauto.
    + apply (J a0 a2 st').
      * apply (exchange_kept t1 t2 Side2 t2 t1 a0 a1 a2); tauto.
      * apply sudden_death_if_both_alive_kept. exact H.
  - inv_bind H. inv_bind H.
    assert (E1 := exchange_kept t1 t2 Side2 t2 t1 st a a0
                    (or_intror (conj eq_refl eq_refl)) Ha Ha0).
    destruct (is_alive (store a0 t1)).
    + inv_bind H. inv_bind H.
      apply (J st a0 st' E1). apply (J a0 a2 st').
      * apply (exchange_kept t1 t2 Side1 t1 t2 a0 a1 a2); tauto.
      * apply sudden_death_if_both_alive_kept. exact H.
    + injection H as <-. exact E1.
  - inv_bind H. inv_bind H.
    assert (E1 := exchange_kept t1 t2 Side1 t1 t2 st a a0
                    (or_introl (conj eq_refl eq_refl)) Ha Ha0).
    destruct (is_alive (store a0 t2)).
    + inv_bind H. inv_bind H.
      apply (J st a0 st' E1). apply (J a0 a2 st').
      * apply (exchange_kept t1 t2 Side2 t2 t1 a0 a1 a2); tauto.
      * apply sudden_death_if_both_alive_kept. exact H.
    + injection H as <-. exact E1.
Qed.

(** X12: a round touches nothing but its two fighters.  Every other
    Pokemon is afterwards as it was; the two keep their class, type and
    experience and their level does not drop; and the battle keeps its
    mode, its criterion, its winner, and each trainer's name, pokedex,
    team memory and counters. *)
Theorem battle_round_touches_the_fighters_only (t1 t2 : ref)
    (st st' : State) :
  _battle_round EFFECT_TABLE t1 t2 st = Ok st' ->
  (forall r, r <> t1 -> r <> t2 -> store st' r = store st r) /\
  (forall r, klass (store st' r) = klass (store st r) /\
             poketype (store st' r) = poketype (store st r) /\
             experience (store st' r) = experience (store st r) /\
             (level (store st r) <= level (store st' r))%Z) /\
  winner_trainer (this st') = winner_trainer (this st) /\
  battle_mode (this st') = battle_mode (this st) /\
  criterion (this st') = criterion (this st) /\
  forall s,
    trainer_name (trainer (this st') s) = trainer_name (trainer (this st) s) /\
    pokedex (trainer (this st') s) = pokedex (trainer (this st) s) /\
    team_memory (get_team (trainer (this st') s))
    = team_memory (get_team (trainer (this st) s)) /\
    team_count (get_team (trainer (this st') s))
    = team_count (get_team (trainer (this st) s)) /\
    special_counter (get_team (trainer (this st') s))
    = special_counter (get_team (trainer (this st) s)).
Proof.
  intros H.
  destruct (_battle_round_kept t1 t2 st st' H) as [(K1 & K2 & K3) [F1 F2]].
  destruct (_battle_round_frame EFFECT_TABLE t1 t2 st st' H)
    as (W & _ & _ & _ & P).
  split; [exact F1|]. split; [exact F2|]. split; [exact W|].
  split; [exact K1|]. split; [exact K2|].
  intros s. destruct (K3 s) as (N & M & C & S & _).
  split; [exact N|]. split; [exact (P s)|].
  split; [exact M|]. split; [exact C | exact S].
Qed.

Lemma battle_step_kept (battle_type : BattleMode) (st st' : State) :
  battle_step EFFECT_TABLE battle_type st = Ok st' ->
  kept (this st) (this st') /\ forall r, grown (store st r) (store st' r).
Proof.
  unfold battle_step. intros H.
  inv_bind H. destruct a as [x1 c1].
  inv_bind H. destruct a as [x2 c2].
  inv_bind H. destruct a as [t1 t2].
  apply _battle_round_kept in H. destruct H as [K [_ G]].
  split; [|exact G].
  refine (kept_trans _ _ _ _ K). cbn [this set_this store].
  eapply kept_trans; [apply (kept_set_team_of Side1 c1)|].
  eapply kept_trans; [apply (kept_set_team_of Side2 c2)|].
  eapply kept_trans; [apply (kept_register Side1)|].
  apply (kept_register Side2).
Qed.

Lemma _conduct_battle_kept (battle_type : BattleMode) (fuel : nat) :
  forall st st',
    _conduct_battle EFFECT_TABLE fuel battle_type st = Some (Ok st') ->
    kept (this st) (this st') /\ forall r, grown (store st r) (store st' r).
Proof.
  induction fuel as [|fuel IH]; intros st st' H; [discriminate H|].
  cbn [_conduct_battle] in H.
  destruct (negb _ || negb _).
  - destruct (len (team_of (this st) Side1) =? 0)%nat.
    { injection H as <-.
      split; [apply kept_set_winner_trainer | intros r; apply grown_refl]. }
    destruct (len (team_of (this st) Side2) =? 0)%nat.
    { injection H as <-.
      split; [apply kept_set_winner_trainer | intros r; apply grown_refl]. }
    destruct (battle_step EFFECT_TABLE battle_type st) as [st1|e] eqn:E;
      [|discriminate H].
    apply battle_step_kept in E. destruct E as [K1 G1].
    destruct (IH st1 st' H) as [K2 G2].
    split; [exact (kept_trans _ _ _ K1 K2)|].
    intros r. exact (grown_trans _ _ _ (G1 r) (G2 r)).
  - injection H as <-. split; [apply kept_refl | intros r; apply grown_refl].
Qed.

(** X13: what a battle that comes to an end leaves as it was.  Every
    Pokemon keeps its class, type and experience and has a level no
    lower than before; the battle keeps its mode and criterion; each
    trainer keeps its name, the team's memory (so [regenerate_team] finds
    the whole team afterwards) and the team's counters, and each pokedex
    holds at least what it held. *)
Theorem commence_battle_keeps (fuel : nat) (st st' : State)
    (winner : option Side) :
  commence_battle EFFECT_TABLE fuel st = Some (Ok (winner, st')) ->
  (forall r, klass (store st' r) = klass (store st r) /\
             poketype (store st' r) = poketype (store st r) /\
             experience (store st' r) = experience (store st r) /\
             (level (store st r) <= level (store st' r))%Z) /\
  battle_mode (this st') = battle_mode (this st) /\
  criterion (this st') = criterion (this st) /\
  forall s,
    trainer_name (trainer (this st') s) = trainer_name (trainer (this st) s) /\
    team_memory (get_team (trainer (this st') s))
    = team_memory (get_team (trainer (this st) s)) /\
    team_count (get_team (trainer (this st') s))
    = team_count (get_team (trainer (this st) s)) /\
    special_counter (get_team (trainer (this st') s))
    = special_counter (get_team (trainer (this st) s)) /\
    incl (pokedex (trainer (this st) s)) (pokedex (trainer (this st') s)).
Proof.
  unfold commence_battle. intros H.
  destruct (_conduct_battle EFFECT_TABLE fuel (battle_mode (this st)) st)
    as [[st1|e]|] eqn:E; try discriminate H.
  injection H as _ <-.
  destruct (_conduct_battle_kept _ _ _ _ E) as [(K1 & K2 & K3) G].
  split; [exact G|]. split; [exact K1|]. split; [exact K2 | exact K3].
Qed.

End Frames.

Lemma battle_round_touches_the_fighters_only_witness :
  exists st',
    _battle_round sample_table 0%nat 1%nat duel_round = Ok st' /\
    (forall r, r <> 0%nat -> r <> 1%nat -> store st' r = store duel_round r) /\
    pokedex (trainer (this st') Side1)
    = pokedex (trainer (this duel_round) Side1).
Proof.
  assert (H : {x | _battle_round sample_table 0%nat 1%nat duel_round = Ok x})
    by (eexists; vm_compute; reflexivity).
  destruct H as [st' H].
  destruct (battle_round_touches_the_fighters_only sample_table
              0%nat 1%nat duel_round st' H) as (F & _ & _ & _ & _ & T).
  exists st'. split; [exact H|]. split; [exact F|].
  destruct (T Side1) as (_ & P & _). exact P.
Defined.

Lemma commence_battle_keeps_witness :
  exists st',
    commence_battle sample_table 5 mismatch = Some (Ok (Some Side1, st')) /\
    (forall r, klass (store st' r) = klass (store mismatch r)) /\
    team_memory (get_team (trainer (this st') Side2)) = Some [1%nat].
Proof.
  assert (H : {x | commence_battle sample_table 5 mismatch
                   = Some (Ok (Some Side1, x))})
    by (eexists; vm_compute; reflexivity).
  destruct H as [st' H].
  destruct (commence_battle_keeps sample_table 5 mismatch st' (Some Side1) H)
    as (G & _ & _ & T).
  exists st'. split; [exact H|]. split.
  - intros r. destruct (G r) as [K _]. exact K.
  - destruct (T Side2) as (_ & M & _). rewrite M. reflexivity.
Defined.

(* ------------------------------------------------------------------ *)
(** ** Indexing a team *)

Lemma pop_onto_enough (n : nat) :
  forall src dst, (n <= List.length src)%nat ->
    pop_onto n src dst = (skipn n src, rev (firstn n src) ++ dst, None).
Proof.
  induction n as [|n IH]; intros src dst Hn; [reflexivity|].
  destruct src as [|r src]; [simpl in Hn; lia|].
  cbn [pop_onto pop]. rewrite IH by (simpl in Hn; lia).
  unfold push. cbn [skipn firstn rev]. rewrite <- app_assoc. reflexivity.
Qed.

Lemma pop_onto_short (n : nat) :
  forall src dst, (List.length src < n)%nat ->
    pop_onto n src dst = ([], rev src ++ dst, Some EmptyContainer).
Proof.
  induction n as [|n IH]; intros src dst Hn; [lia|].
  destruct src as [|r src]; [reflexivity|].
  cbn [pop_onto pop]. rewrite IH by (simpl in Hn; lia).
  unfold push. cbn [rev]. rewrite <- app_assoc. reflexivity.
Qed.

(** X14: indexing a SET team.  With [n] the index (a negative index
    counts as 0), [team[index]] on a stack of more than [n] Pokemon
    returns the Pokemon [n] places below the top and leaves the stack as
    it was.  On a stack of [n] Pokemon or fewer the call raises the
    exception of the empty stack, and the team is left empty: the Pokemon
    moved aside are not put back. *)
Theorem getitem_ArrayStack_spec (s : list ref) (index : Z) :
  let n := Z.to_nat index in
  ((n < List.length s)%nat ->
   exists item, nth_error s n = Some item /\
                getitem_ArrayStack s index = (s, Returns item)) /\
  ((List.length s <= n)%nat ->
   getitem_ArrayStack s index = ([], Raises EmptyContainer)).
Proof.
  intros n. unfold getitem_ArrayStack. fold n. split; intros Hn.
  - rewrite pop_onto_enough by lia.
    destruct (skipn n s) as [|item rest] eqn:Es.
    { exfalso. apply (f_equal (@List.length ref)) in Es.
      rewrite length_skipn in Es. simpl in Es. lia. }
    exists item. split.
    + rewrite <- (Nat.add_0_r n), <- nth_error_skipn, Es. reflexivity.
    + cbn [peek]. rewrite drain_push_rev, app_nil_r, rev_involutive, <- Es.
      rewrite firstn_skipn. reflexivity.
  - destruct (Nat.eq_dec n (List.length s)) as [E|E].
    + rewrite pop_onto_enough by lia. rewrite E, skipn_all. reflexivity.
    + rewrite pop_onto_short by lia. reflexivity.
Qed.

Lemma getitem_ArrayStack_spec_witness :
  getitem_ArrayStack [5; 6; 7]%nat 1 = ([5; 6; 7]%nat, Returns 6%nat) /\
  getitem_ArrayStack [5; 6; 7]%nat 3 = ([], Raises EmptyContainer).
Proof.
  destruct (getitem_ArrayStack_spec [5; 6; 7]%nat 1) as [H1 _].
  destruct (getitem_ArrayStack_spec [5; 6; 7]%nat 3) as [_ H2].
  split.
  - destruct H1 as (item & Hi & H); [cbn; lia|].
    injection Hi as <-. exact H.
  - apply H2. cbn. lia.
Defined.

Lemma serve_each_spec (n : nat) :
  forall i0 index q item,
    (n <= List.length q)%nat ->
    serve_each (seq i0 n) index q item
    = (skipn n q ++ firstn n q,
       if ((Z.of_nat i0 <=? index) && (index <? Z.of_nat (i0 + n)))%Z
       then nth_error q (Z.to_nat index - i0)
       else item,
       None).
Proof.
  induction n as [|n IH]; intros i0 index q item Hn.
  - cbn [seq serve_each skipn firstn]. rewrite app_nil_r.
    replace ((Z.of_nat i0 <=? index) && (index <? Z.of_nat (i0 + 0)))%Z
      with false; [reflexivity|].
    symmetry. apply andb_false_iff.
    destruct (Z.leb_spec (Z.of_nat i0) index); [right|left; reflexivity].
    apply Z.ltb_ge. lia.
  - destruct q as [|r q]; [simpl in Hn; lia|]. simpl in Hn.
    cbn [seq serve_each serve]. rewrite IH by (unfold append; rewrite length_app; simpl; lia).
    unfold append.
    rewrite skipn_app, firstn_app.
    replace (n - List.length q)%nat with O by lia.
    cbn [skipn firstn]. rewrite app_nil_r, <- app_assoc. cbn [app].
    f_equal. f_equal.
    destruct (Z.eqb_spec (Z.of_nat i0) index) as [E|E].
    + replace ((Z.of_nat (S i0) <=? index) && (index <? Z.of_nat (S i0 + n)))%Z
        with false
        by (symmetry; apply andb_false_iff; left; apply Z.leb_gt; lia).
      replace ((Z.of_nat i0 <=? index) && (index <? Z.of_nat (i0 + S n)))%Z
        with true
        by (symmetry; apply andb_true_iff; split;
            [apply Z.leb_le | apply Z.ltb_lt]; lia).
      replace (Z.to_nat index - i0)%nat with O by lia. reflexivity.
    + destruct (Z.leb_spec (Z.of_nat (S i0)) index) as [L|L].
      * replace (Z.of_nat i0 <=? index)%Z with true
          by (symmetry; apply Z.leb_le; lia).
        replace (index <? Z.of_nat (i0 + S n))%Z
          with (index <? Z.of_nat (S i0 + n))%Z
          by (f_equal; lia).
        cbn [andb]. destruct (index <? Z.of_nat (S i0 + n))%Z eqn:U;
          [|reflexivity].
        apply Z.ltb_lt in U.
        replace (Z.to_nat index - i0)%nat with (S (Z.to_nat index - S i0))
          by lia.
        cbn [nth_error]. apply nth_error_app1. lia.
      * replace (Z.of_nat i0 <=? index)%Z with false
          by (symmetry; apply Z.leb_gt; lia).
        reflexivity.
Qed.

(** X15: indexing a ROTATE team.  [team[index]] on a queue serves and
    appends every Pokemon once, so the queue is afterwards in the order
    it had, whatever the index; for an index within the queue the call
    returns the Pokemon that many places behind the front, and for any
    other index, negative ones included, no Pokemon is ever bound and the
    call ends in [UnboundLocalError]. *)
Theorem getitem_CircularQueue_spec (q : list ref) (index : Z) :
  ((0 <= index < Z.of_nat (List.length q))%Z ->
   exists item, nth_error q (Z.to_nat index) = Some item /\
                getitem_CircularQueue q index = (q, Returns item)) /\
  ((index < 0 \/ Z.of_nat (List.length q) <= index)%Z ->
   getitem_CircularQueue q index = (q, Unbound)).
Proof.
  unfold getitem_CircularQueue.
  rewrite (serve_each_spec (List.length q) 0 index q None (le_n _)).
  rewrite skipn_all, firstn_all, Nat.sub_0_r. cbn [app Nat.add].
  split; intros H.
  - replace ((Z.of_nat 0 <=? index) && (index <? Z.of_nat (List.length q)))%Z
      with true
      by (symmetry; apply andb_true_iff; split;
          [apply Z.leb_le | apply Z.ltb_lt]; lia).
    destruct (nth_error q (Z.to_nat index)) as [item|] eqn:E.
    + exists item. split; reflexivity.
    + apply nth_error_None in E. lia.
  - replace ((Z.of_nat 0 <=? index) && (index <? Z.of_nat (List.length q)))%Z
      with false; [reflexivity|].
    symmetry. apply andb_false_iff.
    destruct H as [H|H]; [left; apply Z.leb_gt | right; apply Z.ltb_ge]; lia.
Qed.

Lemma getitem_CircularQueue_spec_witness :
  getitem_CircularQueue [5; 6; 7]%nat 1 = ([5; 6; 7]%nat, Returns 6%nat) /\
  getitem_CircularQueue [5; 6; 7]%nat 3 = ([5; 6; 7]%nat, Unbound).
Proof.
  destruct (getitem_CircularQueue_spec [5; 6; 7]%nat 1) as [H1 _].
  destruct (getitem_CircularQueue_spec [5; 6; 7]%nat 3) as [_ H2].
  split.
  - destruct H1 as (item & Hi & H); [cbn; lia|].
    injection Hi as <-. exact H.
  - apply H2. right. cbn. lia.
Defined.

Lemma special_kind (m : BattleMode) (self self' : PokeTeam) :
  kind_of_mode m (team self) -> special m self = Ok self' ->
  kind_of_mode m (team self').
Proof.
  unfold special. intros K H.
  destruct m, (team self); cbn in K; try contradiction;
    inv_bind H; try destruct a as [x y]; injection H as <-; exact I.
Qed.

Lemma len_of_kind (m : BattleMode) (self : PokeTeam) :
  kind_of_mode m (team self) ->
  __len__ self = List.length (members (team self)).
Proof.
  intros K. rewrite len_members. unfold __len__.
  destruct m, (team self); cbn in K; try contradiction; reflexivity.
Qed.

(** X16: what [len(team)] says.  On the array of a chosen team it is the
    team's counter: [TEAM_LIMIT] after a random choice into a new team,
    but after a choice by hand the counter the team had plus the number
    chosen, since [choose_manually] does not reset it.  Once the team is assembled it is
    the number of Pokemon in the container, which is the number the array
    held, and a special does not change it. *)
Theorem len_of_a_team (h : Store) (battle_mode : BattleMode)
    (criterion : option string) (self self1 : PokeTeam) (a : list ref) :
  team self = ArrayR a ->
  assemble_team h battle_mode criterion self = Ok self1 ->
  __len__ self = team_count self /\
  __len__ self1 = List.length a /\
  (forall self2, special battle_mode self1 = Ok self2 ->
                 __len__ self2 = List.length a) /\
  (forall drawn, __len__ (choose_randomly drawn PokeTeam_init) = TEAM_LIMIT) /\
  (forall chosen,
     __len__ (choose_manually chosen self)
     = (team_count self + List.length chosen)%nat).
Proof.
  intros Ht H.
  pose proof (assemble_team_kind _ _ _ _ _ H) as K.
  destruct (assemble_team_members _ _ _ _ _ a Ht H) as (P & _).
  split; [unfold __len__; rewrite Ht; reflexivity|].
  split; [rewrite (len_of_kind _ _ K); exact (Permutation_length P)|].
  split; [|split; reflexivity].
  intros self2 H2.
  rewrite (len_of_kind _ _ (special_kind _ _ _ K H2)).
  destruct (special_members _ _ _ H2) as [P2 _].
  rewrite (Permutation_length P2). exact (Permutation_length P).
Qed.

Lemma len_of_a_team_witness :
  exists self1,
    assemble_team level_one_store ROTATE None four_chosen = Ok self1 /\
    __len__ self1 = 4%nat /\
    __len__ (choose_manually [7; 8]%nat four_chosen) = 6%nat.
Proof.
  assert (H : {x | assemble_team level_one_store ROTATE None four_chosen
                   = Ok x}) by (eexists; reflexivity).
  destruct H as [self1 H].
  destruct (len_of_a_team level_one_store ROTATE None four_chosen self1
              [0; 1; 2; 3]%nat eq_refl H) as (_ & L1 & _ & _ & L3).
  exists self1. split; [exact H|]. split; [exact L1|].
  exact (L3 [7; 8]%nat).
Defined.

(* ------------------------------------------------------------------ *)
(** ** Properties of [tower.py] *)

Lemma lives_left_app (q1 q2 : list (Trainer * Z)) :
  lives_left (q1 ++ q2) = (lives_left q1 + lives_left q2)%Z.
Proof.
  induction q1 as [|e q1 IH]; [reflexivity|].
  change (lives_left ((e :: q1) ++ q2))
    with (snd e + lives_left (q1 ++ q2))%Z.
  change (lives_left (e :: q1)) with (snd e + lives_left q1)%Z.
  rewrite IH. lia.
Qed.

Section TowerProperties.

Variable EFFECT_TABLE : PokeType -> PokeType -> Q.
Variable POKE_LIST : list string.
Variable POKE_HEALTH : list Q.

(** X17: the books of the tower after a battle.  The player loses a life
    unless the player wins and the enemy loses one unless the enemy wins,
    so a draw costs both a life; the count of defeated enemies goes up
    exactly when the enemy loses a life (a draw counts), hence the count
    plus the lives left in the queue is the same after every battle.  The
    enemy goes to the back of the queue if it has a life left and leaves
    the tower otherwise; each battle takes at least one life, and if all
    lives were positive, the enemies' still are and the player's is not
    negative. *)
Theorem next_battle_books (fuel : nat) (h h' : Store)
    (self self' : BattleTower) (report : Report)
    (player enemy : Trainer) (player_lives enemy_lives : Z)
    (queue : list (Trainer * Z)) :
  player_trainer_lives self = Some (player, player_lives) ->
  enemy_trainer_lives self = Some ((enemy, enemy_lives) :: queue) ->
  next_battle EFFECT_TABLE POKE_LIST POKE_HEALTH fuel h self
  = Some (Ok (h', self', report)) ->
  let w := report_winner report in
  let pl := report_player_lives report in
  let el := report_enemy_lives report in
  pl = (player_lives - match w with Some Side1 => 0 | _ => 1 end)%Z /\
  el = (enemy_lives - match w with Some Side2 => 0 | _ => 1 end)%Z /\
  (enemies_defeated self' - enemies_defeated self = enemy_lives - el)%Z /\
  player_trainer_lives self' = Some (report_player report, pl) /\
  exists queue',
    enemy_trainer_lives self' = Some queue' /\
    queue' = (if (el =? 0)%Z then queue
              else queue ++ [(report_enemy report, el)]) /\
    (enemies_defeated self' + lives_left queue'
     = enemies_defeated self + lives_left ((enemy, enemy_lives) :: queue))%Z /\
    (pl + lives_left queue'
     < player_lives + lives_left ((enemy, enemy_lives) :: queue))%Z /\
    ((0 < player_lives)%Z ->
     (forall e, In e ((enemy, enemy_lives) :: queue) -> (0 < snd e)%Z) ->
     (0 <= pl)%Z /\ forall e, In e queue' -> (0 < snd e)%Z).
Proof.
  intros Hp He H. unfold next_battle in H. rewrite Hp, He in H.
  destruct (commence_battle _ _ _) as [[[w st]|e]|]; try discriminate H.
  set (lives := match w with
                | None => (player_lives - 1, enemy_lives - 1,
                           enemy_defeated_count self + 1)
                | Some Side1 => (player_lives, enemy_lives - 1,
                                 enemy_defeated_count self + 1)
                | Some Side2 => (player_lives - 1, enemy_lives,
                                 enemy_defeated_count self)
                end%Z) in H.
  assert (Hl : lives =
    (player_lives - match w with Some Side1 => 0 | _ => 1 end,
     enemy_lives - match w with Some Side2 => 0 | _ => 1 end,
     enemy_defeated_count self
     + match w with Some Side2 => 0 | _ => 1 end)%Z).
  { unfold lives. destruct w as [[|]|]; f_equal; try f_equal; lia. }
  rewrite Hl in H. clear Hl lives.
  set (pl := (player_lives - match w with Some Side1 => 0 | _ => 1 end)%Z) in *.
  set (el := (enemy_lives - match w with Some Side2 => 0 | _ => 1 end)%Z) in *.
  injection H as H. inv_bind H. destruct a as [[h1 e1] q1].
  inv_bind H. destruct a as [h2 p2]. injection H as <- <- <-.
  cbn [report_winner report_player_lives report_enemy_lives report_player
       report_enemy player_trainer_lives enemy_trainer_lives
       enemies_defeated enemy_defeated_count].
  unfold enemies_defeated. fold pl. fold el.
  assert (Hq : q1 = if (el =? 0)%Z then queue else queue ++ [(e1, el)]).
  { destruct (el =? 0)%Z.
    - injection Ha as _ _ <-. reflexivity.
    - inv_bind Ha. destruct a as [h3 e3]. injection Ha as _ <- <-.
      reflexivity. }
  assert (Hsum : (lives_left q1 = lives_left queue + el)%Z).
  { rewrite Hq. destruct (Z.eqb_spec el 0) as [E|E]; [lia|].
    rewrite lives_left_app. cbn. lia. }
  split; [reflexivity|]. split; [reflexivity|].
  split; [unfold el; destruct w as [[|]|]; lia|]. split; [reflexivity|].
  exists q1. split; [reflexivity|]. split; [exact Hq|].
  cbn [lives_left fold_right] in *. fold (lives_left queue).
  split; [unfold el in *; cbn [snd]; destruct w as [[|]|]; lia|].
  split; [unfold pl, el in *; cbn [snd]; destruct w as [[|]|]; lia|].
  intros Hpos Hall. split; [unfold pl; destruct w as [[|]|]; lia|].
  intros e' Hin. rewrite Hq in Hin.
  assert (Hel : (0 <= el)%Z).
  { pose proof (Hall _ (or_introl eq_refl)) as H0. cbn [snd] in H0.
    unfold el. destruct w as [[|]|]; lia. }
  destruct (Z.eqb_spec el 0) as [E|E].
  - apply Hall. right. exact Hin.
  - apply in_app_or in Hin. destruct Hin as [Hin|[<-|[]]].
    + apply Hall. right. exact Hin.
    + cbn [snd]. lia.
Qed.

End TowerProperties.

Lemma next_battle_books_witness :
  exists h' self' report,
    next_battle sample_table mismatch_POKE_LIST mismatch_POKE_HEALTH 5
                mismatch_store mismatch_tower = Some (Ok (h', self', report)) /\
    report_winner report = Some Side1 /\
    report_player_lives report = 2%Z /\
    report_enemy_lives report = 0%Z /\
    enemies_defeated self' = 1%Z /\
    enemy_trainer_lives self' = Some [].
Proof.
  assert (H : {x | next_battle sample_table mismatch_POKE_LIST
                     mismatch_POKE_HEALTH 5 mismatch_store mismatch_tower
                   = Some (Ok x)}) by (eexists; vm_compute; reflexivity).
  destruct H as [[[h' self'] report] H].
  assert (W : report_winner report = Some Side1).
  { cbv in H. injection H as _ _ <-. reflexivity. }
  destruct (next_battle_books sample_table mismatch_POKE_LIST
              mismatch_POKE_HEALTH 5 mismatch_store h' mismatch_tower self'
              report _ _ 2%Z 1%Z [] eq_refl eq_refl H)
    as (L1 & L2 & L3 & _ & queue' & Q1 & Q2 & _).
  rewrite W in L1, L2. cbn in L1, L2.
  exists h', self', report.
  split; [exact H|]. split; [exact W|]. split; [exact L1|].
  split; [exact L2|].
  split; [rewrite L2 in L3; cbn in L3; lia|].
  rewrite Q1, Q2, L2. reflexivity.
Defined.

Lemma index_unique (x : string) (l : list string) (i j : nat) :
  index x l = Ok i -> index x l = Ok j -> i = j.
Proof. congruence. Qed.

(** What [regenerate_team] in ROTATE mode does to the store and to the
    team of a trainer whose memory is [memory]. *)
Lemma regenerate_trainer_effect (POKE_LIST : list string)
      (POKE_HEALTH : list Q) (h h' : Store) (t t' : Trainer)
      (memory : list ref) :
  team_memory (get_team t) = Some memory ->
  regenerate_trainer POKE_LIST POKE_HEALTH h t = Ok (h', t') ->
  team_memory (get_team t') = Some memory /\
  Permutation (members (team (get_team t'))) memory /\
  (exists q, team (get_team t') = CircularQueue q) /\
  (forall r, In r memory ->
     exists i baseline,
       index (klass (h r)) POKE_LIST = Ok i /\
       nth_error POKE_HEALTH i = Some baseline /\
       h' r = set_health baseline (h r)) /\
  (forall r, ~ In r memory -> h' r = h r).
Proof.
  intros Hm H. unfold regenerate_trainer in H. inv_bind H.
  destruct a as [h1 team1]. injection H as <- <-.
  rename Ha into H. unfold regenerate_team in H. rewrite Hm in H.
  inv_bind H. rename a into h2, Ha into Hh.
  inv_bind H. rename a into s1, Ha into Ha1.
  destruct (assemble_team_members h2 ROTATE None
              (set_team (ArrayR memory) (get_team t)) s1 memory eq_refl Ha1)
    as (P1 & M1 & C1).
  pose proof (assemble_team_kind _ _ _ _ _ Ha1) as K1.
  cbn [team_memory set_team] in M1.
  assert (Hfinal : h1 = h2 /\
                   Permutation (members (team team1)) memory /\
                   team_memory team1 = Some memory /\
                   kind_of_mode ROTATE (team team1)).
  { destruct (_ =? 1)%nat.
    - inv_bind H. injection H as <- <-.
      destruct (special_members _ _ _ Ha) as [P2 M2].
      split; [reflexivity|]. split; [rewrite P2; exact P1|].
      split; [rewrite M2, M1; exact Hm|].
      exact (special_kind _ _ _ K1 Ha).
    - injection H as <- <-. split; [reflexivity|]. split; [exact P1|].
      split; [rewrite M1; exact Hm | exact K1]. }
  destruct Hfinal as (-> & P & M & K).
  pose proof (regenerate_health_spec _ _ _ _ _ Hh) as Hspec.
  cbn [get_team set_poke_team poke_team].
  split; [exact M|]. split; [exact P|]. split.
  { destruct (team team1) as [a|s|q|l]; cbn in K; try contradiction.
    exists q. reflexivity. }
  split; intros r Hr; apply (Hspec r); exact Hr.
Qed.

Section TowerTeams.

Variable EFFECT_TABLE : PokeType -> PokeType -> Q.
Variable POKE_LIST : list string.
Variable POKE_HEALTH : list Q.

(** X18: in the tower the fainted come back.  After a battle of the
    tower, a trainer that has a life left (the player for side 1, the
    enemy for side 2) has its team regenerated from the memory it had
    before the battle: the queue holds every Pokemon of the memory, those
    that fainted in the battle included, each with the health its class
    starts with, its class unchanged and its level no lower than before
    the battle. *)
Theorem next_battle_regenerates (fuel : nat) (h h' : Store)
    (self self' : BattleTower) (report : Report)
    (player enemy : Trainer) (player_lives enemy_lives : Z)
    (queue : list (Trainer * Z)) (s : Side) (memory : list ref) :
  player_trainer_lives self = Some (player, player_lives) ->
  enemy_trainer_lives self = Some ((enemy, enemy_lives) :: queue) ->
  next_battle EFFECT_TABLE POKE_LIST POKE_HEALTH fuel h self
  = Some (Ok (h', self', report)) ->
  let before := match s with Side1 => player | Side2 => enemy end in
  let after := match s with
               | Side1 => report_player report
               | Side2 => report_enemy report
               end in
  let lives := match s with
               | Side1 => report_player_lives report
               | Side2 => report_enemy_lives report
               end in
  team_memory (get_team before) = Some memory ->
  lives <> 0%Z ->
  team_memory (get_team after) = Some memory /\
  Permutation (members (team (get_team after))) memory /\
  (exists q, team (get_team after) = CircularQueue q) /\
  forall r, In r memory ->
    exists i baseline,
      index (klass (h r)) POKE_LIST = Ok i /\
      nth_error POKE_HEALTH i = Some baseline /\
      health (h' r) = baseline /\
      klass (h' r) = klass (h r) /\
      (level (h r) <= level (h' r))%Z.
Proof.
  intros Hp He H before after lives Hm Hl.
  unfold next_battle in H. rewrite Hp, He in H.
  destruct (commence_battle _ _ _) as [[[w st]|e]|] eqn:Ec;
    try discriminate H.
  unfold commence_battle in Ec.
  destruct (_conduct_battle _ _ _ _) as [[st1|e]|] eqn:Eb;
    try discriminate Ec.
  injection Ec as <- <-.
  destruct (_conduct_battle_kept _ _ _ _ _ Eb) as [(_ & _ & K) G].
  cbn [this store] in K, G.
  set (lv := match winner_trainer (this st1) with
             | None => _ | Some Side1 => _ | Some Side2 => _ end) in H.
  destruct lv as [[pl el] count].
  injection H as H. inv_bind H. destruct a as [[h1 e1] q1].
  inv_bind H. destruct a as [h2 p2]. injection H as <- <- <-.
  cbn [report_player report_enemy report_player_lives report_enemy_lives]
    in after, lives.
  (* what the enemy's regeneration does, if it takes place *)
  assert (He1 : el <> 0%Z ->
                regenerate_trainer POKE_LIST POKE_HEALTH (store st1)
                                   (trainer_2 (this st1)) = Ok (h1, e1)).
  { intros Hne. destruct (Z.eqb_spec el 0) as [E|E];
      [contradiction|].
    inv_bind Ha. destruct a as [h3 e3]. injection Ha as <- <- _.
    exact Ha1. }
  assert (Hh1 : forall r, klass (h1 r) = klass (store st1 r) /\
                          level (h1 r) = level (store st1 r)).
  { destruct (Z.eqb_spec el 0) as [E|E].
    - injection Ha as <- _ _. intros r. split; reflexivity.
    - inv_bind Ha. destruct a as [h3 e3]. injection Ha as <- _ _.
      destruct (team_memory (get_team (trainer_2 (this st1)))) as [me|] eqn:Eme.
      + destruct (regenerate_trainer_effect _ _ _ _ _ _ me Eme Ha1)
          as (_ & _ & _ & R1 & R2).
        intros r. destruct (in_dec Nat.eq_dec r me) as [Hin|Hin].
        * destruct (R1 r Hin) as (i & b & _ & _ & ->). split; reflexivity.
        * rewrite (R2 r Hin). split; reflexivity.
      + unfold regenerate_trainer, regenerate_team in Ha1.
        rewrite Eme in Ha1. discriminate Ha1. }
  assert (Hh2 : forall r, klass (h2 r) = klass (h1 r) /\
                          level (h2 r) = level (h1 r) /\
                          (forall mp, team_memory (get_team (trainer_1 (this st1)))
                                      = Some mp -> ~ In r mp \/ pl = 0%Z ->
                                      h2 r = h1 r)).
  { destruct (Z.eqb_spec pl 0) as [E|E].
    - injection Ha0 as <- _. intros r. repeat split; reflexivity.
    - destruct (team_memory (get_team (trainer_1 (this st1)))) as [mp|] eqn:Emp.
      + destruct (regenerate_trainer_effect _ _ _ _ _ _ mp Emp Ha0)
          as (_ & _ & _ & R1 & R2).
        intros r. destruct (in_dec Nat.eq_dec r mp) as [Hin|Hin].
        * destruct (R1 r Hin) as (i & b & _ & _ & ->).
          split; [reflexivity|]. split; [reflexivity|].
          intros mp' Hmp' [Hn|Hn]; [|contradiction].
          injection Hmp' as <-. contradiction.
        * rewrite (R2 r Hin). repeat split; reflexivity.
      + unfold regenerate_trainer, regenerate_team in Ha0.
        rewrite Emp in Ha0. discriminate Ha0. }
  destruct s.
  - (* the player *)
    subst before after lives.
    destruct (K Side1) as (_ & KM & _). cbn [trainer Battle_init trainer_1] in KM.
    rewrite Hm in KM.
    destruct (Z.eqb_spec pl 0) as [E|E]; [contradiction|].
    destruct (regenerate_trainer_effect _ _ _ _ _ _ memory KM Ha0)
      as (M & P & Q & R1 & _).
    split; [exact M|]. split; [exact P|]. split; [exact Q|].
    intros r Hr. destruct (R1 r Hr) as (i & b & I1 & I2 & I3).
    destruct (Hh1 r) as [Hk1 Hv1]. destruct (G r) as (Gk & _ & _ & Gl).
    exists i, b. rewrite Hk1, Gk in I1.
    split; [exact I1|]. split; [exact I2|]. rewrite I3.
    cbn [health klass level set_health].
    split; [reflexivity|]. split; [congruence | lia].
  - (* the enemy *)
    subst before after lives.
    destruct (K Side2) as (_ & KM & _). cbn [trainer Battle_init trainer_2] in KM.
    rewrite Hm in KM.
    pose proof (He1 Hl) as Hreg.
    destruct (regenerate_trainer_effect _ _ _ _ _ _ memory KM Hreg)
      as (M & P & Q & R1 & _).
    split; [exact M|]. split; [exact P|]. split; [exact Q|].
    intros r Hr. destruct (R1 r Hr) as (i & b & I1 & I2 & I3).
    destruct (G r) as (Gk & _ & _ & Gl).
    destruct (Hh2 r) as (Hk2 & Hv2 & Hsame).
    exists i, b. rewrite Gk in I1.
    split; [exact I1|]. split; [exact I2|].
    split.
    + destruct (Z.eqb_spec pl 0) as [E|E].
      * injection Ha0 as <- _. rewrite I3. reflexivity.
      * destruct (team_memory (get_team (trainer_1 (this st1))))
          as [mp|] eqn:Emp.
        -- destruct (regenerate_trainer_effect _ _ _ _ _ _ mp Emp Ha0)
             as (_ & _ & _ & S1 & S2).
           destruct (in_dec Nat.eq_dec r mp) as [Hin|Hin].
           ++ destruct (S1 r Hin) as (j & b' & J1 & J2 & ->).
              cbn [health set_health].
              rewrite I3 in J1. cbn [klass set_health] in J1.
              rewrite Gk in J1.
              pose proof (index_unique _ _ _ _ I1 J1) as <-.
              congruence.
           ++ rewrite (S2 r Hin), I3. reflexivity.
        -- unfold regenerate_trainer, regenerate_team in Ha0.
           rewrite Emp in Ha0. discriminate Ha0.
    + rewrite Hk2, Hv2, I3. cbn [klass level set_health].
      split; [exact Gk | exact Gl].
Qed.

End TowerTeams.

Lemma next_battle_regenerates_witness :
  exists h' self' report,
    next_battle sample_table mismatch_POKE_LIST mismatch_POKE_HEALTH 5
                mismatch_store mismatch_tower = Some (Ok (h', self', report)) /\
    team (get_team (report_player report)) = CircularQueue [0%nat] /\
    health (h' 0%nat) = 100 /\
    (level (mismatch_store 0%nat) <= level (h' 0%nat))%Z.
Proof.
  assert (H : {x | next_battle sample_table mismatch_POKE_LIST
                     mismatch_POKE_HEALTH 5 mismatch_store mismatch_tower
                   = Some (Ok x)}) by (eexists; vm_compute; reflexivity).
  destruct H as [[[h' self'] report] H].
  assert (L : report_player_lives report <> 0%Z).
  { cbv in H. injection H as _ _ <-. discriminate. }
  destruct (next_battle_regenerates sample_table mismatch_POKE_LIST
              mismatch_POKE_HEALTH 5 mismatch_store h' mismatch_tower self'
              report _ _ 2%Z 1%Z [] Side1 [0%nat] eq_refl eq_refl H
              eq_refl L)
    as (_ & P & (q & Q) & R).
  destruct (R 0%nat (or_introl eq_refl)) as (i & b & I1 & I2 & I3 & _ & I5).
  exists h', self', report.
  split; [exact H|]. split.
  - rewrite Q in P |- *. cbn [members] in P.
    apply Permutation_sym, Permutation_length_1_inv in P.
    rewrite P. reflexivity.
  - split; [|exact I5].
    rewrite I3. cbv in I1. injection I1 as <-. cbv in I2.
    injection I2 as <-. reflexivity.
Defined.

(* ------------------------------------------------------------------ *)
(** ** A pass of the loop at equal speed *)

Lemma returned_members (b : Battle) (s : Side) (r : ref) (p : Pokemon)
      (c : Container) :
  returned b s r p c ->
  Permutation (members c) (r :: members (team_of b s)) /\
  same_kind (team_of b s) c.
Proof.
  unfold returned. intros Hr.
  destruct (team_of b s) as [a|stack|queue|l];
    destruct c as [a'|stack'|queue'|l']; try contradiction.
  - subst stack'. split; [apply Permutation_refl | exact I].
  - subst queue'. split; [|exact I]. cbn [members]. unfold append.
    apply Permutation_sym, Permutation_cons_append.
  - destruct Hr as (k & _ & ->). split; [|exact I]. cbn [members].
    change (r :: map value l) with (map value (mkListItem r k :: l)).
    apply Permutation_map, add_Permutation.
Qed.

(** The state in which the round of a pass of the loop is fought: the two
    fighters are out of their teams and registered. *)
Lemma battle_step_enters_round (EFFECT_TABLE : PokeType -> PokeType -> Q)
      (battle_type : BattleMode) (st : State) (r1 r2 : ref) :
  kind_of_mode battle_type (team_of (this st) Side1) ->
  kind_of_mode battle_type (team_of (this st) Side2) ->
  In (criterion (this st)) CRITERION_LIST ->
  hd_error (members (team_of (this st) Side1)) = Some r1 ->
  hd_error (members (team_of (this st) Side2)) = Some r2 ->
  exists stR,
    battle_step EFFECT_TABLE battle_type st
    = _battle_round EFFECT_TABLE r1 r2 stR /\
    store stR = store st /\
    ready (this stR) /\
    ~ completion stR Side1 == 0 /\ ~ completion stR Side2 == 0 /\
    members (team_of (this st) Side1)
    = r1 :: members (team_of (this stR) Side1) /\
    members (team_of (this st) Side2)
    = r2 :: members (team_of (this stR) Side2) /\
    kind_of_mode battle_type (team_of (this stR) Side1) /\
    kind_of_mode battle_type (team_of (this stR) Side2).
Proof.
  intros K1 K2 Hc Hh1 Hh2.
  destruct (_get_next_pokemon_head _ _ _ K1 Hh1) as (x1 & c1 & N1 & M1 & K1' & X1).
  destruct (_get_next_pokemon_head _ _ _ K2 Hh2) as (x2 & c2 & N2 & M2 & K2' & X2).
  unfold battle_step. rewrite N1. cbn [bind].
  change (this (set_this ?b _)) with b.
  rewrite (team_of_set_team_of_neq Side1 Side2 c1 (this st))
    by discriminate.
  rewrite N2. cbn [bind].
  assert (Hx : match battle_type, x1, x2 with
               | (SET | ROTATE), PPokemon a, PPokemon b => Ok (a, b)
               | OPTIMISE, PItem i1, PItem i2 => Ok (value i1, value i2)
               | _, _, _ => Raise AttributeError
               end = Ok (r1, r2)).
  { destruct battle_type, x1, x2; try contradiction; subst; reflexivity. }
  rewrite Hx. cbn [bind]. clear Hx X1 X2 N1 N2.
  match goal with
  | |- exists stR, _battle_round _ _ _ ?s = _ /\ _ => exists s; set (stR := s)
  end.
  assert (T1 : team_of (this stR) Side1 = c1) by reflexivity.
  assert (T2 : team_of (this stR) Side2 = c2) by reflexivity.
  assert (Hcr : criterion (this stR) = criterion (this st)) by reflexivity.
  split; [reflexivity|]. split; [reflexivity|].
  split.
  { split; [rewrite Hcr; exact Hc|]. rewrite T1, T2.
    exact (kind_of_mode_same_kind _ _ _ K1' K2'). }
  split.
  { intros E. pose proof (completion_after_register_pos
        (trainer_1 (set_team_of Side2 c2 (set_team_of Side1 c1 (this st))))
        (store st r2)) as P.
    change (completion stR Side1) with
      (get_pokedex_completion
         (register_pokemon
            (trainer_1 (set_team_of Side2 c2 (set_team_of Side1 c1 (this st))))
            (store st r2))) in E.
    rewrite E in P. discriminate P. }
  split.
  { intros E. pose proof (completion_after_register_pos
        (trainer_2 (set_team_of Side2 c2 (set_team_of Side1 c1 (this st))))
        (store st r1)) as P.
    change (completion stR Side2) with
      (get_pokedex_completion
         (register_pokemon
            (trainer_2 (set_team_of Side2 c2 (set_team_of Side1 c1 (this st))))
            (store st r1))) in E.
    rewrite E in P. discriminate P. }
  rewrite T1, T2. repeat split; assumption.
Qed.

Lemma settled_conserved (st st' : State) (s : Side) (r : ref) :
  same_kind (team_of (this st) s) (team_of (this st) s) ->
  settled st st' s r ->
  conserved (members (team_of (this st) s)) st' s r /\
  same_kind (team_of (this st) s) (team_of (this st') s).
Proof. intros Hk Hs. exact (settled_members st st' s r Hk Hs). Qed.

Section Ties.

Variable EFFECT_TABLE : PokeType -> PokeType -> Q.

Lemma completion_set_team_of (st : State) (s s' : Side) (c : Container)
      (h : Store) :
  completion (set_this (set_team_of s c (this st)) (set_store h st)) s'
  = completion st s'.
Proof. destruct s, s'; reflexivity. Qed.

(** A round at equal speed between two Pokemon that are alive: it never
    raises, and unless both are fainted afterwards, each team holds its
    fighter again if and only if the fighter is alive. *)
Lemma tie_round_conserves (t1 t2 : ref) (st : State) :
  speed (store st t1) == speed (store st t2) ->
  t1 <> t2 -> ready (this st) ->
  stage_in_line (store st t1) -> stage_in_line (store st t2) ->
  ~ completion st Side1 == 0 -> ~ completion st Side2 == 0 ->
  is_alive (store st t1) = true -> is_alive (store st t2) = true ->
  exists st',
    _battle_round EFFECT_TABLE t1 t2 st = Ok st' /\
    (is_alive (store st' t1) = true \/ is_alive (store st' t2) = true ->
     (conserved (members (team_of (this st) Side1)) st' Side1 t1 /\
      same_kind (team_of (this st) Side1) (team_of (this st') Side1)) /\
     (conserved (members (team_of (this st) Side2)) st' Side2 t2 /\
      same_kind (team_of (this st) Side2) (team_of (this st') Side2))).
Proof.
  intros Hspeed Hne Hready Hs1 Hs2 Hc1 Hc2 L1 L2.
  pose proof (proj1 Hready) as Hcrit.
  assert (Hne' : t2 <> t1) by auto.
  unfold _battle_round. apply Qeq_alt in Hspeed. rewrite Hspeed.
  destruct (strike_ok EFFECT_TABLE Side1 t1 t2 st Hc2) as [dmg1 Hstrike1].
  rewrite Hstrike1. cbn [bind].
  set (sA := hit st t2 dmg1).
  assert (EA1 : store sA t1 = store st t1)
    by (apply store_hit_other; exact Hne).
  assert (EA2 : store sA t2 = defend (store st t2) (inject_Z dmg1))
    by apply store_hit_same.
  assert (SA2 : stage_in_line (store sA t2)) by (rewrite EA2; exact Hs2).
  destruct (is_alive (store sA t2)) eqn:LA2.
  - (* side 2 stands after the first blow *)
    rewrite (_check_alive_up Side1 t1 t2 sA LA2). cbn [bind].
    destruct (strike_ok EFFECT_TABLE Side2 t2 t1 sA Hc1) as [dmg2 Hstrike2].
    rewrite Hstrike2. cbn [bind].
    set (sC := hit sA t1 dmg2).
    assert (EC2 : store sC t2 = store sA t2)
      by (apply store_hit_other; exact Hne').
    assert (EC1 : store sC t1 = defend (store sA t1) (inject_Z dmg2))
      by apply store_hit_same.
    destruct (is_alive (store sC t1)) eqn:LC1.
    + (* both stand: sudden death *)
      rewrite (_check_alive_up Side2 t2 t1 sC LC1). cbn [bind].
      unfold sudden_death_if_both_alive.
      fold (is_alive (store sC t1)) (is_alive (store sC t2)).
      rewrite LC1, EC2, LA2. cbn [andb].
      destruct (settled_of_sudden_death sC t1 t2 Hne Hready)
        as (st' & Hsd & S1 & S2).
      { rewrite EC1, EA1. exact Hs1. }
      { rewrite EC2. exact SA2. }
      exists st'. split; [exact Hsd|]. intros _.
      split.
      * exact (settled_conserved sC st' Side1 t1 (ready_side _ Side1 Hready) S1).
      * exact (settled_conserved sC st' Side2 t2 (ready_side _ Side2 Hready) S2).
    + (* side 1 is brought down by the second blow *)
      destruct (_check_alive_down Side2 t2 t1 sC Hcrit
                  (ready_side _ Side2 Hready)) as (p' & c & Hup & Hcheck & Hret).
      { rewrite EC2. exact SA2. }
      { exact LC1. }
      rewrite Hcheck. cbn [bind].
      set (sD := set_this _ _).
      assert (ED1 : store sD t1 = store sC t1)
        by (subst sD; cbn [store set_this set_store];
            apply update_other; exact Hne).
      assert (ED2 : store sD t2 = p')
        by (subst sD; cbn [store set_this set_store]; apply update_same).
      unfold sudden_death_if_both_alive.
      fold (is_alive (store sD t1)). rewrite ED1, LC1. cbn [andb].
      eexists. split; [reflexivity|]. intros _.
      apply returned_members in Hret. destruct Hret as [P K].
      unfold conserved. rewrite ED1, LC1, ED2.
      rewrite (level_up_is_alive _ _ Hup), EC2, LA2.
      split; split.
      * subst sD. cbn [this set_this].
        rewrite team_of_set_team_of_neq by discriminate.
        apply Permutation_refl.
      * subst sD. cbn [this set_this].
        rewrite team_of_set_team_of_neq by discriminate.
        exact (ready_side _ Side1 Hready).
      * subst sD. cbn [this set_this].
        rewrite team_of_set_team_of_same. exact P.
      * subst sD. cbn [this set_this].
        rewrite team_of_set_team_of_same. exact K.
  - (* side 2 is brought down by the first blow *)
    destruct (_check_alive_down Side1 t1 t2 sA Hcrit
                (ready_side _ Side1 Hready)) as (p1 & c1 & Hup1 & Hcheck1 & Hret1).
    { rewrite EA1. exact Hs1. }
    { exact LA2. }
    rewrite Hcheck1. cbn [bind].
    set (sB := set_this _ _).
    assert (EB2 : store sB t2 = store sA t2)
      by (subst sB; cbn [store set_this set_store];
          apply update_other; exact Hne').
    assert (EB1 : store sB t1 = p1)
      by (subst sB; cbn [store set_this set_store]; apply update_same).
    assert (TB1 : team_of (this sB) Side1 = c1)
      by (subst sB; cbn [this set_this]; apply team_of_set_team_of_same).
    assert (TB2 : team_of (this sB) Side2 = team_of (this st) Side2)
      by (subst sB; cbn [this set_this];
          rewrite team_of_set_team_of_neq by discriminate; reflexivity).
    apply returned_members in Hret1. destruct Hret1 as [P1 K1].
    change (this sA) with (this st) in P1, K1.
    assert (HcB : ~ completion sB Side1 == 0).
    { subst sB. rewrite completion_set_team_of. exact Hc1. }
    destruct (strike_ok EFFECT_TABLE Side2 t2 t1 sB HcB) as [dmg2 Hstrike2].
    rewrite Hstrike2. cbn [bind].
    set (sC := hit sB t1 dmg2).
    assert (EC2 : store sC t2 = store sB t2)
      by (apply store_hit_other; exact Hne').
    assert (TC : forall s, team_of (this sC) s = team_of (this sB) s)
      by reflexivity.
    destruct (is_alive (store sC t1)) eqn:LC1.
    + (* side 1 stands: its fighter is back in the team and alive *)
      rewrite (_check_alive_up Side2 t2 t1 sC LC1). cbn [bind].
      unfold sudden_death_if_both_alive.
      fold (is_alive (store sC t1)) (is_alive (store sC t2)).
      rewrite LC1, EC2, EB2, LA2. cbn [andb].
      eexists. split; [reflexivity|]. intros _.
      unfold conserved. rewrite LC1, EC2, EB2, LA2, (TC Side1), (TC Side2), TB1, TB2.
      split; split.
      * exact P1.
      * exact K1.
      * apply Permutation_refl.
      * exact (ready_side _ Side2 Hready).
    + (* both are down: the fainted are sent back *)
      assert (HreadyC : ready (this sC)).
      { split; [exact Hcrit|]. rewrite (TC Side1), (TC Side2), TB1, TB2.
        destruct Hready as [_ Hk].
        destruct (team_of (this st) Side1), c1, (team_of (this st) Side2);
          cbn in K1, Hk |- *; tauto. }
      destruct (_check_alive_down Side2 t2 t1 sC Hcrit
                  (ready_side _ Side2 HreadyC)) as (p2 & c2 & Hup2 & Hcheck2 & _).
      { rewrite EC2, EB2. exact SA2. }
      { exact LC1. }
      rewrite Hcheck2. cbn [bind].
      set (sD := set_this _ _).
      assert (ED1 : store sD t1 = store sC t1)
        by (subst sD; cbn [store set_this set_store];
            apply update_other; exact Hne).
      assert (ED2 : store sD t2 = p2)
        by (subst sD; cbn [store set_this set_store]; apply update_same).
      unfold sudden_death_if_both_alive.
      fold (is_alive (store sD t1)). rewrite ED1, LC1. cbn [andb].
      eexists. split; [reflexivity|].
      rewrite ED1, LC1, ED2, (level_up_is_alive _ _ Hup2), EC2, EB2, LA2.
      intros [H|H]; discriminate H.
Qed.

(** X19: a pass of the battle loop between two Pokemon of equal speed
    that are alive never raises, and whenever at least one of the two
    is alive after it, every Pokemon is where it belongs: each team holds
    what it held before, without its fighter if the fighter has fainted
    and with it otherwise.  (When both faint from each other's blow the
    pass sends both back: that case is left out here.) *)
Theorem battle_step_equal_speed (battle_type : BattleMode) (st : State)
    (r1 r2 : ref) :
  kind_of_mode battle_type (team_of (this st) Side1) ->
  kind_of_mode battle_type (team_of (this st) Side2) ->
  In (criterion (this st)) CRITERION_LIST ->
  hd_error (members (team_of (this st) Side1)) = Some r1 ->
  hd_error (members (team_of (this st) Side2)) = Some r2 ->
  r1 <> r2 ->
  stage_in_line (store st r1) -> stage_in_line (store st r2) ->
  is_alive (store st r1) = true -> is_alive (store st r2) = true ->
  speed (store st r1) == speed (store st r2) ->
  exists st',
    battle_step EFFECT_TABLE battle_type st = Ok st' /\
    (is_alive (store st' r1) = true \/ is_alive (store st' r2) = true ->
     Permutation (members (team_of (this st') Side1))
                 (if is_alive (store st' r1)
                  then members (team_of (this st) Side1)
                  else tl (members (team_of (this st) Side1))) /\
     Permutation (members (team_of (this st') Side2))
                 (if is_alive (store st' r2)
                  then members (team_of (this st) Side2)
                  else tl (members (team_of (this st) Side2))) /\
     kind_of_mode battle_type (team_of (this st') Side1) /\
     kind_of_mode battle_type (team_of (this st') Side2)).
Proof.
  intros K1 K2 Hc Hh1 Hh2 Hne S1 S2 A1 A2 Hsp.
  destruct (battle_step_enters_round EFFECT_TABLE battle_type st r1 r2
              K1 K2 Hc Hh1 Hh2)
    as (stR & E & Hst & Hready & C1 & C2 & M1 & M2 & K1' & K2').
  rewrite E.
  destruct (tie_round_conserves r1 r2 stR) as (st' & HR & Hcons);
    rewrite ?Hst; try assumption.
  exists st'. split; [exact HR|]. intros Hlive.
  destruct (Hcons Hlive) as [[P1 Q1] [P2 Q2]].
  unfold conserved in P1, P2. rewrite M1, M2. cbn [tl].
  split; [exact P1|]. split; [exact P2|].
  split; [exact (same_kind_kind_of_mode _ _ _ K1' Q1)
         | exact (same_kind_kind_of_mode _ _ _ K2' Q2)].
Qed.

End Ties.

Lemma battle_step_equal_speed_witness :
  exists st',
    battle_step sample_table SET uneven = Ok st' /\
    is_alive (store st' 0%nat) = true /\
    is_alive (store st' 1%nat) = false /\
    Permutation (members (team_of (this st') Side1)) [0%nat] /\
    Permutation (members (team_of (this st') Side2)) [].
Proof.
  assert (Hc : In (criterion (this uneven)) CRITERION_LIST)
    by (left; reflexivity).
  assert (Hne : 0%nat <> 1%nat) by discriminate.
  assert (Hs : forall r, stage_in_line (store uneven r))
    by (intros [|r]; left; reflexivity).
  assert (Hsp : speed (store uneven 0%nat) == speed (store uneven 1%nat))
    by reflexivity.
  destruct (battle_step_equal_speed sample_table SET uneven 0%nat 1%nat
              I I Hc eq_refl eq_refl Hne (Hs 0%nat) (Hs 1%nat)
              eq_refl eq_refl Hsp)
    as (st' & H & Hcons).
  assert (L : is_alive (store st' 0%nat) = true
              /\ is_alive (store st' 1%nat) = false).
  { vm_compute in H. injection H as <-. split; reflexivity. }
  destruct L as [L0 L1].
  destruct (Hcons (or_introl L0)) as (P1 & P2 & _).
  rewrite L0 in P1. rewrite L1 in P2.
  exists st'. repeat split; assumption.
Defined.

(* ------------------------------------------------------------------ *)
(** ** The order of a ranked team *)

Lemma ranked_set_team_of (s s' : Side) (c : Container) (b : Battle) :
  ranked c -> ranked (team_of b s') ->
  ranked (team_of (set_team_of s c b) s').
Proof.
  intros Hc Hb. destruct s, s'; try exact Hc; exact Hb.
Qed.

Lemma send_back_ranked (dispatch : Container) (s : Side) (r : ref)
      (st st' : State) :
  send_back dispatch s r st = Ok st' ->
  (forall s', ranked (team_of (this st) s')) ->
  forall s', ranked (team_of (this st') s').
Proof.
  unfold send_back. intros H Hr s'.
  destruct dispatch; try discriminate H.
  - destruct (team_of (this st) s) eqn:E; try discriminate H.
    injection H as <-. apply ranked_set_team_of; [exact I | apply Hr].
  - destruct (team_of (this st) s) eqn:E; try discriminate H.
    injection H as <-. apply ranked_set_team_of; [exact I | apply Hr].
  - inv_bind H. destruct (team_of (this st) s) eqn:E; try discriminate H.
    injection H as <-. apply ranked_set_team_of; [|apply Hr].
    apply add_nondescending. specialize (Hr s). rewrite E in Hr. exact Hr.
Qed.

Lemma _check_alive_ranked (s : Side) (a d : ref) (st st' : State) :
  _check_alive s a d st = Ok st' ->
  (forall s', ranked (team_of (this st) s')) ->
  forall s', ranked (team_of (this st') s').
Proof.
  unfold _check_alive. intros H Hr.
  destruct (negb _).
  - inv_bind H. exact (send_back_ranked _ _ _ _ _ H Hr).
  - injection H as <-. exact Hr.
Qed.

Lemma _sudden_death_ranked (t1 t2 : ref) (st st' : State) :
  _sudden_death t1 t2 st = Ok st' ->
  (forall s', ranked (team_of (this st) s')) ->
  forall s', ranked (team_of (this st') s').
Proof.
  unfold _sudden_death. intros H Hr.
  set (stB := lose_1_health t2 (lose_1_health t1 st)) in *.
  change (forall s', ranked (team_of (this stB) s')) in Hr.
  clearbody stB.
  destruct (_ && _).
  - inv_bind H.
    exact (send_back_ranked _ _ _ _ _ H (send_back_ranked _ _ _ _ _ Ha Hr)).
  - destruct (is_alive (store stB t1)).
    + inv_bind H. exact (send_back_ranked _ _ _ _ _ H Hr).
    + destruct (is_alive (store stB t2)).
      * inv_bind H. exact (send_back_ranked _ _ _ _ _ H Hr).
      * injection H as <-. exact Hr.
Qed.

Section Ranks.

Variable EFFECT_TABLE : PokeType -> PokeType -> Q.

Lemma exchange_ranked (s : Side) (a d : ref) (st st1 st2 : State) :
  strike EFFECT_TABLE s a d st = Ok st1 ->
  _check_alive s a d st1 = Ok st2 ->
  (forall s', ranked (team_of (this st) s')) ->
  forall s', ranked (team_of (this st2) s').
Proof.
  intros H1 H2 Hr. apply strike_frame in H1.
  apply (_check_alive_ranked _ _ _ _ _ H2). rewrite H1. exact Hr.
Qed.

Lemma sudden_death_if_both_alive_ranked (t1 t2 : ref) (st st' : State) :
  sudden_death_if_both_alive t1 t2 st = Ok st' ->
  (forall s', ranked (team_of (this st) s')) ->
  forall s', ranked (team_of (this st') s').
Proof.
  unfold sudden_death_if_both_alive. intros H Hr.
  destruct (_ && _).
  - exact (_sudden_death_ranked _ _ _ _ H Hr).
  - injection H as <-. exact Hr.
Qed.

Lemma _battle_round_ranked (t1 t2 : ref) (st st' : State) :
  _battle_round EFFECT_TABLE t1 t2 st = Ok st' ->
  (forall s', ranked (team_of (this st) s')) ->
  forall s', ranked (team_of (this st') s').
Proof.
  unfold _battle_round. intros H Hr.
  destruct (Qcompare _ _).
  - inv_bind H. inv_bind H. inv_bind H. inv_bind H.
    apply (sudden_death_if_both_alive_ranked _ _ _ _ H).
    apply (exchange_ranked _ _ _ _ _ _ Ha1 Ha2).
    exact (exchange_ranked _ _ _ _ _ _ Ha Ha0 Hr).
  - inv_bind H. inv_bind H.
    pose proof (exchange_ranked _ _ _ _ _ _ Ha Ha0 Hr) as Hr1.
    destruct (is_alive _).
    + inv_bind H. inv_bind H.
      apply (sudden_death_if_both_alive_ranked _ _ _ _ H).
      exact (exchange_ranked _ _ _ _ _ _ Ha1 Ha2 Hr1).
    + injection H as <-. exact Hr1.
  - inv_bind H. inv_bind H.
    pose proof (exchange_ranked _ _ _ _ _ _ Ha Ha0 Hr) as Hr1.
    destruct (is_alive _).
    + inv_bind H. inv_bind H.
      apply (sudden_death_if_both_alive_ranked _ _ _ _ H).
      exact (exchange_ranked _ _ _ _ _ _ Ha1 Ha2 Hr1).
    + injection H as <-. exact Hr1.
Qed.

Lemma _get_next_pokemon_ranked (c c' : Container) (x : Popped) :
  _get_next_pokemon c = Ok (x, c') -> ranked c -> ranked c'.
Proof.
  unfold _get_next_pokemon. intros H Hr.
  destruct c as [a|s|q|l]; try discriminate H.
  - destruct s; [discriminate H|]. injection H as _ <-. exact I.
  - destruct q; [discriminate H|]. injection H as _ <-. exact I.
  - destruct l as [|it l]; [discriminate H|]. injection H as _ <-.
    exact (proj2 Hr).
Qed.

Lemma battle_step_ranked (battle_type : BattleMode) (st st' : State) :
  battle_step EFFECT_TABLE battle_type st = Ok st' ->
  (forall s', ranked (team_of (this st) s')) ->
  forall s', ranked (team_of (this st') s').
Proof.
  unfold battle_step. intros H Hr.
  inv_bind H. destruct a as [x1 c1].
  inv_bind H. destruct a as [x2 c2].
  inv_bind H. destruct a as [t1 t2].
  apply (_battle_round_ranked _ _ _ _ H).
  cbn [this set_this] in Ha0 |- *.
  pose proof (_get_next_pokemon_ranked _ _ _ Ha (Hr Side1)) as R1.
  assert (R2 : ranked c2).
  { apply (_get_next_pokemon_ranked _ _ _ Ha0).
    rewrite team_of_set_team_of_neq by discriminate. apply Hr. }
  intros [|]; [exact R1 | exact R2].
Qed.

Lemma _conduct_battle_ranked (battle_type : BattleMode) (fuel : nat) :
  forall st st',
    _conduct_battle EFFECT_TABLE fuel battle_type st = Some (Ok st') ->
    (forall s', ranked (team_of (this st) s')) ->
    forall s', ranked (team_of (this st') s').
Proof.
  induction fuel as [|fuel IH]; intros st st' H Hr; [discriminate H|].
  cbn [_conduct_battle] in H.
  destruct (negb _ || negb _).
  - destruct (len (team_of (this st) Side1) =? 0)%nat.
    { injection H as <-. intros s'. cbn [this set_this].
      rewrite team_of_set_winner_trainer. apply Hr. }
    destruct (len (team_of (this st) Side2) =? 0)%nat.
    { injection H as <-. intros s'. cbn [this set_this].
      rewrite team_of_set_winner_trainer. apply Hr. }
    destruct (battle_step EFFECT_TABLE battle_type st) as [st1|e] eqn:E;
      [|discriminate H].
    exact (IH st1 st' H (battle_step_ranked _ _ _ E Hr)).
  - injection H as <-. exact Hr.
Qed.

(** X20: the order of a ranked team is maintained throughout a battle.
    If the sorted lists of the two teams have keys that never descend
    when the battle starts, they have when it ends: a Pokemon is only
    ever taken from the head and sent back by [add], whatever has become
    of its stats in between. *)
Theorem ranked_teams_stay_ranked_in_battle (fuel : nat) (st st' : State)
    (winner : option Side) :
  (forall s, ranked (team_of (this st) s)) ->
  commence_battle EFFECT_TABLE fuel st = Some (Ok (winner, st')) ->
  forall s, ranked (team_of (this st') s).
Proof.
  intros Hr H. unfold commence_battle in H.
  destruct (_conduct_battle EFFECT_TABLE fuel (battle_mode (this st)) st)
    as [[st1|e]|] eqn:E; try discriminate H.
  injection H as _ <-.
  exact (_conduct_battle_ranked _ _ _ _ E Hr).
Qed.

End Ranks.

Lemma ranked_teams_stay_ranked_in_battle_witness :
  exists st',
    commence_battle sample_table 7 ranked_pair
    = Some (Ok (Some Side1, st')) /\
    ranked (team_of (this st') Side1) /\
    members (team_of (this st') Side1) = [0%nat].
Proof.
  assert (H : {x | commence_battle sample_table 7 ranked_pair
                   = Some (Ok (Some Side1, x))})
    by (eexists; vm_compute; reflexivity).
  destruct H as [st' H].
  assert (Hr : forall s, ranked (team_of (this ranked_pair) s)).
  { intros [|]; cbn.
    - split; [|split; [intros y []|exact I]].
      intros y [<-|[]]. cbn. discriminate.
    - split; [intros y []|exact I]. }
  pose proof (ranked_teams_stay_ranked_in_battle sample_table 7 ranked_pair
                st' (Some Side1) Hr H Side1) as R.
  exists st'. split; [exact H|]. split; [exact R|].
  vm_compute in H. injection H as <-. reflexivity.
Defined.
